(** * Minimal Transformers (pytorch-playground): attention, position encoding,
      block composition and greedy decoding

    Shallow embedding of the three notebooks
    [EncoderOnlyTrans.ipynb], [DecoderOnlyTrans.ipynb] and [Transformer.ipynb].

    Numbers.  A [torch] tensor of [float32] is modelled as a shape together
    with its entries over the real numbers [R]; [exp], [sin], [cos], [sqrt]
    and [Rpower] are the functions of the Standard Library.  Rounding,
    overflow and NaN are outside this model.

    Errors.  A Python exception is a value [Raise e] of the [result] type;
    the operations raise where [torch] raises (shape mismatch, index out of
    range, [.item()] on a tensor that does not hold one element, attribute
    access on [None]). *)

From Stdlib Require Import String.
From Stdlib Require Import Reals Lra Lia List Arith Bool.
Import ListNotations.

Open Scope R_scope.

(* ================================================================== *)
(** * Exceptions *)

Inductive exn : Type :=
| RuntimeError      (* torch shape mismatch, .item() on a non-singleton *)
| AttributeError    (* attribute access on None                         *)
| IndexError.       (* embedding index / tensor index out of range      *)

Inductive result (A : Type) : Type :=
| Ok (x : A)
| Raise (e : exn).

Arguments Ok {A} x.
Arguments Raise {A} e.

Definition bind {A B : Type} (m : result A) (k : A -> result B) : result B :=
  match m with
  | Ok x => k x
  | Raise e => Raise e
  end.

Notation "x <- m ;; k" := (bind m (fun x => k))
  (at level 61, m at next level, right associativity).

Definition is_ok {A : Type} (m : result A) : Prop := exists x, m = Ok x.
Definition fails {A : Type} (m : result A) : Prop := exists e, m = Raise e.

(* ================================================================== *)
(** * Tensors *)

(** A two-dimensional float tensor: its shape and its entries.  Entries
    outside the shape carry no meaning. *)
Record Tensor : Type := mkTensor {
  rows : nat;
  cols : nat;
  val  : nat -> nat -> R
}.

(** A one-dimensional float tensor. *)
Record Vector : Type := mkVector {
  len : nat;
  elt : nat -> R
}.

(** A two-dimensional boolean tensor (attention mask). *)
Record BoolTensor : Type := mkBoolTensor {
  brows : nat;
  bcols : nat;
  bval  : nat -> nat -> bool
}.

(** [Rsum n f] is [f 0 + ... + f (n-1)]. *)
Fixpoint Rsum (n : nat) (f : nat -> R) : R :=
  match n with
  | O => 0
  | S m => Rsum m f + f m
  end.

(** ** Broadcasting *)

(** Size of a broadcast dimension: equal sizes, or one of them is 1. *)
Definition broadcast_dim (m n : nat) : result nat :=
  if (m =? n)%nat then Ok m
  else if (m =? 1)%nat then Ok n
  else if (n =? 1)%nat then Ok m
  else Raise RuntimeError.

(** Index into a dimension of size [d] that may have been expanded. *)
Definition bidx (d i : nat) : nat := if (d =? 1)%nat then O else i.

(** [expandable s t]: a dimension of size [s] can be expanded to size [t]. *)
Definition expandable (s t : nat) : bool := (s =? t)%nat || (s =? 1)%nat.

(** [a + b] *)
Definition tensor_add (a b : Tensor) : result Tensor :=
  r <- broadcast_dim (rows a) (rows b) ;;
  c <- broadcast_dim (cols a) (cols b) ;;
  Ok (mkTensor r c (fun i j =>
        val a (bidx (rows a) i) (bidx (cols a) j)
        + val b (bidx (rows b) i) (bidx (cols b) j))).

(** [torch.zeros(r, c)] *)
Definition zeros (r c : nat) : Tensor := mkTensor r c (fun _ _ => 0).

(** [t[:n, :]] *)
Definition slice_rows (n : nat) (t : Tensor) : Tensor :=
  mkTensor (Nat.min n (rows t)) (cols t) (val t).

(** [t[-1:]] : the last row, kept two-dimensional (no row when [t] has none). *)
Definition last_row (t : Tensor) : Tensor :=
  mkTensor (Nat.min 1 (rows t)) (cols t) (fun _ j => val t (rows t - 1) j).

(** [torch.arange(start=0, end=n, step=1).float().unsqueeze(1)] *)
Definition arange_column (n : nat) : Tensor :=
  mkTensor n 1 (fun i _ => INR i).

(** [torch.arange(start=0, end=n, step=2).float()] *)
Definition arange_step2 (n : nat) : Vector :=
  mkVector ((n + 1) / 2) (fun i => INR (2 * i)).

(** [x ** (v / d)] for a scalar tensor [x] and a vector [v]. *)
Definition pow_div (x : R) (v : Vector) (d : nat) : Vector :=
  mkVector (len v) (fun i => Rpower x (elt v i / INR d)).

(** [t / v] for a two-dimensional [t] and a one-dimensional [v]. *)
Definition div_row (t : Tensor) (v : Vector) : result Tensor :=
  c <- broadcast_dim (cols t) (len v) ;;
  Ok (mkTensor (rows t) c (fun i j =>
        val t i (bidx (cols t) j) / elt v (bidx (len v) j))).

Definition tensor_map (f : R -> R) (t : Tensor) : Tensor :=
  mkTensor (rows t) (cols t) (fun i j => f (val t i j)).

(** Number of indices [start, start+step, ...] below [n]. *)
Definition strided_count (start step n : nat) : nat :=
  if (start <? n)%nat then (n - start + step - 1) / step else O.

(** [t[:, start::step] = src] *)
Definition assign_cols (start step : nat) (t src : Tensor) : result Tensor :=
  if expandable (rows src) (rows t)
     && expandable (cols src) (strided_count start step (cols t))
  then Ok (mkTensor (rows t) (cols t) (fun i j =>
        if (start <=? j)%nat && ((j - start) mod step =? 0)%nat
        then val src (bidx (rows src) i) (bidx (cols src) ((j - start) / step))
        else val t i j))
  else Raise RuntimeError.

(* ================================================================== *)
(** * PositionEncoding (the same class in the three notebooks) *)

(** [PositionEncoding.__init__]: the registered buffer [pe]. *)
Definition PositionEncoding_init (d_model max_len : nat) : result Tensor :=
  let pe := zeros max_len d_model in
  let position := arange_column max_len in
  let embedding_index := arange_step2 d_model in
  let div_term := pow_div 10000 embedding_index d_model in
  arg <- div_row position div_term ;;
  pe <- assign_cols 0 2 pe (tensor_map sin arg) ;;
  pe <- assign_cols 1 2 pe (tensor_map cos arg) ;;
  Ok pe.

(** [PositionEncoding.forward]:
    [word_embeddings + self.pe[:word_embeddings.size(0), :]] *)
Definition PositionEncoding_forward (pe : Tensor) (word_embeddings : Tensor)
  : result Tensor :=
  tensor_add word_embeddings (slice_rows (rows word_embeddings) pe).

(* ================================================================== *)
(** * Layers of [torch.nn] *)

(** [nn.Linear(in_features, out_features, bias)]: the weight has shape
    [out_features x in_features]. *)
Record Linear : Type := mkLinear {
  in_features  : nat;
  out_features : nat;
  weight       : nat -> nat -> R;
  bias         : option (nat -> R)
}.

Definition bias_at (l : Linear) (j : nat) : R :=
  match bias l with
  | Some b => b j
  | None => 0
  end.

(** [l(x)] on a two-dimensional input: [x . weight^T + bias]. *)
Definition Linear_forward (l : Linear) (x : Tensor) : result Tensor :=
  if (cols x =? in_features l)%nat
  then Ok (mkTensor (rows x) (out_features l) (fun i j =>
         Rsum (in_features l) (fun k => val x i k * weight l j k) + bias_at l j))
  else Raise RuntimeError.

(** [l(v)] on a one-dimensional input. *)
Definition Linear_forward1 (l : Linear) (v : Vector) : result Vector :=
  if (len v =? in_features l)%nat
  then Ok (mkVector (out_features l) (fun j =>
         Rsum (in_features l) (fun k => elt v k * weight l j k) + bias_at l j))
  else Raise RuntimeError.

(** [nn.Embedding(num_embeddings, embedding_dim)] *)
Record Embedding : Type := mkEmbedding {
  num_embeddings : nat;
  embedding_dim  : nat;
  emb_weight     : nat -> nat -> R
}.

(** [we(token_ids)] for a one-dimensional tensor of token ids. *)
Definition Embedding_forward (e : Embedding) (token_ids : list nat)
  : result Tensor :=
  if forallb (fun t => (t <? num_embeddings e)%nat) token_ids
  then Ok (mkTensor (length token_ids) (embedding_dim e) (fun i j =>
         emb_weight e (nth i token_ids O) j))
  else Raise IndexError.

(** ** Tensor operations used by attention *)

(** [torch.matmul(a, b)] *)
Definition matmul (a b : Tensor) : result Tensor :=
  if (cols a =? rows b)%nat
  then Ok (mkTensor (rows a) (cols b) (fun i j =>
         Rsum (cols a) (fun k => val a i k * val b k j)))
  else Raise RuntimeError.

(** [t.transpose(dim0=0, dim1=1)] *)
Definition transpose (t : Tensor) : Tensor :=
  mkTensor (cols t) (rows t) (fun i j => val t j i).

(** [t / c] for a scalar [c] *)
Definition div_scalar (t : Tensor) (c : R) : Tensor :=
  mkTensor (rows t) (cols t) (fun i j => val t i j / c).

(** [t.masked_fill(mask=mask, value=value)], out of place: tensor and
    mask are broadcast against each other. *)
Definition masked_fill (t : Tensor) (mask : BoolTensor) (value : R)
  : result Tensor :=
  r <- broadcast_dim (rows t) (brows mask) ;;
  c <- broadcast_dim (cols t) (bcols mask) ;;
  Ok (mkTensor r c (fun i j =>
        if bval mask (bidx (brows mask) i) (bidx (bcols mask) j)
        then value else val t (bidx (rows t) i) (bidx (cols t) j))).

(** [F.softmax(t, dim=1)] *)
Definition softmax (t : Tensor) : Tensor :=
  mkTensor (rows t) (cols t) (fun i j =>
    exp (val t i j) / Rsum (cols t) (fun k => exp (val t i k))).

(** [torch.ones(r, c)] *)
Definition ones (r c : nat) : Tensor := mkTensor r c (fun _ _ => 1).

(** [torch.tril(t)] *)
Definition tril (t : Tensor) : Tensor :=
  mkTensor (rows t) (cols t) (fun i j =>
    if (j <=? i)%nat then val t i j else 0).

(** [t == 0] *)
Definition eq_zero (t : Tensor) : BoolTensor :=
  mkBoolTensor (rows t) (cols t) (fun i j =>
    if Req_dec_T (val t i j) 0 then true else false).

(** [torch.tril(torch.ones(n, n)) == 0] *)
Definition causal_mask (n : nat) : BoolTensor := eq_zero (tril (ones n n)).

(** [mask.to(device)]: an attribute access, which raises on [None]. *)
Definition to_device (mask : option BoolTensor) : result BoolTensor :=
  match mask with
  | Some m => Ok m
  | None => Raise AttributeError
  end.

(** The fill value [-1e9] of the notebooks. *)
Definition minus_1e9 : R := - 1000000000.

(** [t.flatten()] *)
Definition flatten (t : Tensor) : Vector :=
  mkVector (rows t * cols t) (fun n => val t (n / cols t) (n mod cols t)).

(** [t[-1, :]] *)
Definition select_last (t : Tensor) : result Vector :=
  match rows t with
  | O => Raise IndexError
  | S m => Ok (mkVector (cols t) (fun j => val t m j))
  end.

(** Index of the first maximum of [f 0 .. f n]. *)
Fixpoint argmax_upto (n : nat) (f : nat -> R) : nat :=
  match n with
  | O => O
  | S m => let b := argmax_upto m f in
           if Rlt_dec (f b) (f (S m)) then S m else b
  end.

(** [torch.argmax(v)] *)
Definition argmax (v : Vector) : result nat :=
  match len v with
  | O => Raise IndexError
  | S m => Ok (argmax_upto m (elt v))
  end.

(** [torch.cat(ts, dim=1)] *)
Fixpoint cat_cols (ts : list Tensor) : result Tensor :=
  match ts with
  | [] => Raise RuntimeError
  | [t] => Ok t
  | t :: rest =>
      r <- cat_cols rest ;;
      if (rows t =? rows r)%nat
      then Ok (mkTensor (rows t) (cols t + cols r) (fun i j =>
             if (j <? cols t)%nat then val t i j else val r i (j - cols t)))
      else Raise RuntimeError
  end.

(* ================================================================== *)
(** * Attention, as written in [EncoderOnlyTrans.ipynb] and
      [Transformer.ipynb] (the two classes are the same). *)

Record Attention : Type := mkAttention {
  W_q : Linear;
  W_k : Linear;
  W_v : Linear
}.

(** [Attention.__init__(d_model)]; the entries of the three weights are
    whatever initialisation and training made them. *)
Definition Attention_init (d_model : nat) (wq wk wv : nat -> nat -> R)
  : Attention :=
  mkAttention (mkLinear d_model d_model wq None)
              (mkLinear d_model d_model wk None)
              (mkLinear d_model d_model wv None).

(** From the projected [q] and [k] to [attention_percents]. *)
Definition Attention_percents (q k : Tensor) (mask : option BoolTensor)
  : result Tensor :=
  sims <- matmul q (transpose k) ;;
  let scaled_sims := div_scalar sims (sqrt (INR (cols k))) in
  scaled_sims <-
    match mask with
    | Some _ =>
        mask <- to_device mask ;;
        masked_fill scaled_sims mask minus_1e9
    | None => Ok scaled_sims
    end ;;
  Ok (softmax scaled_sims).

(** [Attention.forward] *)
Definition Attention_forward (a : Attention)
  (encodings_for_q encodings_for_k encodings_for_v : Tensor)
  (mask : option BoolTensor) : result Tensor :=
  q <- Linear_forward (W_q a) encodings_for_q ;;
  k <- Linear_forward (W_k a) encodings_for_k ;;
  v <- Linear_forward (W_v a) encodings_for_v ;;
  attention_percents <- Attention_percents q k mask ;;
  matmul attention_percents v.

(** The entries of the three weights of one attention head. *)
Record AttentionWeights : Type := mkAttentionWeights {
  wq : nat -> nat -> R;
  wk : nat -> nat -> R;
  wv : nat -> nat -> R
}.

Definition Attention_of (d_model : nat) (w : AttentionWeights) : Attention :=
  Attention_init d_model (wq w) (wk w) (wv w).

(* ================================================================== *)
(** * EncoderOnlyTrans.ipynb *)

Module EncoderOnlyTrans.

Record MultiHeadAttention : Type := mkMultiHeadAttention {
  head            : nat;
  attention_heads : list Attention;
  fc              : Linear
}.

(** [MultiHeadAttention.__init__(d_model, head)] *)
Definition MultiHeadAttention_init (d_model head : nat)
  (heads_w : nat -> AttentionWeights)
  (fc_w : nat -> nat -> R) (fc_b : nat -> R) : MultiHeadAttention :=
  mkMultiHeadAttention head
    (map (fun h => Attention_of d_model (heads_w h)) (seq 0 head))
    (mkLinear (head * d_model) d_model fc_w (Some fc_b)).

(** The loop [for h in range(self.head)] of [MultiHeadAttention.forward]. *)
Fixpoint heads_loop (m : MultiHeadAttention) (hs : list nat)
  (encodings_for_q encodings_for_k encodings_for_v : Tensor)
  (mask : option BoolTensor) (agg_attention_values : list Tensor)
  : result (list Tensor) :=
  match hs with
  | [] => Ok agg_attention_values
  | h :: hs' =>
      match nth_error (attention_heads m) h with
      | None => Raise IndexError
      | Some attention_h =>
          attention_values_h <-
            Attention_forward attention_h encodings_for_q encodings_for_k
                              encodings_for_v mask ;;
          heads_loop m hs' encodings_for_q encodings_for_k encodings_for_v
                     mask (agg_attention_values ++ [attention_values_h])
      end
  end.

(** [MultiHeadAttention.forward] *)
Definition MultiHeadAttention_forward (m : MultiHeadAttention)
  (encodings_for_q encodings_for_k encodings_for_v : Tensor)
  (mask : option BoolTensor) : result Tensor :=
  agg_attention_values <-
    heads_loop m (seq 0 (head m)) encodings_for_q encodings_for_k
               encodings_for_v mask [] ;;
  agg_attention_values <- cat_cols agg_attention_values ;;
  Linear_forward (fc m) agg_attention_values.

Record EncoderOnlyTransformer : Type := mkEncoderOnlyTransformer {
  we                   : Embedding;
  pe                   : Tensor;
  multi_head_attention : MultiHeadAttention;
  cls                  : Linear
}.

(** Entries of every trainable weight of the model. *)
Record Weights : Type := mkWeights {
  we_w    : nat -> nat -> R;
  heads_w : nat -> AttentionWeights;
  fc_w    : nat -> nat -> R;
  fc_b    : nat -> R;
  cls_w   : nat -> nat -> R;
  cls_b   : nat -> R
}.

(** [EncoderOnlyTransformer.__init__(num_tokens, d_model, head, max_len)] *)
Definition init (num_tokens d_model head max_len : nat) (w : Weights)
  : result EncoderOnlyTransformer :=
  pe <- PositionEncoding_init d_model max_len ;;
  Ok (mkEncoderOnlyTransformer
        (mkEmbedding num_tokens d_model (we_w w))
        pe
        (MultiHeadAttention_init d_model head (heads_w w) (fc_w w) (fc_b w))
        (mkLinear (max_len * d_model) 2 (cls_w w) (Some (cls_b w)))).

(** [EncoderOnlyTransformer.forward], up to the residual connection. *)
Definition residual (m : EncoderOnlyTransformer) (token_ids : list nat)
  : result Tensor :=
  word_embeddings <- Embedding_forward (we m) token_ids ;;
  position_encoded <- PositionEncoding_forward (pe m) word_embeddings ;;
  self_attention_values <-
    MultiHeadAttention_forward (multi_head_attention m)
      position_encoded position_encoded position_encoded None ;;
  tensor_add position_encoded self_attention_values.

(** [EncoderOnlyTransformer.forward] *)
Definition forward (m : EncoderOnlyTransformer) (token_ids : list nat)
  : result Vector :=
  residual_connection_values <- residual m token_ids ;;
  let cls_input := flatten residual_connection_values in
  Linear_forward1 (cls m) cls_input.

End EncoderOnlyTrans.

(* ================================================================== *)
(** * Transformer.ipynb *)

Module Transformer.

(** [token_to_id_spa["<SOS>"]] and [token_to_id_spa["<EOS>"]] *)
Definition SOS : nat := 0.
Definition EOS : nat := 5.

Module Encoder.

Record t : Type := mk {
  we        : Embedding;
  pe        : Tensor;
  attention : Attention
}.

Definition init (num_tokens d_model max_len : nat)
  (we_w : nat -> nat -> R) (att_w : AttentionWeights) : result t :=
  pe <- PositionEncoding_init d_model max_len ;;
  Ok (mk (mkEmbedding num_tokens d_model we_w) pe
         (Attention_of d_model att_w)).

(** [Encoder.forward] *)
Definition forward (m : t) (token_ids : list nat) : result Tensor :=
  word_embeddings <- Embedding_forward (we m) token_ids ;;
  position_encoded <- PositionEncoding_forward (pe m) word_embeddings ;;
  self_attention_values <-
    Attention_forward (attention m)
      position_encoded position_encoded position_encoded None ;;
  tensor_add position_encoded self_attention_values.

End Encoder.

Module Decoder.

Record t : Type := mk {
  we                        : Embedding;
  pe                        : Tensor;
  self_attention            : Attention;
  encoder_decoder_attention : Attention
}.

Definition init (num_tokens d_model max_len : nat)
  (we_w : nat -> nat -> R) (self_w cross_w : AttentionWeights) : result t :=
  pe <- PositionEncoding_init d_model max_len ;;
  Ok (mk (mkEmbedding num_tokens d_model we_w) pe
         (Attention_of d_model self_w) (Attention_of d_model cross_w)).

(** [Decoder.forward] *)
Definition forward (m : t) (token_ids : list nat)
  (embeddings_for_k embeddings_for_v : Tensor) : result Tensor :=
  word_embeddings <- Embedding_forward (we m) token_ids ;;
  position_encoded <- PositionEncoding_forward (pe m) word_embeddings ;;
  let mask := causal_mask (length token_ids) in
  self_attention_values <-
    Attention_forward (self_attention m)
      position_encoded position_encoded position_encoded (Some mask) ;;
  residual_connection_values <-
    tensor_add position_encoded self_attention_values ;;
  encoder_decoder_attention_values <-
    Attention_forward (encoder_decoder_attention m)
      position_encoded embeddings_for_k embeddings_for_v None ;;
  residual_connection_values <-
    tensor_add encoder_decoder_attention_values residual_connection_values ;;
  Ok residual_connection_values.

End Decoder.

Record t : Type := mk {
  encoder : Encoder.t;
  decoder : Decoder.t;
  fc      : Linear;
  max_len : nat
}.

Record Weights : Type := mkWeights {
  enc_we_w    : nat -> nat -> R;
  enc_att_w   : AttentionWeights;
  dec_we_w    : nat -> nat -> R;
  dec_self_w  : AttentionWeights;
  dec_cross_w : AttentionWeights;
  fc_w        : nat -> nat -> R;
  fc_b        : nat -> R
}.

(** [Transformer.__init__(num_tokens, d_model, max_len)] *)
Definition init (num_tokens d_model max_len : nat) (w : Weights) : result t :=
  encoder <- Encoder.init num_tokens d_model max_len
               (enc_we_w w) (enc_att_w w) ;;
  decoder <- Decoder.init num_tokens d_model max_len
               (dec_we_w w) (dec_self_w w) (dec_cross_w w) ;;
  Ok (mk encoder decoder
         (mkLinear d_model num_tokens (fc_w w) (Some (fc_b w))) max_len).

(** [torch.where(token_ids == c)[0]]: the positions holding [c]. *)
Fixpoint where_eq (c : nat) (token_ids : list nat) (i : nat) : list nat :=
  match token_ids with
  | [] => []
  | x :: rest =>
      if (x =? c)%nat then i :: where_eq c rest (S i)
      else where_eq c rest (S i)
  end.

(** [.item()] on a one-dimensional tensor *)
Definition item (l : list nat) : result nat :=
  match l with
  | [x] => Ok x
  | _ => Raise RuntimeError
  end.

(** [Transformer.forward] *)
Definition forward (m : t) (token_ids : list nat) : result Tensor :=
  end_idx <- item (where_eq SOS token_ids 0) ;;
  contextualised_embeddings <-
    Encoder.forward (encoder m) (firstn end_idx token_ids) ;;
  residual_connection_values <-
    Decoder.forward (decoder m) (skipn end_idx token_ids)
      contextualised_embeddings contextualised_embeddings ;;
  Linear_forward (fc m) residual_connection_values.

(** The loop [for i in range(self.max_len-1)] of [Transformer.generate];
    [n] is the number of iterations left. *)
Fixpoint generate_loop (m : t) (contextualised_embeddings : Tensor)
  (n : nat) (target_token_ids : list nat) (prediction_id : nat)
  : result (list nat) :=
  match n with
  | O => Ok target_token_ids
  | S n' =>
      let target_token_ids := target_token_ids ++ [prediction_id] in
      if (prediction_id =? EOS)%nat then Ok target_token_ids
      else
        residual_connection_values <-
          Decoder.forward (decoder m) target_token_ids
            contextualised_embeddings contextualised_embeddings ;;
        fc_layer_out <-
          Linear_forward (fc m) (last_row residual_connection_values) ;;
        prediction_id <- argmax (flatten fc_layer_out) ;;
        generate_loop m contextualised_embeddings n' target_token_ids
                      prediction_id
  end.

(** [Transformer.generate]; the result is the printed [target_token_ids]. *)
Definition generate (m : t) (src_token_ids : list nat) : result (list nat) :=
  contextualised_embeddings <- Encoder.forward (encoder m) src_token_ids ;;
  let target_token_ids := [SOS] in
  residual_connection_values <-
    Decoder.forward (decoder m) target_token_ids
      contextualised_embeddings contextualised_embeddings ;;
  fc_layer_out <- Linear_forward (fc m) residual_connection_values ;;
  prediction_id <- argmax (flatten fc_layer_out) ;;
  generate_loop m contextualised_embeddings (max_len m - 1)
                target_token_ids prediction_id.

End Transformer.

(* ================================================================== *)
(** * DecoderOnlyTrans.ipynb *)

Module DecoderOnlyTrans.

(** [token_to_id["<EOS>"]] *)
Definition EOS : nat := 4.

(** From the projected [q] and [k] to [attention_percents]; in this
    notebook [mask.to(device)] precedes the test [mask is not None]. *)
Definition Attention_percents (q k : Tensor) (mask : option BoolTensor)
  : result Tensor :=
  sims <- matmul q (transpose k) ;;
  let scaled_sims := div_scalar sims (sqrt (INR (cols k))) in
  mask <- to_device mask ;;
  let mask := Some mask in
  scaled_sims <-
    match mask with
    | Some mask => masked_fill scaled_sims mask minus_1e9
    | None => Ok scaled_sims
    end ;;
  Ok (softmax scaled_sims).

(** [Attention.forward] of this notebook *)
Definition Attention_forward (a : Attention)
  (encodings_for_q encodings_for_k encodings_for_v : Tensor)
  (mask : option BoolTensor) : result Tensor :=
  q <- Linear_forward (W_q a) encodings_for_q ;;
  k <- Linear_forward (W_k a) encodings_for_k ;;
  v <- Linear_forward (W_v a) encodings_for_v ;;
  attention_percents <- Attention_percents q k mask ;;
  matmul attention_percents v.

Record DecoderOnlyTransformer : Type := mkDecoderOnlyTransformer {
  we        : Embedding;
  pe        : Tensor;
  attention : Attention;
  fc        : Linear
}.

Record Weights : Type := mkWeights {
  we_w  : nat -> nat -> R;
  att_w : AttentionWeights;
  fc_w  : nat -> nat -> R;
  fc_b  : nat -> R
}.

(** [DecoderOnlyTransformer.__init__(num_tokens, d_model, max_len)] *)
Definition init (num_tokens d_model max_len : nat) (w : Weights)
  : result DecoderOnlyTransformer :=
  pe <- PositionEncoding_init d_model max_len ;;
  Ok (mkDecoderOnlyTransformer
        (mkEmbedding num_tokens d_model (we_w w))
        pe
        (Attention_of d_model (att_w w))
        (mkLinear d_model num_tokens (fc_w w) (Some (fc_b w)))).

(** [DecoderOnlyTransformer.forward] *)
Definition forward (m : DecoderOnlyTransformer) (token_ids : list nat)
  : result Tensor :=
  word_embeddings <- Embedding_forward (we m) token_ids ;;
  position_encoded <- PositionEncoding_forward (pe m) word_embeddings ;;
  let mask := causal_mask (length token_ids) in
  self_attention_values <-
    Attention_forward (attention m)
      position_encoded position_encoded position_encoded (Some mask) ;;
  residual_connection_values <-
    tensor_add position_encoded self_attention_values ;;
  Linear_forward (fc m) residual_connection_values.

(** The variables of the generation cells. *)
Record GenState : Type := mkGenState {
  model_input   : list nat;
  predicted_id  : nat;
  predicted_ids : list nat
}.

Section Cells.

(** [model(...)]: any callable from token ids to logits. *)
Variable model : list nat -> result Tensor.

(** [torch.argmax(model(model_input)[-1,:])] *)
Definition predict (model_input : list nat) : result nat :=
  predictions <- model model_input ;;
  last <- select_last predictions ;;
  argmax last.

(** The cell that builds the prompt and takes the first prediction. *)
Definition prompt_cell (model_input : list nat) : result GenState :=
  predicted_id <- predict model_input ;;
  Ok (mkGenState model_input predicted_id [predicted_id]).

(** The loop [for i in range(input_length, max_len)] of the cell run
    before training; [n] is the number of iterations left. *)
Fixpoint loop_before_training (n : nat) (s : GenState) : result GenState :=
  match n with
  | O => Ok s
  | S n' =>
      if (predicted_id s =? EOS)%nat then Ok s
      else
        let model_input := model_input s ++ [predicted_id s] in
        predicted_id <- predict model_input ;;
        let predicted_ids := [predicted_id] ++ predicted_ids s in
        loop_before_training n'
          (mkGenState model_input predicted_id predicted_ids)
  end.

(** The same loop in the cells run after training. *)
Fixpoint loop_after_training (n : nat) (s : GenState) : result GenState :=
  match n with
  | O => Ok s
  | S n' =>
      if (predicted_id s =? EOS)%nat then Ok s
      else
        let model_input := model_input s ++ [predicted_id s] in
        predicted_id <- predict model_input ;;
        let predicted_ids := predicted_ids s ++ [predicted_id] in
        loop_after_training n'
          (mkGenState model_input predicted_id predicted_ids)
  end.

(** Prompt cell followed by the generation cell, before training. *)
Definition generate_before_training (max_len : nat) (prompt : list nat)
  : result GenState :=
  s <- prompt_cell prompt ;;
  let input_length := length prompt in
  loop_before_training (max_len - input_length) s.

(** Prompt cell followed by the generation cell, after training. *)
Definition generate_after_training (max_len : nat) (prompt : list nat)
  : result GenState :=
  s <- prompt_cell prompt ;;
  let input_length := length prompt in
  loop_after_training (max_len - input_length) s.

(** The tokens in the order the model produces them: the [k]-th is
    predicted from the prompt followed by the [k] tokens before it;
    [n] bounds the number of further predictions. *)
Fixpoint generation_order (n : nat) (input : list nat) (p : nat)
  : result (list nat) :=
  match n with
  | O => Ok [p]
  | S n' =>
      if (p =? EOS)%nat then Ok [p]
      else
        p' <- predict (input ++ [p]) ;;
        rest <- generation_order n' (input ++ [p]) p' ;;
        Ok (p :: rest)
  end.

End Cells.

(** [max_len = 6] of the generation cell *)
Definition cell_max_len : nat := 6.

End DecoderOnlyTrans.

(* ================================================================== *)
(** * Inputs used in the examples below *)

(** Two embeddings of width 1. *)
Definition narrow_embeddings : Tensor := mkTensor 2 1 (fun _ _ => 0).

(** An attention head of width 2 whose weights are all 1. *)
Definition unit_attention : Attention :=
  Attention_init 2 (fun _ _ => 1) (fun _ _ => 1) (fun _ _ => 1).

(** One embedding of width 2, and an empty sequence of such embeddings. *)
Definition one_embedding : Tensor := mkTensor 1 2 (fun _ _ => 1).

(** A mask of three rows and one column that hides nothing. *)
Definition tall_mask : BoolTensor := mkBoolTensor 3 1 (fun _ _ => false).

(** A mask of one row and three columns that hides everything. *)
Definition wide_mask : BoolTensor := mkBoolTensor 1 3 (fun _ _ => true).

(** A mask that expands to the [r x c] scores, which then keep their
    shape under [masked_fill]; no mask at all always fits. *)
Definition mask_fits (mask : option BoolTensor) (r c : nat) : Prop :=
  match mask with
  | None => True
  | Some m => expandable (brows m) r && expandable (bcols m) c = true
  end.

(** The scaled similarity of query row [i] and key row [j]. *)
Definition scaled_score (q k : Tensor) (i j : nat) : R :=
  Rsum (cols q) (fun n => val q i n * val k j n) / sqrt (INR (cols k)).

(** A head of width 2 with [W_q = -I], [W_k = I], [W_v = I], and two
    position-encoded embeddings, the first of them large. *)
Definition steep_attention : Attention :=
  Attention_init 2
    (fun i j => if (i =? j)%nat then -1 else 0)
    (fun i j => if (i =? j)%nat then 1 else 0)
    (fun i j => if (i =? j)%nat then 1 else 0).

Definition steep_embeddings : Tensor :=
  mkTensor 2 2 (fun i j =>
    match i, j with
    | O, O => 100000
    | S O, S O => 1
    | _, _ => 0
    end).

(** [Decoder.forward] as the specification words it: the query of the
    encoder-decoder attention is the residual output of the self-attention.
    This follows the specification, not the notebook; it is what
    [Transformer.Decoder.forward] is compared with. *)
Definition Decoder_forward_as_claimed (m : Transformer.Decoder.t)
  (token_ids : list nat) (embeddings_for_k embeddings_for_v : Tensor)
  : result Tensor :=
  word_embeddings <- Embedding_forward (Transformer.Decoder.we m) token_ids ;;
  position_encoded <-
    PositionEncoding_forward (Transformer.Decoder.pe m) word_embeddings ;;
  let mask := causal_mask (length token_ids) in
  self_attention_values <-
    Attention_forward (Transformer.Decoder.self_attention m)
      position_encoded position_encoded position_encoded (Some mask) ;;
  residual_connection_values <-
    tensor_add position_encoded self_attention_values ;;
  encoder_decoder_attention_values <-
    Attention_forward (Transformer.Decoder.encoder_decoder_attention m)
      residual_connection_values embeddings_for_k embeddings_for_v None ;;
  tensor_add encoder_decoder_attention_values residual_connection_values.

(** Weights [c * I] of an attention projection. *)
Definition scaled_identity (c : R) : nat -> nat -> R :=
  fun i j => if (i =? j)%nat then c else 0.

(** A decoder whose embeddings are zero, whose self-attention has
    [W_v = -I] and whose encoder-decoder attention has identity weights;
    and two encoder outputs. *)
Definition sample_self_weights : AttentionWeights :=
  mkAttentionWeights (scaled_identity 1) (scaled_identity 1)
                     (scaled_identity (-1)).

Definition sample_cross_weights : AttentionWeights :=
  mkAttentionWeights (scaled_identity 1) (scaled_identity 1)
                     (scaled_identity 1).

Definition sample_encoder_output : Tensor :=
  mkTensor 2 2 (fun i j =>
    match i, j with
    | S O, S O => 1
    | _, _ => 0
    end).

(** The projection [x . w^T] computed by a bias-free [nn.Linear] of
    width [d], and the scores that reach the softmax. *)
Definition project (w : nat -> nat -> R) (d : nat) (x : Tensor) : Tensor :=
  mkTensor (rows x) d (fun i j =>
    Rsum d (fun c => val x i c * w j c) + 0).

Definition masked_scores (q k : Tensor) (mask : option BoolTensor) : Tensor :=
  mkTensor (rows q) (rows k) (fun i j =>
    match mask with
    | Some m =>
        if bval m (bidx (brows m) i) (bidx (bcols m) j)
        then minus_1e9
        else scaled_score q k (bidx (rows q) i) (bidx (rows k) j)
    | None => scaled_score q k i j
    end).

(** Weights of a decoder-only model over the five tokens of the notebook
    ([d_model = 2]): the first embedding coordinate is 10 for [<EOS>] and
    -10 for the other tokens, the value projection is zero, and the output
    layer scores [awesome] (3) by that coordinate and [is] (1) by its
    opposite. *)
Definition sample_decoder_only_weights : DecoderOnlyTrans.Weights :=
  DecoderOnlyTrans.mkWeights
    (fun t c => if (c =? 0)%nat then (if (t =? 4)%nat then 10 else -10) else 0)
    (mkAttentionWeights (scaled_identity 1) (scaled_identity 1)
                        (fun _ _ => 0))
    (fun t c => if (c =? 0)%nat
                then (if (t =? 3)%nat then 1
                      else if (t =? 1)%nat then -1 else 0)
                else 0)
    (fun t => if (t =? 1)%nat || (t =? 3)%nat then 0 else -100).

(** The prompt [what is statquest <EOS>]. *)
Definition sample_prompt : list nat := [0; 1; 2; 4]%nat.

(** Weights of an encoder-decoder model, all zero. *)
Definition zero_attention_weights : AttentionWeights :=
  mkAttentionWeights (fun _ _ => 0) (fun _ _ => 0) (fun _ _ => 0).

Definition sample_transformer_weights : Transformer.Weights :=
  Transformer.mkWeights (fun _ _ => 0) zero_attention_weights
    (fun _ _ => 0) zero_attention_weights zero_attention_weights
    (fun _ _ => 0) (fun _ => 0).

(** Weights of an encoder-only model, all zero. *)
Definition sample_encoder_only_weights : EncoderOnlyTrans.Weights :=
  EncoderOnlyTrans.mkWeights (fun _ _ => 0) (fun _ => zero_attention_weights)
    (fun _ _ => 0) (fun _ => 0) (fun _ _ => 0) (fun _ => 0).

(* ================================================================== *)
(** * Vocabularies, labels and losses of the notebooks *)

(** A Python [dict] in insertion order; [None] stands for [KeyError]. *)
Definition dict (K V : Type) : Type := list (K * V).

Fixpoint dict_get {K V : Type} (eqb : K -> K -> bool) (d : dict K V) (k : K)
  : option V :=
  match d with
  | [] => None
  | (k', v) :: rest => if eqb k' k then Some v else dict_get eqb rest k
  end.

(** [d[k] = v]: an existing key keeps its place, a new one goes last. *)
Fixpoint dict_set {K V : Type} (eqb : K -> K -> bool) (d : dict K V)
  (k : K) (v : V) : dict K V :=
  match d with
  | [] => [(k, v)]
  | (k', v') :: rest =>
      if eqb k' k then (k', v) :: rest
      else (k', v') :: dict_set eqb rest k v
  end.

(** [dict(pairs)], also the meaning of a literal [{k1: v1, ...}]. *)
Definition dict_of {K V : Type} (eqb : K -> K -> bool) (pairs : list (K * V))
  : dict K V :=
  fold_left (fun d kv => dict_set eqb d (fst kv) (snd kv)) pairs [].

(** [d.items()] and [reversed] on a pair *)
Definition items {K V : Type} (d : dict K V) : list (K * V) := d.
Definition reversed {K V : Type} (kv : K * V) : V * K := (snd kv, fst kv).

(** [dict(map(reversed, d.items()))] *)
Definition inverse_dict {K V : Type} (eqb : V -> V -> bool) (d : dict K V)
  : dict V K :=
  dict_of eqb (map reversed (items d)).

(** [for id in ids: print(id_to_token[id.item()])]: the words printed. *)
Fixpoint print_tokens (id_to_token : dict nat string) (ids : list nat)
  : option (list string) :=
  match ids with
  | [] => Some []
  | id :: rest =>
      match dict_get Nat.eqb id_to_token id with
      | None => None
      | Some w =>
          match print_tokens id_to_token rest with
          | None => None
          | Some ws => Some (w :: ws)
          end
      end
  end.

(** What [nn.CrossEntropyLoss()] gives: a loss, or one of its exceptions. *)
Inductive loss_outcome : Type :=
| LossValue (l : R)
| ValueError            (* batch sizes of input and target differ *)
| TargetOutOfBounds.    (* IndexError: a target is not a class      *)

(** [-log(softmax(t, dim=1)[i][y])] *)
Definition nll (t : Tensor) (i y : nat) : R := - ln (val (softmax t) i y).

(** [nn.CrossEntropyLoss()(outputs, labels)] for [outputs] of shape [N x C]
    and [N] class indices, with the default mean reduction. *)
Definition CrossEntropyLoss (outputs : Tensor) (labels : list nat)
  : loss_outcome :=
  if negb (rows outputs =? length labels)%nat then ValueError
  else if negb (forallb (fun y => (y <? cols outputs)%nat) labels)
  then TargetOutOfBounds
  else LossValue
         (Rsum (rows outputs) (fun i => nll outputs i (nth i labels O))
          / INR (rows outputs)).

(** The same for one-dimensional [outputs] and a scalar label. *)
Definition CrossEntropyLoss1 (outputs : Vector) (label : nat) : loss_outcome :=
  if negb (label <? len outputs)%nat then TargetOutOfBounds
  else LossValue (nll (mkTensor 1 (len outputs) (fun _ j => elt outputs j))
                      0 label).

(** [t[0]] on the first axis of a batch *)
Definition first_of {A : Type} (batch : list A) : result A :=
  match batch with
  | x :: _ => Ok x
  | [] => Raise IndexError
  end.

Module EncoderOnlyRun.

(** [token_to_id] and [id_to_token] of [EncoderOnlyTrans.ipynb] *)
Definition token_to_id : dict string nat :=
  dict_of String.eqb
    [("Edison"%string, 0%nat); ("is"%string, 1%nat);
     ("handsome"%string, 2%nat); ("but"%string, 3%nat);
     ("very"%string, 4%nat); ("lazy"%string, 5%nat);
     ("Danica"%string, 6%nat); ("loves"%string, 7%nat);
     ("doesn't"%string, 8%nat); ("work"%string, 9%nat);
     ("Bekzod"%string, 10%nat); ("<PAD>"%string, 11%nat)].

Definition id_to_token : dict nat string := inverse_dict Nat.eqb token_to_id.

(** [EncoderOnlyTransformer.training_step]; the batch holds the token rows
    and one label per row. *)
Definition training_step (m : EncoderOnlyTrans.EncoderOnlyTransformer)
  (input_tokens : list (list nat)) (labels : list nat) : result loss_outcome :=
  tokens <- first_of input_tokens ;;
  outputs <- EncoderOnlyTrans.forward m tokens ;;
  label <- first_of labels ;;
  Ok (CrossEntropyLoss1 outputs label).

(** [predicted_label = torch.argmax(model(model_input))] *)
Definition predicted_label (m : EncoderOnlyTrans.EncoderOnlyTransformer)
  (model_input : list nat) : result nat :=
  predictions <- EncoderOnlyTrans.forward m model_input ;;
  argmax predictions.

End EncoderOnlyRun.

Module TransformerRun.

(** [token_to_id_eng], [token_to_id_spa] and [id_to_token_spa] of
    [Transformer.ipynb] *)
Definition token_to_id_eng : dict string nat :=
  dict_of String.eqb
    [("<SOS>"%string, 0%nat); ("let's"%string, 1%nat); ("go"%string, 2%nat);
     ("love"%string, 3%nat); ("you"%string, 4%nat); ("<EOS>"%string, 5%nat)].

Definition token_to_id_spa : dict string nat :=
  dict_of String.eqb
    [("<SOS>"%string, 0%nat); ("ir"%string, 1%nat); ("vamos"%string, 2%nat);
     ("te"%string, 3%nat); ("amo"%string, 4%nat); ("<EOS>"%string, 5%nat)].

Definition id_to_token_spa : dict nat string :=
  inverse_dict Nat.eqb token_to_id_spa.

(** [Transformer.training_step] *)
Definition training_step (m : Transformer.t)
  (input_tokens labels : list (list nat)) : result loss_outcome :=
  tokens <- first_of input_tokens ;;
  outputs <- Transformer.forward m tokens ;;
  labels0 <- first_of labels ;;
  Ok (CrossEntropyLoss outputs labels0).

End TransformerRun.

Module DecoderOnlyRun.

(** [token_to_id] and [id_to_token] of [DecoderOnlyTrans.ipynb] *)
Definition token_to_id : dict string nat :=
  dict_of String.eqb
    [("what"%string, 0%nat); ("is"%string, 1%nat);
     ("statquest"%string, 2%nat); ("awesome"%string, 3%nat);
     ("<EOS>"%string, 4%nat)].

Definition id_to_token : dict nat string := inverse_dict Nat.eqb token_to_id.

(** [DecoderOnlyTransformer.training_step] *)
Definition training_step (m : DecoderOnlyTrans.DecoderOnlyTransformer)
  (input_tokens labels : list (list nat)) : result loss_outcome :=
  tokens <- first_of input_tokens ;;
  outputs <- DecoderOnlyTrans.forward m tokens ;;
  labels0 <- first_of labels ;;
  Ok (CrossEntropyLoss outputs labels0).

End DecoderOnlyRun.

(* ================================================================== *)
(** * Properties *)

(* ================================================================== *)
(** * Basic facts: the error monad, broadcasting, sums *)

Lemma bind_ok {A B : Type} (m : result A) (k : A -> result B) (y : B) :
  bind m k = Ok y -> exists x, m = Ok x /\ k x = Ok y.
Proof.
  destruct m as [x|e]; simpl; intros H; [exists x; auto | discriminate].
Qed.

Lemma Ok_inj {A : Type} (x y : A) : Ok x = Ok y -> x = y.
Proof. intros H. now injection H. Qed.

Lemma broadcast_dim_same (n : nat) : broadcast_dim n n = Ok n.
Proof. unfold broadcast_dim. now rewrite Nat.eqb_refl. Qed.

Lemma broadcast_dim_one_l (n : nat) : broadcast_dim 1 n = Ok n.
Proof.
  unfold broadcast_dim. destruct (Nat.eqb_spec 1 n) as [<-|]; reflexivity.
Qed.

Lemma broadcast_dim_cases (m n : nat) :
  (exists r, broadcast_dim m n = Ok r /\ (m = n \/ m = 1 \/ n = 1)%nat)
  \/ (broadcast_dim m n = Raise RuntimeError /\ m <> n /\ m <> 1%nat /\ n <> 1%nat).
Proof.
  unfold broadcast_dim.
  destruct (Nat.eqb_spec m n); [left; eauto|].
  destruct (Nat.eqb_spec m 1); [left; eauto|].
  destruct (Nat.eqb_spec n 1); [left; eauto|].
  right; auto.
Qed.

Lemma bidx_lt (d i : nat) : (i < d)%nat -> bidx d i = i.
Proof.
  unfold bidx. destruct (Nat.eqb_spec d 1); [lia | reflexivity].
Qed.

Lemma expandable_refl (n : nat) : expandable n n = true.
Proof. unfold expandable. now rewrite Nat.eqb_refl. Qed.

Lemma half_succ_double (h : nat) : ((2 * h + 1) / 2 = h)%nat.
Proof.
  replace (2 * h + 1)%nat with (1 + h * 2)%nat by lia.
  rewrite Nat.div_add by lia. reflexivity.
Qed.

Lemma half_double (h : nat) : ((2 * h) / 2 = h)%nat.
Proof. rewrite Nat.mul_comm. apply Nat.div_mul. lia. Qed.

Lemma mod_double (h : nat) : ((2 * h) mod 2 = 0)%nat.
Proof. rewrite Nat.mul_comm. apply Nat.Div0.mod_mul. Qed.

Lemma mod_succ_double (h : nat) : ((2 * h + 1) mod 2 = 1)%nat.
Proof.
  replace (2 * h + 1)%nat with (1 + h * 2)%nat by lia.
  rewrite Nat.Div0.mod_add. reflexivity.
Qed.

(* ================================================================== *)
(** * PositionEncoding *)

(** The buffer built by [__init__] for an even [d_model]. *)
Lemma PositionEncoding_init_even (h max_len : nat) :
  (1 <= h)%nat ->
  PositionEncoding_init (2 * h) max_len =
  Ok (mkTensor max_len (2 * h) (fun i j =>
        if (1 <=? j)%nat && ((j - 1) mod 2 =? 0)%nat
        then cos (INR (bidx max_len i) /
                  Rpower 10000 (INR (2 * bidx h (bidx h ((j - 1) / 2)))
                                / INR (2 * h)))
        else if (0 <=? j)%nat && ((j - 0) mod 2 =? 0)%nat
        then sin (INR (bidx max_len i) /
                  Rpower 10000 (INR (2 * bidx h (bidx h ((j - 0) / 2)))
                                / INR (2 * h)))
        else 0)).
Proof.
  intros Hh. unfold PositionEncoding_init, div_row, assign_cols.
  cbn [arange_column arange_step2 pow_div zeros tensor_map rows cols len elt val].
  rewrite half_succ_double, broadcast_dim_one_l. cbn [bind rows cols val].
  rewrite expandable_refl.
  assert (E0 : strided_count 0 2 (2 * h) = h).
  { unfold strided_count. destruct (Nat.ltb_spec 0 (2 * h)); [|lia].
    replace (2 * h - 0 + 2 - 1)%nat with (2 * h + 1)%nat by lia.
    apply half_succ_double. }
  assert (E1 : strided_count 1 2 (2 * h) = h).
  { unfold strided_count. destruct (Nat.ltb_spec 1 (2 * h)); [|lia].
    replace (2 * h - 1 + 2 - 1)%nat with (2 * h)%nat by lia.
    apply half_double. }
  rewrite E0, expandable_refl. cbn [andb bind rows cols val].
  rewrite expandable_refl, E1, expandable_refl. cbn [andb bind].
  reflexivity.
Qed.

Lemma PositionEncoding_init_shape (d_model max_len : nat) (pe : Tensor) :
  PositionEncoding_init d_model max_len = Ok pe ->
  rows pe = max_len /\ cols pe = d_model.
Proof.
  unfold PositionEncoding_init. intros H.
  apply bind_ok in H as (arg & _ & H).
  apply bind_ok in H as (p1 & H1 & H).
  apply bind_ok in H as (p2 & H2 & H). injection H as <-.
  unfold assign_cols in H1, H2.
  destruct (_ && _) in H1; [|discriminate]. injection H1 as <-.
  destruct (_ && _) in H2; [|discriminate]. injection H2 as <-.
  split; reflexivity.
Qed.

(** When [PositionEncoding.forward] raises and when it returns. *)
Lemma PositionEncoding_forward_cases (pe x : Tensor) :
  (exists y, PositionEncoding_forward pe x = Ok y
     /\ (rows x <= rows pe \/ rows pe = 1 \/ (rows x = 1 /\ rows pe = 0))%nat
     /\ (cols x = cols pe \/ cols x = 1 \/ cols pe = 1)%nat)
  \/ (PositionEncoding_forward pe x = Raise RuntimeError
     /\ ((rows pe < rows x /\ rows pe <> 1 /\ rows x <> 1)%nat
         \/ (cols x <> cols pe /\ cols x <> 1 /\ cols pe <> 1)%nat)).
Proof.
  unfold PositionEncoding_forward, tensor_add. cbn [slice_rows rows cols].
  destruct (broadcast_dim_cases (rows x) (Nat.min (rows x) (rows pe)))
    as [(r & -> & Hr) | (-> & Hr)]; cbn [bind].
  - destruct (broadcast_dim_cases (cols x) (cols pe))
      as [(c & -> & Hc) | (-> & Hc)]; cbn [bind].
    + left. eexists. split; [reflexivity|]. split; lia.
    + right. split; [reflexivity|]. right. lia.
  - right. split; [reflexivity|]. left. lia.
Qed.

(** The entries of the buffer. *)
Lemma PositionEncoding_table (h max_len : nat) (pe : Tensor) :
  (1 <= h)%nat ->
  PositionEncoding_init (2 * h) max_len = Ok pe ->
  forall pos i, (pos < max_len)%nat -> (i < h)%nat ->
    val pe pos (2 * i)
      = sin (INR pos / Rpower 10000 (INR (2 * i) / INR (2 * h)))
    /\ val pe pos (2 * i + 1)
      = cos (INR pos / Rpower 10000 (INR (2 * i) / INR (2 * h))).
Proof.
  intros Hh H pos i Hpos Hih.
  rewrite (PositionEncoding_init_even h max_len Hh) in H.
  apply Ok_inj in H. subst pe. cbn [val]. rewrite (bidx_lt max_len pos Hpos). split.
  - replace ((1 <=? 2 * i)%nat && ((2 * i - 1) mod 2 =? 0)%nat) with false.
    + rewrite Nat.sub_0_r, mod_double, half_double. cbn [Nat.leb Nat.eqb andb].
      now rewrite !(bidx_lt h i Hih).
    + symmetry. destruct i as [|i]; [reflexivity|].
      replace (2 * S i - 1)%nat with (2 * i + 1)%nat by lia.
      rewrite mod_succ_double. apply andb_false_r.
  - replace (2 * i + 1 - 1)%nat with (2 * i)%nat by lia.
    rewrite mod_double, half_double.
    replace (1 <=? 2 * i + 1)%nat with true
      by (symmetry; apply Nat.leb_le; lia).
    cbn [Nat.eqb andb]. now rewrite !(bidx_lt h i Hih).
Qed.

(** Row 0 of the buffer starts with [sin 0] and [cos 0]. *)
Lemma PositionEncoding_row0 (h max_len : nat) (pe : Tensor) :
  (1 <= h)%nat -> (1 <= max_len)%nat ->
  PositionEncoding_init (2 * h) max_len = Ok pe ->
  val pe 0 0 = 0 /\ val pe 0 1 = 1.
Proof.
  intros Hh Hm H.
  destruct (PositionEncoding_table h max_len pe Hh H 0%nat 0%nat) as [E0 E1];
    [lia | lia |].
  change (2 * 0)%nat with 0%nat in E0, E1. change (0 + 1)%nat with 1%nat in E1.
  rewrite E0, E1. change (INR 0) with 0. unfold Rdiv at 1 3.
  rewrite !Rmult_0_l. split; [apply sin_0 | apply cos_0].
Qed.

(** C6.  For every even [d_model >= 2] and [max_len >= 1] the constructor
    builds a [max_len x d_model] table with
    [table[pos][2i] = sin (pos / 10000^(2i/d_model))] and
    [table[pos][2i+1] = cos (pos / 10000^(2i/d_model))], and [forward] on
    [L <= max_len] embeddings of width [d_model] returns
    [embeddings + table[0:L]] entry by entry: an [L x d_model] tensor whose
    entry [(i, j)] is [embeddings[i][j] + table[i][j]]. *)
Theorem positional_table_and_apply (d_model max_len : nat) :
  Nat.Even d_model -> (2 <= d_model)%nat -> (1 <= max_len)%nat ->
  exists pe,
    PositionEncoding_init d_model max_len = Ok pe
    /\ rows pe = max_len /\ cols pe = d_model
    /\ (forall pos i, (pos < max_len)%nat -> (2 * i < d_model)%nat ->
          val pe pos (2 * i)
            = sin (INR pos / Rpower 10000 (INR (2 * i) / INR d_model))
          /\ val pe pos (2 * i + 1)
            = cos (INR pos / Rpower 10000 (INR (2 * i) / INR d_model)))
    /\ (forall embeddings,
          cols embeddings = d_model -> (rows embeddings <= max_len)%nat ->
          exists out,
            PositionEncoding_forward pe embeddings = Ok out
            /\ rows out = rows embeddings /\ cols out = d_model
            /\ forall i j, (i < rows embeddings)%nat -> (j < d_model)%nat ->
                 val out i j = val embeddings i j + val pe i j).
Proof.
  intros [h ->] Hd Hm.
  assert (Hh : (1 <= h)%nat) by lia.
  pose proof (PositionEncoding_init_even h max_len Hh) as Hinit.
  eexists. split; [exact Hinit|].
  cbn [rows cols]. split; [reflexivity|]. split; [reflexivity|]. split.
  - intros pos i Hpos Hi.
    apply (PositionEncoding_table h max_len _ Hh Hinit); lia.
  - intros x Hc Hr.
    unfold PositionEncoding_forward, tensor_add. cbn [slice_rows rows cols val].
    rewrite (Nat.min_l _ _ Hr), broadcast_dim_same, Hc, broadcast_dim_same.
    cbn [bind]. eexists. split; [reflexivity|]. cbn [rows cols val].
    split; [reflexivity|]. split; [reflexivity|].
    intros i j Hi Hj. now rewrite !(bidx_lt _ i Hi), !(bidx_lt _ j Hj).
Qed.

Lemma positional_table_and_apply_witness :
  Nat.Even 2 /\ (2 <= 2)%nat /\ (1 <= 6)%nat /\
  exists pe,
    PositionEncoding_init 2 6 = Ok pe
    /\ rows pe = 6%nat /\ cols pe = 2%nat
    /\ (forall pos i, (pos < 6)%nat -> (2 * i < 2)%nat ->
          val pe pos (2 * i)
            = sin (INR pos / Rpower 10000 (INR (2 * i) / INR 2))
          /\ val pe pos (2 * i + 1)
            = cos (INR pos / Rpower 10000 (INR (2 * i) / INR 2)))
    /\ (forall embeddings,
          cols embeddings = 2%nat -> (rows embeddings <= 6)%nat ->
          exists out,
            PositionEncoding_forward pe embeddings = Ok out
            /\ rows out = rows embeddings /\ cols out = 2%nat
            /\ forall i j, (i < rows embeddings)%nat -> (j < 2)%nat ->
                 val out i j = val embeddings i j + val pe i j).
Proof.
  assert (E : Nat.Even 2) by (exists 1%nat; reflexivity).
  split; [exact E|]. split; [lia|]. split; [lia|].
  apply (positional_table_and_apply 2 6); [exact E | lia | lia].
Defined.

(** C3 as stated fails: with [d_model = 2] and [max_len = 6], two
    embeddings of width 1 are accepted -- the addition broadcasts. *)
Lemma position_encoding_accepts_width_one :
  exists pe,
    PositionEncoding_init 2 6 = Ok pe
    /\ cols narrow_embeddings <> 2%nat
    /\ exists out,
         PositionEncoding_forward pe narrow_embeddings = Ok out
         /\ rows out = 2%nat /\ cols out = 2%nat.
Proof.
  eexists. split; [apply (PositionEncoding_init_even 1 6); lia|].
  split; [cbn; lia|].
  eexists. split; [reflexivity|]. split; reflexivity.
Qed.

(** C3, amended.  For a table built with [d_model >= 2] (hence even) and
    [max_len >= 1],
    [PositionEncoding.forward] on an [L x w] input raises (a [RuntimeError]
    of the addition) exactly when [L > max_len] with [max_len <> 1], or
    [w <> d_model] with [w <> 1]; on every other input, in particular on
    every [L <= max_len] and [w = d_model], it returns. *)
Theorem position_encoding_shape_errors (d_model max_len : nat) (pe x : Tensor) :
  (2 <= d_model)%nat -> (1 <= max_len)%nat ->
  PositionEncoding_init d_model max_len = Ok pe ->
  (PositionEncoding_forward pe x = Raise RuntimeError
   <-> ((max_len < rows x)%nat /\ max_len <> 1%nat)
       \/ (cols x <> d_model /\ cols x <> 1%nat))
  /\ (is_ok (PositionEncoding_forward pe x)
      <-> ((rows x <= max_len)%nat \/ max_len = 1%nat)
          /\ (cols x = d_model \/ cols x = 1%nat))
  /\ ((rows x <= max_len)%nat -> cols x = d_model ->
      is_ok (PositionEncoding_forward pe x)).
Proof.
  intros Hd Hm Hinit.
  destruct (PositionEncoding_init_shape _ _ _ Hinit) as [Hr Hc].
  assert (Hiff : is_ok (PositionEncoding_forward pe x)
      <-> ((rows x <= max_len)%nat \/ max_len = 1%nat)
          /\ (cols x = d_model \/ cols x = 1%nat)).
  { destruct (PositionEncoding_forward_cases pe x)
      as [(y & E & H1 & H2) | (E & H)]; rewrite E, ?Hr, ?Hc in *.
    - split; [intros _; lia | intros _; now exists y].
    - split; [intros [y Hy]; discriminate | lia]. }
  split; [|split].
  - destruct (PositionEncoding_forward_cases pe x)
      as [(y & E & H1 & H2) | (E & H)]; rewrite E, ?Hr, ?Hc in *.
    + split; [discriminate | lia].
    + split; [lia | reflexivity].
  - exact Hiff.
  - intros HL Hw. apply Hiff. lia.
Qed.

Lemma position_encoding_shape_errors_witness :
  exists pe,
    PositionEncoding_init 2 6 = Ok pe
    /\ is_ok (PositionEncoding_forward pe (mkTensor 3 2 (fun _ _ => 1))).
Proof.
  eexists. split; [apply (PositionEncoding_init_even 1 6); lia|].
  refine (proj2 (proj2 (position_encoding_shape_errors 2 6 _
            (mkTensor 3 2 (fun _ _ => 1)) _ _ _)) _ _).
  - lia.
  - lia.
  - apply (PositionEncoding_init_even 1 6); lia.
  - cbn; lia.
  - reflexivity.
Defined.

(* ================================================================== *)
(** * Sums and softmax *)

Lemma Rsum_ext (n : nat) (f g : nat -> R) :
  (forall k, (k < n)%nat -> f k = g k) -> Rsum n f = Rsum n g.
Proof.
  induction n as [|n IH]; intros H; [reflexivity|].
  simpl. rewrite IH by (intros; apply H; lia). now rewrite H by lia.
Qed.

Lemma Rsum_nonneg (n : nat) (f : nat -> R) :
  (forall k, (k < n)%nat -> 0 <= f k) -> 0 <= Rsum n f.
Proof.
  induction n as [|n IH]; intros H; simpl; [lra|].
  assert (0 <= Rsum n f) by (apply IH; intros; apply H; lia).
  assert (0 <= f n) by (apply H; lia). lra.
Qed.

Lemma Rsum_ge_term (n : nat) (f : nat -> R) (j : nat) :
  (forall k, (k < n)%nat -> 0 <= f k) -> (j < n)%nat -> f j <= Rsum n f.
Proof.
  induction n as [|n IH]; intros H Hj; [lia|]. simpl.
  assert (0 <= f n) by (apply H; lia).
  assert (0 <= Rsum n f) by (apply Rsum_nonneg; intros; apply H; lia).
  destruct (Nat.eq_dec j n) as [->|Hne]; [lra|].
  assert (f j <= Rsum n f) by (apply IH; [intros; apply H|]; lia). lra.
Qed.

Lemma Rsum_pos (n : nat) (f : nat -> R) :
  (forall k, (k < n)%nat -> 0 < f k) -> (1 <= n)%nat -> 0 < Rsum n f.
Proof.
  intros H Hn.
  assert (f 0%nat <= Rsum n f).
  { apply Rsum_ge_term; [|lia]. intros k Hk. left. now apply H. }
  assert (0 < f 0%nat) by (apply H; lia). lra.
Qed.

Lemma Rsum_div (n : nat) (f : nat -> R) (c : R) :
  Rsum n (fun k => f k / c) = Rsum n f / c.
Proof.
  induction n as [|n IH]; simpl; [unfold Rdiv; ring|].
  rewrite IH. unfold Rdiv. ring.
Qed.

Lemma Rsum_zero (n : nat) (f : nat -> R) :
  (forall k, (k < n)%nat -> f k = 0) -> Rsum n f = 0.
Proof.
  induction n as [|n IH]; intros H; simpl; [reflexivity|].
  rewrite IH by (intros; apply H; lia). rewrite H by lia. ring.
Qed.

Lemma exp_sum_pos (n : nat) (x : nat -> R) :
  (1 <= n)%nat -> 0 < Rsum n (fun k => exp (x k)).
Proof. intros Hn. apply Rsum_pos; [intros; apply exp_pos | exact Hn]. Qed.

(** Entries of a softmax are positive. *)
Lemma softmax_pos (t : Tensor) (i j : nat) :
  (j < cols t)%nat -> 0 < val (softmax t) i j.
Proof.
  intros Hj. cbn [softmax val].
  apply Rdiv_lt_0_compat; [apply exp_pos|].
  apply (exp_sum_pos (cols t) (val t i)). lia.
Qed.

(** A softmax row over at least one column sums to 1. *)
Lemma softmax_row_sum (t : Tensor) (i : nat) :
  (1 <= cols t)%nat -> Rsum (cols (softmax t)) (val (softmax t) i) = 1.
Proof.
  intros Hc. cbn [softmax val cols].
  rewrite (Rsum_div (cols t) (fun k => exp (val t i k))).
  apply Rdiv_diag. apply Rgt_not_eq. now apply exp_sum_pos.
Qed.

(* ================================================================== *)
(** * Attention *)

Lemma causal_mask_spec (n i j : nat) :
  bval (causal_mask n) i j = true <-> (i < j)%nat.
Proof.
  cbn [causal_mask eq_zero tril ones bval val rows cols].
  destruct (Nat.leb_spec j i) as [H|H].
  - destruct (Req_dec_T 1 0) as [E|_]; [lra|]. split; [discriminate | lia].
  - destruct (Req_dec_T 0 0) as [_|E]; [|lra]. split; [lia | reflexivity].
Qed.

Lemma causal_mask_shape (n : nat) :
  brows (causal_mask n) = n /\ bcols (causal_mask n) = n.
Proof. split; reflexivity. Qed.

Lemma Linear_forward_ok (l : Linear) (x : Tensor) :
  cols x = in_features l ->
  Linear_forward l x =
  Ok (mkTensor (rows x) (out_features l) (fun i j =>
        Rsum (in_features l) (fun k => val x i k * weight l j k) + bias_at l j)).
Proof. intros H. unfold Linear_forward. now rewrite H, Nat.eqb_refl. Qed.

Lemma Linear_forward_shape (l : Linear) (x y : Tensor) :
  Linear_forward l x = Ok y ->
  cols x = in_features l /\ rows y = rows x /\ cols y = out_features l.
Proof.
  unfold Linear_forward. destruct (Nat.eqb_spec (cols x) (in_features l));
    [|discriminate].
  intros H. injection H as <-. auto.
Qed.

Lemma matmul_ok (a b : Tensor) :
  cols a = rows b ->
  matmul a b =
  Ok (mkTensor (rows a) (cols b) (fun i j =>
        Rsum (cols a) (fun k => val a i k * val b k j))).
Proof. intros H. unfold matmul. now rewrite H, Nat.eqb_refl. Qed.

Lemma matmul_shape (a b c : Tensor) :
  matmul a b = Ok c ->
  cols a = rows b /\ rows c = rows a /\ cols c = cols b
  /\ forall i j, val c i j = Rsum (cols a) (fun k => val a i k * val b k j).
Proof.
  unfold matmul. destruct (Nat.eqb_spec (cols a) (rows b)); [|discriminate].
  intros H. injection H as <-. auto.
Qed.

(** When [masked_fill] returns, tensor and mask broadcast against each
    other and the result has the broadcast shape. *)
Lemma masked_fill_inv (t : Tensor) (m : BoolTensor) (v : R) (t' : Tensor) :
  masked_fill t m v = Ok t' ->
  broadcast_dim (rows t) (brows m) = Ok (rows t')
  /\ broadcast_dim (cols t) (bcols m) = Ok (cols t')
  /\ forall i j,
       val t' i j
       = if bval m (bidx (brows m) i) (bidx (bcols m) j) then v
         else val t (bidx (rows t) i) (bidx (cols t) j).
Proof.
  unfold masked_fill. intros H.
  apply bind_ok in H as (r & Hr & H). apply bind_ok in H as (c & Hc & H).
  apply Ok_inj in H. subst t'. cbn [rows cols val]. auto.
Qed.

Lemma broadcast_dim_expandable (s t : nat) :
  expandable s t = true -> broadcast_dim t s = Ok t.
Proof.
  unfold expandable, broadcast_dim. intros H.
  destruct (Nat.eqb_spec t s) as [E|E]; [reflexivity|].
  destruct (Nat.eqb_spec s t) as [E'|_]; [congruence|].
  cbn [orb] in H. apply Nat.eqb_eq in H. subst s.
  destruct (Nat.eqb_spec t 1); [congruence | reflexivity].
Qed.

(** A mask that expands to the tensor leaves its shape alone. *)
Lemma masked_fill_fits (t : Tensor) (m : BoolTensor) (v : R) :
  expandable (brows m) (rows t) && expandable (bcols m) (cols t) = true ->
  masked_fill t m v
  = Ok (mkTensor (rows t) (cols t) (fun i j =>
          if bval m (bidx (brows m) i) (bidx (bcols m) j) then v
          else val t (bidx (rows t) i) (bidx (cols t) j))).
Proof.
  intros H. apply andb_true_iff in H as [Hr Hc]. unfold masked_fill.
  rewrite (broadcast_dim_expandable _ _ Hr), (broadcast_dim_expandable _ _ Hc).
  reflexivity.
Qed.

(** [attention_percents] is a softmax of the scaled scores, filled where
    the mask is true; with a mask, scores and mask are broadcast against
    each other. *)
Lemma Attention_percents_softmax (q k : Tensor) (mask : option BoolTensor)
  (P : Tensor) :
  Attention_percents q k mask = Ok P ->
  exists scores, P = softmax scores /\ cols q = cols k
    /\ match mask with
       | None =>
           rows scores = rows q /\ cols scores = rows k
           /\ forall i j, val scores i j = scaled_score q k i j
       | Some m =>
           broadcast_dim (rows q) (brows m) = Ok (rows scores)
           /\ broadcast_dim (rows k) (bcols m) = Ok (cols scores)
           /\ forall i j,
                val scores i j
                = if bval m (bidx (brows m) i) (bidx (bcols m) j)
                  then minus_1e9
                  else scaled_score q k (bidx (rows q) i) (bidx (rows k) j)
       end.
Proof.
  unfold Attention_percents. intros H.
  apply bind_ok in H as (sims & Hs & H).
  apply bind_ok in H as (sc & Hm & H). apply Ok_inj in H. subst P.
  unfold matmul in Hs. cbn [transpose rows cols val] in Hs.
  destruct (Nat.eqb_spec (cols q) (cols k)) as [Hc|]; [|discriminate].
  apply Ok_inj in Hs. subst sims.
  exists sc. split; [reflexivity|]. split; [exact Hc|].
  destruct mask as [m|].
  - cbn [to_device bind] in Hm.
    apply masked_fill_inv in Hm as (Hr & Hcc & Hval).
    cbn [div_scalar rows cols val] in Hr, Hcc, Hval.
    split; [exact Hr|]. split; [exact Hcc|]. exact Hval.
  - apply Ok_inj in Hm. subst sc. cbn [div_scalar rows cols val].
    split; [reflexivity|]. split; reflexivity.
Qed.

(** What [Attention.forward] returns, in terms of [attention_percents]. *)
Lemma Attention_forward_inv (a : Attention) (eq ek ev : Tensor)
  (mask : option BoolTensor) (out : Tensor) :
  Attention_forward a eq ek ev mask = Ok out ->
  exists q k v P,
    Linear_forward (W_q a) eq = Ok q /\ Linear_forward (W_k a) ek = Ok k
    /\ Linear_forward (W_v a) ev = Ok v
    /\ Attention_percents q k mask = Ok P
    /\ matmul P v = Ok out.
Proof.
  unfold Attention_forward. intros H.
  apply bind_ok in H as (q & Hq & H).
  apply bind_ok in H as (k & Hk & H).
  apply bind_ok in H as (v & Hv & H).
  apply bind_ok in H as (P & HP & H).
  exists q, k, v, P. auto.
Qed.

(** Whatever the weights, the inputs and the mask (or its absence), when
    there is at least one value row and [Attention.forward] returns, each
    output row is a convex combination of the projected value rows: the
    post-softmax weights of every row are positive and sum to 1.  The
    weights have one column per value row, and one row per query unless the
    mask broadcasts them. *)
Lemma Attention_forward_convex (a : Attention) (eq ek ev : Tensor)
  (mask : option BoolTensor) (out : Tensor) :
  Attention_forward a eq ek ev mask = Ok out ->
  (1 <= rows ev)%nat ->
  exists q k v P,
    Linear_forward (W_q a) eq = Ok q /\ Linear_forward (W_k a) ek = Ok k
    /\ Linear_forward (W_v a) ev = Ok v
    /\ Attention_percents q k mask = Ok P
    /\ rows v = rows ev /\ cols P = rows ev
    /\ rows out = rows P /\ cols out = cols v
    /\ match mask with
       | None => rows P = rows eq /\ rows ek = rows ev
       | Some m => broadcast_dim (rows eq) (brows m) = Ok (rows P)
                   /\ broadcast_dim (rows ek) (bcols m) = Ok (rows ev)
       end
    /\ (forall i j, (j < rows ev)%nat -> 0 < val P i j)
    /\ (forall i, Rsum (rows ev) (val P i) = 1)
    /\ (forall i c,
          val out i c = Rsum (rows ev) (fun j => val P i j * val v j c)).
Proof.
  intros H Hv1.
  apply Attention_forward_inv in H as (q & k & v & P & Hq & Hk & Hv & HP & Hm).
  exists q, k, v, P. repeat (split; [assumption|]).
  destruct (Attention_percents_softmax _ _ _ _ HP) as (sc & -> & _ & Hsh).
  apply Linear_forward_shape in Hq as (_ & Hqr & _).
  apply Linear_forward_shape in Hk as (_ & Hkr & _).
  apply Linear_forward_shape in Hv as (_ & Hvr & _).
  apply matmul_shape in Hm as (Hpv & Hor & Hoc & Hval).
  cbn [softmax rows cols] in Hpv, Hor |- *.
  assert (Hcs : cols sc = rows ev) by congruence.
  split; [exact Hvr|]. split; [exact Hcs|]. split; [exact Hor|].
  split; [exact Hoc|]. split; [|split; [|split]].
  - destruct mask as [m|].
    + destruct Hsh as (Hr & Hc & _). rewrite Hqr, Hkr, Hcs in *. auto.
    + destruct Hsh as (Hr & Hc & _). split; congruence.
  - intros i j Hj. apply softmax_pos. lia.
  - intros i. rewrite <- Hcs. apply (softmax_row_sum sc i). lia.
  - intros i c. rewrite Hval. cbn [softmax cols]. now rewrite Hcs.
Qed.

Lemma Attention_percents_explicit (q k : Tensor) (mask : option BoolTensor) :
  cols q = cols k -> mask_fits mask (rows q) (rows k) ->
  Attention_percents q k mask = Ok (softmax (masked_scores q k mask)).
Proof.
  intros Hc Hm. unfold Attention_percents.
  rewrite matmul_ok by (cbn; exact Hc). cbn [bind].
  destruct mask as [m|]; cbn [to_device bind].
  - rewrite masked_fill_fits by (cbn [div_scalar rows cols transpose]; exact Hm).
    reflexivity.
  - reflexivity.
Qed.

(** [Attention.forward] on inputs of the head's width, entry by entry. *)
Lemma Attention_forward_explicit (d_model : nat) (w : AttentionWeights)
  (eq ek ev : Tensor) (mask : option BoolTensor) :
  cols eq = d_model -> cols ek = d_model -> cols ev = d_model ->
  rows ek = rows ev -> mask_fits mask (rows eq) (rows ek) ->
  Attention_forward (Attention_of d_model w) eq ek ev mask
  = Ok (mkTensor (rows eq) d_model (fun i c =>
          Rsum (rows ek) (fun j =>
            val (softmax (masked_scores (project (wq w) d_model eq)
                                        (project (wk w) d_model ek) mask)) i j
            * val (project (wv w) d_model ev) j c))).
Proof.
  intros Hq Hk Hv Hkv Hm.
  unfold Attention_forward, Attention_of, Attention_init.
  cbn [W_q W_k W_v].
  rewrite !Linear_forward_ok by (cbn; assumption). cbn [bind].
  cbn [in_features out_features weight bias_at bias].
  fold (project (wq w) d_model eq). fold (project (wk w) d_model ek).
  fold (project (wv w) d_model ev).
  rewrite Attention_percents_explicit by (cbn; auto). cbn [bind].
  rewrite matmul_ok by (cbn; exact Hkv). reflexivity.
Qed.

(** [Attention.forward] returns on inputs of the head's width with as many
    keys as values and a mask that fits. *)
Lemma Attention_forward_ok (d_model : nat) (w : AttentionWeights)
  (eq ek ev : Tensor) (mask : option BoolTensor) :
  cols eq = d_model -> cols ek = d_model -> cols ev = d_model ->
  rows ek = rows ev -> mask_fits mask (rows eq) (rows ek) ->
  exists out,
    Attention_forward (Attention_of d_model w) eq ek ev mask = Ok out
    /\ rows out = rows eq /\ cols out = d_model.
Proof.
  intros Hq Hk Hv Hkv Hm.
  rewrite Attention_forward_explicit by assumption.
  eexists. split; [reflexivity|]. split; reflexivity.
Qed.




(* ================================================================== *)
(** * Attention in [DecoderOnlyTrans.ipynb] *)

Lemma DecoderOnly_percents_masked (q k : Tensor) (m : BoolTensor) :
  cols q = cols k ->
  expandable (brows m) (rows q) && expandable (bcols m) (rows k) = true ->
  DecoderOnlyTrans.Attention_percents q k (Some m)
  = Ok (softmax (mkTensor (rows q) (rows k) (fun i j =>
          if bval m (bidx (brows m) i) (bidx (bcols m) j)
          then minus_1e9
          else scaled_score q k (bidx (rows q) i) (bidx (rows k) j)))).
Proof.
  intros Hc Hm. unfold DecoderOnlyTrans.Attention_percents.
  rewrite matmul_ok by (cbn; exact Hc).
  cbn [bind to_device].
  rewrite masked_fill_fits by (cbn [div_scalar rows cols transpose]; exact Hm).
  reflexivity.
Qed.

Lemma DecoderOnly_percents_no_mask (q k : Tensor) :
  fails (DecoderOnlyTrans.Attention_percents q k None)
  /\ (cols q = cols k ->
      DecoderOnlyTrans.Attention_percents q k None = Raise AttributeError).
Proof.
  unfold DecoderOnlyTrans.Attention_percents, matmul. cbn [transpose rows cols].
  destruct (Nat.eqb_spec (cols q) (cols k)) as [E|E]; cbn [bind to_device].
  - split; [eexists; reflexivity | reflexivity].
  - split; [eexists; reflexivity | intros; contradiction].
Qed.

(** C5.  In the decoder-only notebook [Attention.forward] with no mask
    always raises: on inputs of the head's width the exception is the
    [AttributeError] of [mask.to(device)], evaluated before the test
    [mask is not None]; the head of the other notebooks returns on the
    same call, skipping the fill. *)
Theorem decoder_only_attention_rejects_no_mask (a : Attention)
  (eq ek ev : Tensor) :
  fails (DecoderOnlyTrans.Attention_forward a eq ek ev None)
  /\ (cols eq = in_features (W_q a) -> cols ek = in_features (W_k a) ->
      cols ev = in_features (W_v a) ->
      out_features (W_q a) = out_features (W_k a) -> rows ek = rows ev ->
      DecoderOnlyTrans.Attention_forward a eq ek ev None = Raise AttributeError
      /\ is_ok (Attention_forward a eq ek ev None)).
Proof.
  unfold DecoderOnlyTrans.Attention_forward, Attention_forward. split.
  - destruct (Linear_forward (W_q a) eq) as [q|e]; [|eexists; reflexivity].
    destruct (Linear_forward (W_k a) ek) as [k|e]; [|eexists; reflexivity].
    destruct (Linear_forward (W_v a) ev) as [v|e]; [|eexists; reflexivity].
    cbn [bind]. destruct (DecoderOnly_percents_no_mask q k) as [[e ->] _].
    eexists; reflexivity.
  - intros Hq Hk Hv Hqk Hkv.
    rewrite !Linear_forward_ok by assumption. cbn [bind]. split.
    + destruct (DecoderOnly_percents_no_mask
                  (mkTensor (rows eq) (out_features (W_q a)) (fun i j =>
                     Rsum (in_features (W_q a))
                       (fun k => val eq i k * weight (W_q a) j k)
                     + bias_at (W_q a) j))
                  (mkTensor (rows ek) (out_features (W_k a)) (fun i j =>
                     Rsum (in_features (W_k a))
                       (fun k => val ek i k * weight (W_k a) j k)
                     + bias_at (W_k a) j))) as [_ ->];
        [reflexivity | exact Hqk].
    + unfold Attention_percents. rewrite matmul_ok by (cbn; exact Hqk).
      cbn [bind]. rewrite matmul_ok by (cbn; exact Hkv).
      eexists; reflexivity.
Qed.

Lemma decoder_only_attention_rejects_no_mask_witness :
  DecoderOnlyTrans.Attention_forward unit_attention one_embedding
    one_embedding one_embedding None = Raise AttributeError
  /\ is_ok (Attention_forward unit_attention one_embedding one_embedding
              one_embedding None).
Proof.
  apply (proj2 (decoder_only_attention_rejects_no_mask unit_attention
                  one_embedding one_embedding one_embedding));
    reflexivity.
Defined.

Lemma causal_mask_ltb (n i j : nat) :
  bval (causal_mask n) i j = (i <? j)%nat.
Proof.
  destruct (Nat.ltb_spec i j) as [H|H].
  - now apply causal_mask_spec.
  - destruct (bval (causal_mask n) i j) eqn:E; [|reflexivity].
    apply causal_mask_spec in E. lia.
Qed.

(** The attention weights under the causal mask of the sequence length. *)
Lemma DecoderOnly_percents_causal (q k : Tensor) (L : nat) :
  rows q = L -> rows k = L -> cols q = cols k ->
  exists P,
    DecoderOnlyTrans.Attention_percents q k (Some (causal_mask L)) = Ok P
    /\ rows P = L /\ cols P = L
    /\ forall i j, (i < L)%nat -> (j < L)%nat ->
         val P i j
         = exp (if (i <? j)%nat then minus_1e9 else scaled_score q k i j)
           / Rsum L (fun c =>
               exp (if (i <? c)%nat then minus_1e9 else scaled_score q k i c)).
Proof.
  intros Hq Hk Hc.
  rewrite DecoderOnly_percents_masked; [|exact Hc|].
  - eexists. split; [reflexivity|]. cbn [softmax rows cols val].
    split; [exact Hq|]. split; [exact Hk|].
    intros i j Hi Hj.
    destruct (causal_mask_shape L) as [-> ->].
    rewrite Hq, Hk.
    rewrite !(bidx_lt L i Hi), !(bidx_lt L j Hj), causal_mask_ltb.
    f_equal. apply Rsum_ext. intros c Hcl.
    now rewrite !(bidx_lt L c Hcl), causal_mask_ltb.
  - destruct (causal_mask_shape L) as [-> ->].
    now rewrite Hq, Hk, expandable_refl.
Qed.

Lemma half_le_ratio (a b : R) : 0 < a -> a <= b -> 1 / 2 <= b / (a + b).
Proof.
  intros Ha Hab. apply (Rmult_le_reg_r (a + b)); [lra|].
  replace (b / (a + b) * (a + b)) with b by (field; lra). lra.
Qed.

Lemma sqrt_2_bounds : 0 < sqrt 2 <= 2.
Proof.
  split; [apply sqrt_lt_R0; lra|].
  replace 2 with (sqrt (2 * 2)) at 2 by (apply sqrt_square; lra).
  apply sqrt_le_1_alt. lra.
Qed.

(** C2 as stated fails: when the score of a position on itself is below
    the fill value [-1e9], at least half of its attention goes to the
    masked later position, and its output row carries that position's
    value. *)
Lemma causal_mask_weight_on_later_position :
  exists q k P out,
    Linear_forward (W_q steep_attention) steep_embeddings = Ok q
    /\ Linear_forward (W_k steep_attention) steep_embeddings = Ok k
    /\ DecoderOnlyTrans.Attention_percents q k (Some (causal_mask 2)) = Ok P
    /\ DecoderOnlyTrans.Attention_forward steep_attention steep_embeddings
         steep_embeddings steep_embeddings (Some (causal_mask 2)) = Ok out
    /\ 1 / 2 <= val P 0 1
    /\ val out 0 1 = val P 0 1.
Proof.
  pose proof (Linear_forward_ok (W_q steep_attention) steep_embeddings eq_refl)
    as Hq.
  pose proof (Linear_forward_ok (W_k steep_attention) steep_embeddings eq_refl)
    as Hk.
  pose proof (Linear_forward_ok (W_v steep_attention) steep_embeddings eq_refl)
    as Hv.
  match type of Hq with _ = Ok ?t => set (q := t) in * end.
  match type of Hk with _ = Ok ?t => set (k := t) in * end.
  match type of Hv with _ = Ok ?t => set (v := t) in * end.
  destruct (DecoderOnly_percents_causal q k 2 eq_refl eq_refl eq_refl)
    as (P & HP & Hr & Hc & Hval).
  assert (Hm : cols P = rows v) by (rewrite Hc; reflexivity).
  exists q, k, P. eexists.
  split; [exact Hq|]. split; [exact Hk|]. split; [exact HP|]. split.
  { unfold DecoderOnlyTrans.Attention_forward. rewrite Hq, Hk, Hv.
    cbn [bind]. rewrite HP. cbn [bind]. apply (matmul_ok P v Hm). }
  split.
  - rewrite Hval by lia. cbn [Nat.ltb Nat.leb Rsum].
    rewrite Rplus_0_l. apply half_le_ratio; [apply exp_pos|].
    left. apply exp_increasing.
    unfold scaled_score, minus_1e9, q, k.
    cbn [cols rows val Rsum steep_embeddings steep_attention Attention_init
         W_q W_k weight Nat.eqb in_features out_features bias_at bias].
    replace (INR 2) with 2 by (simpl; lra).
    destruct sqrt_2_bounds as [Hs0 Hs2].
    apply (Rmult_lt_reg_r (sqrt 2)); [exact Hs0|].
    match goal with |- ?x / sqrt 2 * sqrt 2 < _ =>
      replace (x / sqrt 2 * sqrt 2) with x by (field; lra) end.
    nra.
  - cbn [val]. rewrite Hc. cbn [Rsum]. unfold v.
    cbn [val Rsum steep_embeddings steep_attention Attention_init
         W_v weight Nat.eqb in_features bias_at bias].
    ring.
Qed.

Lemma Rsum_sub (n : nat) (f g : nat -> R) :
  Rsum n f - Rsum n g = Rsum n (fun j => f j - g j).
Proof. induction n as [|n IH]; cbn [Rsum]; [ring|]. rewrite <- IH. ring. Qed.

Lemma Rsum_scal (c : R) (n : nat) (f : nat -> R) :
  Rsum n (fun j => c * f j) = c * Rsum n f.
Proof. induction n as [|n IH]; cbn [Rsum]; [ring|]. rewrite IH. ring. Qed.

Lemma Rsum_Rabs_le (n : nat) (f g : nat -> R) :
  (forall j, (j < n)%nat -> Rabs (f j) <= g j) ->
  Rabs (Rsum n f) <= Rsum n g.
Proof.
  induction n as [|n IH]; intros H; cbn [Rsum].
  - rewrite Rabs_R0. lra.
  - pose proof (Rabs_triang (Rsum n f) (f n)) as Ht.
    assert (Rabs (Rsum n f) <= Rsum n g) by (apply IH; intros; apply H; lia).
    assert (Rabs (f n) <= g n) by (apply H; lia). lra.
Qed.

(** A linear layer works row by row. *)
Lemma Linear_forward_row (l : Linear) (x x' y y' : Tensor) (i : nat) :
  Linear_forward l x = Ok y -> Linear_forward l x' = Ok y' ->
  (forall n, val x' i n = val x i n) ->
  forall n, val y' i n = val y i n.
Proof.
  unfold Linear_forward. intros H H' Hrow n.
  destruct (cols x =? in_features l)%nat; [|discriminate].
  destruct (cols x' =? in_features l)%nat; [|discriminate].
  apply Ok_inj in H. apply Ok_inj in H'. subst y y'. cbn [val].
  f_equal. apply Rsum_ext. intros c _. now rewrite Hrow.
Qed.

(** C2, amended.  In the masked self-attention of the decoder-only
    notebook, under the [L x L] causal mask (entry [(i,j)] true iff
    [j > i]), the score of every position [i] on every later position [j]
    is replaced by [-1e9] before the softmax, not by minus infinity.  The
    weight of [i] on [j] is [exp(-1e9)] over the row's sum, at most
    [exp(-1e9 - s_ii)] with [s_ii] the scaled score of [i] on itself: it
    vanishes only as far as [s_ii] stays above [-1e9].  Row [i] of the
    weights does not depend on the inputs at later positions, and row [i]
    of the output, the weighted sum of the value rows, moves by at most
    [exp(-1e9 - s_ii)] times the total change of the later value rows when
    the inputs after position [i] change. *)
Theorem causal_mask_suppression (a : Attention) (eq ek ev q k v : Tensor)
  (L : nat) :
  rows eq = L -> rows ek = L -> rows ev = L ->
  Linear_forward (W_q a) eq = Ok q -> Linear_forward (W_k a) ek = Ok k ->
  Linear_forward (W_v a) ev = Ok v -> cols q = cols k ->
  exists P out,
    DecoderOnlyTrans.Attention_percents q k (Some (causal_mask L)) = Ok P
    /\ DecoderOnlyTrans.Attention_forward a eq ek ev (Some (causal_mask L))
       = Ok out
    /\ rows P = L /\ cols P = L /\ rows out = L /\ cols out = cols v
    /\ (forall i j, (i < L)%nat -> (j < L)%nat ->
          (bval (causal_mask L) i j = true <-> (i < j)%nat))
    /\ (forall i j, (i < j)%nat -> (j < L)%nat ->
          val P i j
          = exp minus_1e9
            / Rsum L (fun c =>
                exp (if (i <? c)%nat then minus_1e9 else scaled_score q k i c))
          /\ 0 <= val P i j <= exp (minus_1e9 - scaled_score q k i i))
    /\ (forall i c, (i < L)%nat -> (c < cols v)%nat ->
          val out i c = Rsum L (fun j => val P i j * val v j c))
    /\ (forall eq' ek' ev' i,
          rows eq' = L -> rows ek' = L -> rows ev' = L ->
          cols eq' = cols eq -> cols ek' = cols ek -> cols ev' = cols ev ->
          (i < L)%nat ->
          (forall j n, (j <= i)%nat ->
             val eq' j n = val eq j n /\ val ek' j n = val ek j n
             /\ val ev' j n = val ev j n) ->
          exists q' k' v' P' out',
            Linear_forward (W_q a) eq' = Ok q'
            /\ Linear_forward (W_k a) ek' = Ok k'
            /\ Linear_forward (W_v a) ev' = Ok v'
            /\ DecoderOnlyTrans.Attention_percents q' k'
                 (Some (causal_mask L)) = Ok P'
            /\ DecoderOnlyTrans.Attention_forward a eq' ek' ev'
                 (Some (causal_mask L)) = Ok out'
            /\ (forall j, (j < L)%nat -> val P' i j = val P i j)
            /\ (forall c, (c < cols v)%nat ->
                  Rabs (val out' i c - val out i c)
                  <= exp (minus_1e9 - scaled_score q k i i)
                     * Rsum L (fun j =>
                         if (i <? j)%nat
                         then Rabs (val v' j c - val v j c) else 0))).
Proof.
  intros Hreq Hrek Hrev Hq Hk Hv Hc.
  destruct (Linear_forward_shape _ _ _ Hq) as (Hqi & Hqr & Hqc).
  destruct (Linear_forward_shape _ _ _ Hk) as (Hki & Hkr & Hkc).
  destruct (Linear_forward_shape _ _ _ Hv) as (Hvi & Hvr & Hvc).
  rewrite Hreq in Hqr. rewrite Hrek in Hkr. rewrite Hrev in Hvr.
  destruct (DecoderOnly_percents_causal q k L Hqr Hkr Hc)
    as (P & HP & Hr & Hcl & Hval).
  assert (Hpv : cols P = rows v) by congruence.
  assert (Hbound : forall i j, (i < j)%nat -> (j < L)%nat ->
            val P i j
            = exp minus_1e9
              / Rsum L (fun c =>
                  exp (if (i <? c)%nat then minus_1e9
                       else scaled_score q k i c))
            /\ 0 <= val P i j <= exp (minus_1e9 - scaled_score q k i i)).
  { intros i j Hij Hj.
    assert (Hi : (i < L)%nat) by lia.
    assert (E : val P i j
          = exp minus_1e9
            / Rsum L (fun c =>
                exp (if (i <? c)%nat then minus_1e9 else scaled_score q k i c))).
    { rewrite Hval by assumption.
      destruct (Nat.ltb_spec i j); [reflexivity | lia]. }
    set (S := Rsum L (fun c =>
                exp (if (i <? c)%nat then minus_1e9 else scaled_score q k i c)))
      in *.
    assert (Hge : exp (scaled_score q k i i) <= S).
    { pose proof (Rsum_ge_term L (fun c =>
                exp (if (i <? c)%nat then minus_1e9 else scaled_score q k i c))
                i) as H.
      cbv beta in H. rewrite Nat.ltb_irrefl in H. apply H; [|exact Hi].
      intros; left; apply exp_pos. }
    pose proof (exp_pos (scaled_score q k i i)) as Hpos.
    pose proof (exp_pos minus_1e9) as Hm.
    split; [exact E|]. rewrite E. split.
    - left. apply Rdiv_lt_0_compat; lra.
    - unfold Rminus. rewrite exp_plus, exp_Ropp. unfold Rdiv.
      apply Rmult_le_compat_l; [lra|]. apply Rinv_le_contravar; assumption. }
  exists P. eexists. split; [exact HP|]. split.
  { unfold DecoderOnlyTrans.Attention_forward. rewrite Hq, Hk, Hv.
    cbn [bind]. rewrite HP. cbn [bind]. apply (matmul_ok P v Hpv). }
  cbn [rows cols val]. rewrite Hcl.
  split; [exact Hr|]. split; [reflexivity|]. split; [exact Hr|].
  split; [reflexivity|].
  split; [intros i j _ _; apply causal_mask_spec|].
  split; [exact Hbound|]. split; [reflexivity|].
  intros eq' ek' ev' i Hreq' Hrek' Hrev' Hceq Hcek Hcev Hi Hagree.
  pose proof (Linear_forward_ok (W_q a) eq' (eq_trans Hceq Hqi)) as Hq'.
  pose proof (Linear_forward_ok (W_k a) ek' (eq_trans Hcek Hki)) as Hk'.
  pose proof (Linear_forward_ok (W_v a) ev' (eq_trans Hcev Hvi)) as Hv'.
  match type of Hq' with _ = Ok ?t => set (q' := t) in * end.
  match type of Hk' with _ = Ok ?t => set (k' := t) in * end.
  match type of Hv' with _ = Ok ?t => set (v' := t) in * end.
  assert (Hqq : forall n, val q' i n = val q i n).
  { apply (Linear_forward_row _ _ _ _ _ i Hq Hq').
    intros n. apply (Hagree i n). lia. }
  assert (Hkk : forall j, (j <= i)%nat -> forall n, val k' j n = val k j n).
  { intros j Hj. apply (Linear_forward_row _ _ _ _ _ j Hk Hk').
    intros n. apply (Hagree j n). exact Hj. }
  assert (Hvv : forall j, (j <= i)%nat -> forall n, val v' j n = val v j n).
  { intros j Hj. apply (Linear_forward_row _ _ _ _ _ j Hv Hv').
    intros n. apply (Hagree j n). exact Hj. }
  assert (Hq'r : rows q' = L) by exact Hreq'.
  assert (Hk'r : rows k' = L) by exact Hrek'.
  assert (Hq'c : cols q' = cols q) by (symmetry; exact Hqc).
  assert (Hk'c : cols k' = cols k) by (symmetry; exact Hkc).
  destruct (DecoderOnly_percents_causal q' k' L Hq'r Hk'r)
    as (P' & HP' & Hr' & Hcl' & Hval'); [congruence|].
  assert (Hs : forall c, (c <= i)%nat ->
            scaled_score q' k' i c = scaled_score q k i c).
  { intros c Hci. unfold scaled_score. rewrite Hq'c, Hk'c. f_equal.
    apply Rsum_ext. intros n _. now rewrite Hqq, (Hkk c Hci). }
  assert (HPP : forall j, (j < L)%nat -> val P' i j = val P i j).
  { intros j Hj. rewrite Hval', Hval by assumption. f_equal.
    - destruct (Nat.ltb_spec i j); [reflexivity|]. now rewrite Hs.
    - apply Rsum_ext. intros c _.
      destruct (Nat.ltb_spec i c); [reflexivity|]. now rewrite Hs. }
  assert (Hpv' : cols P' = rows v') by (rewrite Hcl'; symmetry; exact Hrev').
  exists q', k', v', P'. eexists.
  split; [exact Hq'|]. split; [exact Hk'|]. split; [exact Hv'|].
  split; [exact HP'|]. split.
  { unfold DecoderOnlyTrans.Attention_forward. rewrite Hq', Hk', Hv'.
    cbn [bind]. rewrite HP'. cbn [bind]. apply (matmul_ok P' v' Hpv'). }
  split; [exact HPP|].
  intros c Hcv. cbn [val]. rewrite Hcl'.
  rewrite Rsum_sub, <- Rsum_scal.
  apply Rsum_Rabs_le. intros j Hj. rewrite (HPP j Hj).
  destruct (Nat.ltb_spec i j) as [Hij|Hij].
  - destruct (Hbound i j Hij Hj) as (_ & Hp0 & Hp1).
    replace (val P i j * val v' j c - val P i j * val v j c)
      with (val P i j * (val v' j c - val v j c)) by ring.
    rewrite Rabs_mult, (Rabs_pos_eq _ Hp0).
    apply Rmult_le_compat_r; [apply Rabs_pos | exact Hp1].
  - rewrite (Hvv j Hij c).
    replace (val P i j * val v j c - val P i j * val v j c) with 0 by ring.
    rewrite Rabs_R0. lra.
Qed.

Lemma causal_mask_suppression_witness :
  exists q k v P out,
    Linear_forward (W_q (Attention_of 2 sample_cross_weights))
      sample_encoder_output = Ok q
    /\ Linear_forward (W_k (Attention_of 2 sample_cross_weights))
         sample_encoder_output = Ok k
    /\ Linear_forward (W_v (Attention_of 2 sample_cross_weights))
         sample_encoder_output = Ok v
    /\ DecoderOnlyTrans.Attention_percents q k (Some (causal_mask 2)) = Ok P
    /\ DecoderOnlyTrans.Attention_forward (Attention_of 2 sample_cross_weights)
         sample_encoder_output sample_encoder_output sample_encoder_output
         (Some (causal_mask 2)) = Ok out
    /\ 0 <= val P 0 1 <= exp (minus_1e9 - scaled_score q k 0 0)
    /\ val out 0 1 = Rsum 2 (fun j => val P 0 j * val v j 1).
Proof.
  do 3 eexists.
  destruct (causal_mask_suppression (Attention_of 2 sample_cross_weights)
              sample_encoder_output sample_encoder_output sample_encoder_output
              _ _ _ 2 eq_refl eq_refl eq_refl eq_refl eq_refl eq_refl eq_refl)
    as (P & out & HP & Hout & _ & _ & _ & _ & _ & Hw & Hval & _).
  exists P, out. split; [reflexivity|]. split; [reflexivity|].
  split; [reflexivity|]. split; [exact HP|]. split; [exact Hout|].
  split.
  - apply (Hw 0%nat 1%nat); lia.
  - apply Hval; cbn; lia.
Defined.

(* ================================================================== *)
(** * Shapes through a block *)

Lemma Embedding_forward_ok (e : Embedding) (token_ids : list nat) :
  forallb (fun t => (t <? num_embeddings e)%nat) token_ids = true ->
  Embedding_forward e token_ids
  = Ok (mkTensor (length token_ids) (embedding_dim e) (fun i j =>
          emb_weight e (nth i token_ids O) j)).
Proof. intros H. unfold Embedding_forward. now rewrite H. Qed.

Lemma tensor_add_ok (a b : Tensor) :
  rows a = rows b -> cols a = cols b ->
  tensor_add a b
  = Ok (mkTensor (rows a) (cols a) (fun i j =>
          val a (bidx (rows a) i) (bidx (cols a) j)
          + val b (bidx (rows b) i) (bidx (cols b) j))).
Proof.
  intros Hr Hc. unfold tensor_add.
  rewrite <- Hr, <- Hc, !broadcast_dim_same. reflexivity.
Qed.

Lemma PositionEncoding_forward_ok (pe x : Tensor) :
  (rows x <= rows pe)%nat -> cols x = cols pe ->
  PositionEncoding_forward pe x
  = Ok (mkTensor (rows x) (cols x) (fun i j =>
          val x (bidx (rows x) i) (bidx (cols x) j)
          + val pe (bidx (rows x) i) (bidx (cols x) j))).
Proof.
  intros Hr Hc. unfold PositionEncoding_forward.
  rewrite tensor_add_ok; cbn [slice_rows rows cols val].
  - now rewrite (Nat.min_l _ _ Hr), <- Hc.
  - now rewrite (Nat.min_l _ _ Hr).
  - exact Hc.
Qed.

Lemma causal_mask_fits (n : nat) : mask_fits (Some (causal_mask n)) n n.
Proof.
  unfold mask_fits. destruct (causal_mask_shape n) as [-> ->].
  now rewrite expandable_refl.
Qed.

(** Token ids embedded and position-encoded: the input of the attention
    layers of every block. *)
Lemma embed_and_encode_ok (e : Embedding) (pe : Tensor) (token_ids : list nat) :
  forallb (fun t => (t <? num_embeddings e)%nat) token_ids = true ->
  (length token_ids <= rows pe)%nat -> cols pe = embedding_dim e ->
  exists x,
    (word_embeddings <- Embedding_forward e token_ids ;;
     PositionEncoding_forward pe word_embeddings) = Ok x
    /\ rows x = length token_ids /\ cols x = embedding_dim e
    /\ forall i j, (i < length token_ids)%nat -> (j < embedding_dim e)%nat ->
         val x i j = emb_weight e (nth i token_ids O) j + val pe i j.
Proof.
  intros Hv Hl Hc. rewrite Embedding_forward_ok by exact Hv. cbn [bind].
  rewrite PositionEncoding_forward_ok by (cbn; auto).
  eexists. split; [reflexivity|]. cbn [rows cols val].
  split; [reflexivity|]. split; [reflexivity|].
  intros i j Hi Hj. now rewrite !(bidx_lt _ i Hi), !(bidx_lt _ j Hj).
Qed.

(* ================================================================== *)
(** * The decoder block of [Transformer.ipynb] *)

Lemma Decoder_init_inv (num_tokens d_model max_len : nat)
  (we_w : nat -> nat -> R) (self_w cross_w : AttentionWeights)
  (m : Transformer.Decoder.t) :
  Transformer.Decoder.init num_tokens d_model max_len we_w self_w cross_w
  = Ok m ->
  exists pe,
    PositionEncoding_init d_model max_len = Ok pe
    /\ rows pe = max_len /\ cols pe = d_model
    /\ m = Transformer.Decoder.mk (mkEmbedding num_tokens d_model we_w) pe
             (Attention_of d_model self_w) (Attention_of d_model cross_w).
Proof.
  unfold Transformer.Decoder.init. intros H.
  apply bind_ok in H as (pe & Hpe & H). injection H as <-.
  destruct (PositionEncoding_init_shape _ _ _ Hpe) as [Hr Hc].
  exists pe. auto.
Qed.

(** [Decoder.forward], and the forward pass as the specification words
    it, once the first three stages are known. *)
Lemma Decoder_forward_stages (m : Transformer.Decoder.t) (token_ids : list nat)
  (ek ev x sa r : Tensor) :
  (word_embeddings <-
     Embedding_forward (Transformer.Decoder.we m) token_ids ;;
   PositionEncoding_forward (Transformer.Decoder.pe m) word_embeddings) = Ok x ->
  Attention_forward (Transformer.Decoder.self_attention m) x x x
    (Some (causal_mask (length token_ids))) = Ok sa ->
  tensor_add x sa = Ok r ->
  Transformer.Decoder.forward m token_ids ek ev
  = (ca <- Attention_forward
             (Transformer.Decoder.encoder_decoder_attention m) x ek ev None ;;
     tensor_add ca r)
  /\ Decoder_forward_as_claimed m token_ids ek ev
  = (ca <- Attention_forward
             (Transformer.Decoder.encoder_decoder_attention m) r ek ev None ;;
     tensor_add ca r).
Proof.
  intros Hx Hsa Hr. apply bind_ok in Hx as (emb & He & Hp).
  unfold Transformer.Decoder.forward, Decoder_forward_as_claimed.
  rewrite He. cbn [bind]. rewrite Hp. cbn [bind]. rewrite Hsa. cbn [bind].
  rewrite Hr. cbn [bind]. split.
  - destruct (Attention_forward _ x ek ev None) as [ca|e]; cbn [bind];
      [|reflexivity].
    destruct (tensor_add ca r); reflexivity.
  - reflexivity.
Qed.

(** C1 as stated fails: on the decoder input [<SOS>] and two encoder
    outputs, the notebook's decoder and the decoder of the claim (query =
    self-attention residual output) return different values. *)
Lemma decoder_cross_attention_query_differs :
  exists m out out',
    Transformer.Decoder.init 6 2 5 (fun _ _ => 0) sample_self_weights
      sample_cross_weights = Ok m
    /\ Transformer.Decoder.forward m [Transformer.SOS] sample_encoder_output
         sample_encoder_output = Ok out
    /\ Decoder_forward_as_claimed m [Transformer.SOS] sample_encoder_output
         sample_encoder_output = Ok out'
    /\ val out' 0 1 = 1 / 2
    /\ 1 / 2 < val out 0 1.
Proof.
  destruct (Transformer.Decoder.init 6 2 5 (fun _ _ => 0) sample_self_weights
              sample_cross_weights) as [m|e] eqn:Hinit.
  2:{ unfold Transformer.Decoder.init in Hinit.
      pose proof (PositionEncoding_init_even 1 5 (le_n 1)) as E.
      change (2 * 1)%nat with 2%nat in E. rewrite E in Hinit. discriminate. }
  exists m.
  apply Decoder_init_inv in Hinit as (pe & Hpe & Hr & Hc & ->).
  destruct (PositionEncoding_row0 1 5 pe (le_n 1)) as [P0 P1]; [lia|exact Hpe|].
  destruct (embed_and_encode_ok (mkEmbedding 6 2 (fun _ _ => 0)) pe
              [Transformer.SOS] eq_refl) as (x & Hx & Hxr & Hxc & Hxv);
    [cbn; lia | exact Hc |].
  cbn [length embedding_dim emb_weight] in Hxr, Hxc, Hxv.
  assert (X0 : val x 0 0 = 0) by (rewrite Hxv by lia; rewrite P0; ring).
  assert (X1 : val x 0 1 = 1) by (rewrite Hxv by lia; rewrite P1; ring).
  pose proof (Attention_forward_explicit 2 sample_self_weights x x x
                (Some (causal_mask 1)) Hxc Hxc Hxc eq_refl) as Hsa.
  rewrite Hxr in Hsa. specialize (Hsa (causal_mask_fits 1)).
  match type of Hsa with _ = Ok ?t => set (sa := t) in * end.
  pose proof (tensor_add_ok x sa Hxr Hxc) as Hadd.
  match type of Hadd with _ = Ok ?t => set (r := t) in * end.
  destruct (Decoder_forward_stages
              (Transformer.Decoder.mk (mkEmbedding 6 2 (fun _ _ => 0)) pe
                 (Attention_of 2 sample_self_weights)
                 (Attention_of 2 sample_cross_weights))
              [Transformer.SOS] sample_encoder_output sample_encoder_output
              x sa r Hx Hsa Hadd) as [Hcode Hclaim].
  assert (Hrr : rows r = 1%nat) by exact Hxr.
  assert (Hrc : cols r = 2%nat) by exact Hxc.
  cbn [Transformer.Decoder.encoder_decoder_attention] in Hcode, Hclaim.
  rewrite (Attention_forward_explicit 2 sample_cross_weights x
             sample_encoder_output sample_encoder_output None Hxc eq_refl
             eq_refl eq_refl I) in Hcode.
  rewrite (Attention_forward_explicit 2 sample_cross_weights r
             sample_encoder_output sample_encoder_output None Hrc eq_refl
             eq_refl eq_refl I) in Hclaim.
  cbn [bind] in Hcode, Hclaim.
  rewrite tensor_add_ok in Hcode by (cbn [rows cols]; congruence).
  rewrite tensor_add_ok in Hclaim by (cbn [rows cols]; congruence).
  do 2 eexists. split; [reflexivity|]. split; [exact Hcode|].
  split; [exact Hclaim|].
  clear Hcode Hclaim Hsa Hadd Hx Hpe.
  assert (S0 : val sa 0 0 = 0 /\ val sa 0 1 = -1).
  { unfold sa.
    cbn [val Rsum softmax masked_scores project rows cols wv
         sample_self_weights scaled_identity Nat.eqb].
    rewrite X0, X1, Hxr. cbn [Rsum].
    match goal with |- context [exp ?t] => generalize (exp_pos t); intros He;
      set (e := exp t) in * end.
    split; field; lra. }
  destruct S0 as [S0 S1].
  assert (R0 : val r 0 0 = 0 /\ val r 0 1 = 0).
  { unfold r. cbn [val]. rewrite Hxr, Hxc. change (rows sa) with 1%nat.
    change (cols sa) with 2%nat. cbn [bidx Nat.eqb].
    rewrite X0, X1, S0, S1. split; ring. }
  destruct R0 as [R0 R1].
  cbn [rows cols val]. rewrite Hxr, Hrr, Hrc.
  cbn [bidx Nat.eqb Rsum sample_encoder_output rows cols val
       softmax masked_scores project wq wk wv sample_cross_weights
       scaled_identity scaled_score].
  assert (Sr : forall j, scaled_score (project (scaled_identity 1) 2 r)
             (project (scaled_identity 1) 2 sample_encoder_output) 0 j = 0).
  { intros j. unfold scaled_score.
    cbn [project rows cols val Rsum scaled_identity Nat.eqb].
    rewrite R0, R1. unfold Rdiv. ring. }
  assert (Sx0 : scaled_score (project (scaled_identity 1) 2 x)
             (project (scaled_identity 1) 2 sample_encoder_output) 0 0 = 0).
  { unfold scaled_score.
    cbn [project rows cols val Rsum scaled_identity Nat.eqb
         sample_encoder_output].
    rewrite X0, X1. unfold Rdiv. ring. }
  assert (Sx1 : 0 < scaled_score (project (scaled_identity 1) 2 x)
             (project (scaled_identity 1) 2 sample_encoder_output) 0 1).
  { unfold scaled_score.
    cbn [project rows cols val Rsum scaled_identity Nat.eqb
         sample_encoder_output].
    rewrite X0, X1. replace (INR 2) with 2 by (simpl; lra).
    apply Rdiv_lt_0_compat; [lra | apply sqrt_2_bounds]. }
  rewrite !Sr, Sx0, R1, exp_0.
  apply exp_increasing in Sx1. rewrite exp_0 in Sx1.
  set (b := exp _) in *. split; [field|].
  apply (Rmult_lt_reg_r (0 + 1 + b)); [lra|]. field_simplify; lra.
Qed.

(** [Decoder.forward] stage by stage, on valid tokens and encoder outputs
    of the model's width. *)
Lemma Decoder_forward_explicit (num_tokens d_model max_len : nat)
  (we_w : nat -> nat -> R) (self_w cross_w : AttentionWeights)
  (m : Transformer.Decoder.t) (token_ids : list nat) (ek ev : Tensor) :
  Transformer.Decoder.init num_tokens d_model max_len we_w self_w cross_w
  = Ok m ->
  forallb (fun t => (t <? num_tokens)%nat) token_ids = true ->
  (length token_ids <= max_len)%nat ->
  cols ek = d_model -> cols ev = d_model -> rows ek = rows ev ->
  exists x sa r ca out,
    (word_embeddings <-
       Embedding_forward (Transformer.Decoder.we m) token_ids ;;
     PositionEncoding_forward (Transformer.Decoder.pe m) word_embeddings)
    = Ok x
    /\ Attention_forward (Transformer.Decoder.self_attention m) x x x
         (Some (causal_mask (length token_ids))) = Ok sa
    /\ tensor_add x sa = Ok r
    /\ Attention_forward (Transformer.Decoder.encoder_decoder_attention m)
         x ek ev None = Ok ca
    /\ tensor_add ca r = Ok out
    /\ Transformer.Decoder.forward m token_ids ek ev = Ok out
    /\ rows out = length token_ids /\ cols out = d_model
    /\ forall i j, (i < length token_ids)%nat -> (j < d_model)%nat ->
         val x i j
         = we_w (nth i token_ids O) j + val (Transformer.Decoder.pe m) i j
         /\ val r i j = val x i j + val sa i j
         /\ val out i j = val ca i j + val r i j.
Proof.
  intros Hinit Hv Hl Hek Hev Hkv.
  apply Decoder_init_inv in Hinit as (pe & _ & Hr & Hc & ->).
  cbn [Transformer.Decoder.we Transformer.Decoder.pe
       Transformer.Decoder.self_attention
       Transformer.Decoder.encoder_decoder_attention].
  destruct (embed_and_encode_ok (mkEmbedding num_tokens d_model we_w) pe
              token_ids Hv) as (x & Hx & Hxr & Hxc & Hxv);
    [cbn; lia | exact Hc |].
  cbn [embedding_dim emb_weight] in Hxc, Hxv.
  destruct (Attention_forward_ok d_model self_w x x x
              (Some (causal_mask (length token_ids))))
    as (sa & Hsa & Hsar & Hsac); try assumption; try reflexivity.
  { rewrite Hxr. apply causal_mask_fits. }
  pose proof (tensor_add_ok x sa (eq_sym Hsar) (eq_trans Hxc (eq_sym Hsac)))
    as Hadd1.
  match type of Hadd1 with _ = Ok ?t => set (r := t) in * end.
  destruct (Attention_forward_ok d_model cross_w x ek ev None)
    as (ca & Hca & Hcar & Hcac); try assumption; try exact I.
  assert (Hadd2 : tensor_add ca r
                  = Ok (mkTensor (rows ca) (cols ca) (fun i j =>
                      val ca (bidx (rows ca) i) (bidx (cols ca) j)
                      + val r (bidx (rows r) i) (bidx (cols r) j)))).
  { apply tensor_add_ok; unfold r; cbn [rows cols]; congruence. }
  exists x, sa, r, ca. eexists.
  split; [exact Hx|]. split; [exact Hsa|]. split; [exact Hadd1|].
  split; [exact Hca|]. split; [exact Hadd2|]. split.
  { unfold Transformer.Decoder.forward.
    cbn [Transformer.Decoder.we Transformer.Decoder.pe
         Transformer.Decoder.self_attention
         Transformer.Decoder.encoder_decoder_attention].
    apply bind_ok in Hx as (emb & He & Hp).
    rewrite He. cbn [bind]. rewrite Hp. cbn [bind].
    rewrite Hsa. cbn [bind]. rewrite Hadd1. cbn [bind].
    rewrite Hca. cbn [bind]. rewrite Hadd2. reflexivity. }
  cbn [rows cols val]. split; [congruence|]. split; [congruence|].
  intros i j Hi Hj. split; [now apply Hxv|]. split.
  - unfold r. cbn [val].
    rewrite !bidx_lt by congruence. reflexivity.
  - assert (Hrr : rows r = rows x) by reflexivity.
    assert (Hrc : cols r = cols x) by reflexivity.
    rewrite !bidx_lt by congruence. reflexivity.
Qed.

(** C1, amended.  [Decoder.forward] embeds the decoder tokens, adds the
    position encoding, runs the masked (causal) self-attention and adds it
    to the position-encoded embeddings; the encoder-decoder attention then
    takes the position-encoded embeddings as its query input -- not the
    residual output -- and the encoder outputs as key and value inputs,
    with no mask; its result is added onto the self-attention residual
    output, and that sum is returned. *)
Theorem decoder_forward_pipeline (num_tokens d_model max_len : nat)
  (we_w : nat -> nat -> R) (self_w cross_w : AttentionWeights)
  (m : Transformer.Decoder.t) (token_ids : list nat) (ek ev : Tensor) :
  Transformer.Decoder.init num_tokens d_model max_len we_w self_w cross_w
  = Ok m ->
  forallb (fun t => (t <? num_tokens)%nat) token_ids = true ->
  (length token_ids <= max_len)%nat ->
  cols ek = d_model -> cols ev = d_model -> rows ek = rows ev ->
  exists x sa r ca out,
    (word_embeddings <-
       Embedding_forward (Transformer.Decoder.we m) token_ids ;;
     PositionEncoding_forward (Transformer.Decoder.pe m) word_embeddings)
    = Ok x
    /\ Attention_forward (Transformer.Decoder.self_attention m) x x x
         (Some (causal_mask (length token_ids))) = Ok sa
    /\ tensor_add x sa = Ok r
    /\ Attention_forward (Transformer.Decoder.encoder_decoder_attention m)
         x ek ev None = Ok ca
    /\ tensor_add ca r = Ok out
    /\ Transformer.Decoder.forward m token_ids ek ev = Ok out
    /\ rows out = length token_ids /\ cols out = d_model
    /\ forall i j, (i < length token_ids)%nat -> (j < d_model)%nat ->
         val x i j
         = we_w (nth i token_ids O) j + val (Transformer.Decoder.pe m) i j
         /\ val r i j = val x i j + val sa i j
         /\ val out i j = val ca i j + val r i j.
Proof. apply Decoder_forward_explicit. Qed.

Lemma decoder_forward_pipeline_witness :
  exists m out,
    Transformer.Decoder.init 6 2 5 (fun _ _ => 0) sample_self_weights
      sample_cross_weights = Ok m
    /\ Transformer.Decoder.forward m [Transformer.SOS] sample_encoder_output
         sample_encoder_output = Ok out
    /\ rows out = 1%nat /\ cols out = 2%nat.
Proof.
  destruct (Transformer.Decoder.init 6 2 5 (fun _ _ => 0) sample_self_weights
              sample_cross_weights) as [m|e] eqn:Hinit.
  2:{ unfold Transformer.Decoder.init in Hinit.
      pose proof (PositionEncoding_init_even 1 5 (le_n 1)) as E.
      change (2 * 1)%nat with 2%nat in E. rewrite E in Hinit. discriminate. }
  destruct (decoder_forward_pipeline 6 2 5 (fun _ _ => 0) sample_self_weights
              sample_cross_weights m [Transformer.SOS] sample_encoder_output
              sample_encoder_output Hinit eq_refl)
    as (x & sa & r & ca & out & _ & _ & _ & _ & _ & Hf & Hr & Hc & _);
    [cbn; lia | reflexivity | reflexivity | reflexivity |].
  exists m, out. split; [reflexivity|]. split; [exact Hf|].
  split; [exact Hr | exact Hc].
Defined.

(* ================================================================== *)
(** * The encoder block and [Transformer.forward] *)

Lemma Encoder_init_inv (num_tokens d_model max_len : nat)
  (we_w : nat -> nat -> R) (att_w : AttentionWeights)
  (m : Transformer.Encoder.t) :
  Transformer.Encoder.init num_tokens d_model max_len we_w att_w = Ok m ->
  exists pe,
    PositionEncoding_init d_model max_len = Ok pe
    /\ rows pe = max_len /\ cols pe = d_model
    /\ m = Transformer.Encoder.mk (mkEmbedding num_tokens d_model we_w) pe
             (Attention_of d_model att_w).
Proof.
  unfold Transformer.Encoder.init. intros H.
  apply bind_ok in H as (pe & Hpe & H). apply Ok_inj in H. subst m.
  destruct (PositionEncoding_init_shape _ _ _ Hpe) as [Hr Hc].
  exists pe. auto.
Qed.

(** [Encoder.forward] returns one row of width [d_model] per token. *)
Lemma Encoder_forward_ok (num_tokens d_model max_len : nat)
  (we_w : nat -> nat -> R) (att_w : AttentionWeights)
  (m : Transformer.Encoder.t) (token_ids : list nat) :
  Transformer.Encoder.init num_tokens d_model max_len we_w att_w = Ok m ->
  forallb (fun t => (t <? num_tokens)%nat) token_ids = true ->
  (length token_ids <= max_len)%nat ->
  exists out,
    Transformer.Encoder.forward m token_ids = Ok out
    /\ rows out = length token_ids /\ cols out = d_model.
Proof.
  intros Hinit Hv Hl.
  apply Encoder_init_inv in Hinit as (pe & _ & Hr & Hc & ->).
  destruct (embed_and_encode_ok (mkEmbedding num_tokens d_model we_w) pe
              token_ids Hv) as (x & Hx & Hxr & Hxc & _);
    [cbn; lia | exact Hc |].
  cbn [embedding_dim] in Hxc.
  destruct (Attention_forward_ok d_model att_w x x x None)
    as (sa & Hsa & Hsar & Hsac); try assumption; try reflexivity.
  unfold Transformer.Encoder.forward.
  cbn [Transformer.Encoder.we Transformer.Encoder.pe
       Transformer.Encoder.attention].
  apply bind_ok in Hx as (emb & He & Hp).
  rewrite He. cbn [bind]. rewrite Hp. cbn [bind]. rewrite Hsa. cbn [bind].
  rewrite tensor_add_ok by congruence.
  eexists. split; [reflexivity|]. cbn [rows cols]. split; congruence.
Qed.

(** The positions found by [torch.where], counted from [i]. *)
Lemma where_eq_length (c : nat) (l : list nat) (i : nat) :
  length (Transformer.where_eq c l i) = count_occ Nat.eq_dec l c.
Proof.
  revert i. induction l as [|x l IH]; intros i; [reflexivity|].
  cbn [Transformer.where_eq count_occ].
  destruct (Nat.eqb_spec x c) as [E|E]; destruct (Nat.eq_dec x c);
    try contradiction; cbn [length]; now rewrite IH.
Qed.

Lemma where_eq_absent (c : nat) (l : list nat) (i : nat) :
  ~ In c l -> Transformer.where_eq c l i = [].
Proof.
  revert i. induction l as [|x l IH]; intros i H; [reflexivity|].
  cbn [Transformer.where_eq].
  destruct (Nat.eqb_spec x c) as [E|E].
  - exfalso. apply H. now left.
  - apply IH. intros Hin. apply H. now right.
Qed.

Lemma where_eq_single (c : nat) (pre post : list nat) (i : nat) :
  ~ In c pre -> ~ In c post ->
  Transformer.where_eq c (pre ++ c :: post) i = [(i + length pre)%nat].
Proof.
  revert i. induction pre as [|x pre IH]; intros i Hpre Hpost.
  - cbn [app Transformer.where_eq length]. rewrite Nat.eqb_refl.
    rewrite where_eq_absent by exact Hpost. now rewrite Nat.add_0_r.
  - cbn [app Transformer.where_eq length].
    destruct (Nat.eqb_spec x c) as [E|E].
    + exfalso. apply Hpre. now left.
    + rewrite IH; [f_equal; lia | | exact Hpost].
      intros Hin. apply Hpre. now right.
Qed.

Lemma item_ok_length (l : list nat) (x : nat) :
  Transformer.item l = Ok x -> length l = 1%nat.
Proof.
  destruct l as [|y [|z l]]; cbn; intros H; try discriminate. reflexivity.
Qed.

Lemma item_not_single (l : list nat) :
  length l <> 1%nat -> Transformer.item l = Raise RuntimeError.
Proof.
  destruct l as [|y [|z l]]; cbn; intros H; try reflexivity. contradiction.
Qed.

(** C10.  [Transformer.forward] returns only when exactly one position of
    the token sequence holds the [<SOS>] id 0: with no or several such
    positions [.item()] raises; with exactly one, the tokens before it go
    to the encoder and the tokens from it onward to the decoder. *)
Theorem transformer_forward_splits_at_sos (m : Transformer.t)
  (token_ids : list nat) :
  (count_occ Nat.eq_dec token_ids Transformer.SOS <> 1%nat ->
   Transformer.forward m token_ids = Raise RuntimeError)
  /\ (forall out, Transformer.forward m token_ids = Ok out ->
        count_occ Nat.eq_dec token_ids Transformer.SOS = 1%nat)
  /\ (forall pre post,
        token_ids = pre ++ Transformer.SOS :: post ->
        ~ In Transformer.SOS pre -> ~ In Transformer.SOS post ->
        Transformer.forward m token_ids
        = (contextualised_embeddings <-
             Transformer.Encoder.forward (Transformer.encoder m) pre ;;
           residual_connection_values <-
             Transformer.Decoder.forward (Transformer.decoder m)
               (Transformer.SOS :: post)
               contextualised_embeddings contextualised_embeddings ;;
           Linear_forward (Transformer.fc m) residual_connection_values)).
Proof.
  assert (Hfail : count_occ Nat.eq_dec token_ids Transformer.SOS <> 1%nat ->
                  Transformer.forward m token_ids = Raise RuntimeError).
  { intros H. unfold Transformer.forward.
    rewrite item_not_single; [reflexivity|]. now rewrite where_eq_length. }
  split; [exact Hfail|]. split.
  - intros out Hout.
    destruct (Nat.eq_dec (count_occ Nat.eq_dec token_ids Transformer.SOS) 1)
      as [E|E]; [exact E|].
    rewrite (Hfail E) in Hout. discriminate.
  - intros pre post -> Hpre Hpost. unfold Transformer.forward.
    rewrite where_eq_single by assumption. cbn [Transformer.item bind].
    rewrite Nat.add_0_l.
    rewrite firstn_app, Nat.sub_diag, firstn_all, firstn_O, app_nil_r.
    rewrite skipn_app, Nat.sub_diag, skipn_all, skipn_O. reflexivity.
Qed.

(* ================================================================== *)
(** * [EncoderOnlyTrans.ipynb]: multi-head attention and the classifier *)

Lemma cat_cols_ok (ts : list Tensor) (r d : nat) :
  ts <> [] -> Forall (fun t => rows t = r /\ cols t = d) ts ->
  exists c, cat_cols ts = Ok c /\ rows c = r
            /\ cols c = (length ts * d)%nat.
Proof.
  induction ts as [|t ts IH]; intros Hne Hall; [contradiction|].
  inversion Hall as [|? ? [Hr Hc] Hrest]; subst.
  destruct ts as [|t' ts].
  - exists t. cbn. repeat split; lia.
  - destruct IH as (c & Hcat & Hcr & Hcc); [discriminate | exact Hrest |].
    cbn [cat_cols] in *. rewrite Hcat. cbn [bind].
    rewrite Hcr, Nat.eqb_refl. eexists. split; [reflexivity|].
    cbn [rows cols length] in *. split; [reflexivity|]. lia.
Qed.

Lemma heads_loop_ok (d_model head : nat) (heads_w : nat -> AttentionWeights)
  (fc_w : nat -> nat -> R) (fc_b : nat -> R) (x : Tensor) (hs : list nat) :
  cols x = d_model -> Forall (fun h => (h < head)%nat) hs ->
  forall acc,
    Forall (fun t => rows t = rows x /\ cols t = d_model) acc ->
    exists out,
      EncoderOnlyTrans.heads_loop
        (EncoderOnlyTrans.MultiHeadAttention_init d_model head heads_w fc_w fc_b)
        hs x x x None acc = Ok out
      /\ length out = (length acc + length hs)%nat
      /\ Forall (fun t => rows t = rows x /\ cols t = d_model) out.
Proof.
  intros Hc. induction hs as [|h hs IH]; intros Hall acc Hacc.
  - exists acc. cbn. split; [reflexivity|]. split; [lia | exact Hacc].
  - inversion Hall as [|? ? Hh Hrest]; subst.
    cbn [EncoderOnlyTrans.heads_loop EncoderOnlyTrans.MultiHeadAttention_init
         EncoderOnlyTrans.attention_heads].
    rewrite (nth_error_nth' _ (Attention_of (cols x) (heads_w 0%nat)))
      by (rewrite length_map, length_seq; exact Hh).
    rewrite (map_nth (fun h => Attention_of (cols x) (heads_w h)) (seq 0 head)
               0%nat h), seq_nth by exact Hh.
    cbn [Nat.add].
    destruct (Attention_forward_ok (cols x) (heads_w h) x x x None)
      as (a & Ha & Har & Hac); try reflexivity.
    rewrite Ha. cbn [bind].
    destruct (IH Hrest (acc ++ [a])) as (out & Hout & Hlen & Hshape).
    { apply Forall_app. split; [exact Hacc|]. constructor; [auto | constructor]. }
    exists out. split; [exact Hout|]. split; [|exact Hshape].
    rewrite Hlen, length_app. cbn [length]. lia.
Qed.

(** [MultiHeadAttention.forward] with at least one head returns one row of
    width [d_model] per input row. *)
Lemma MultiHeadAttention_forward_ok (d_model head : nat)
  (heads_w : nat -> AttentionWeights) (fc_w : nat -> nat -> R)
  (fc_b : nat -> R) (x : Tensor) :
  (1 <= head)%nat -> cols x = d_model ->
  exists out,
    EncoderOnlyTrans.MultiHeadAttention_forward
      (EncoderOnlyTrans.MultiHeadAttention_init d_model head heads_w fc_w fc_b)
      x x x None = Ok out
    /\ rows out = rows x /\ cols out = d_model.
Proof.
  intros Hh Hc. unfold EncoderOnlyTrans.MultiHeadAttention_forward.
  destruct (heads_loop_ok d_model head heads_w fc_w fc_b x (seq 0 head) Hc)
    with (acc := @nil Tensor) as (ts & Hts & Hlen & Hshape).
  { apply Forall_forall. intros h Hin. apply in_seq in Hin. lia. }
  { constructor. }
  cbn [EncoderOnlyTrans.head EncoderOnlyTrans.MultiHeadAttention_init] in *.
  rewrite Hts. cbn [bind].
  rewrite length_seq in Hlen. cbn [length Nat.add] in Hlen.
  destruct (cat_cols_ok ts (rows x) d_model) as (c & Hcat & Hcr & Hcc).
  { intros ->. cbn in Hlen. lia. }
  { exact Hshape. }
  rewrite Hcat. cbn [bind EncoderOnlyTrans.fc].
  rewrite Linear_forward_ok by (cbn [in_features]; rewrite Hcc, Hlen; reflexivity).
  eexists. split; [reflexivity|]. cbn [rows cols out_features]. auto.
Qed.

(** With no head, [torch.cat] has nothing to concatenate. *)
Lemma MultiHeadAttention_forward_no_head (d_model : nat)
  (heads_w : nat -> AttentionWeights) (fc_w : nat -> nat -> R)
  (fc_b : nat -> R) (x : Tensor) :
  EncoderOnlyTrans.MultiHeadAttention_forward
    (EncoderOnlyTrans.MultiHeadAttention_init d_model 0 heads_w fc_w fc_b)
    x x x None = Raise RuntimeError.
Proof. reflexivity. Qed.

Lemma broadcast_dim_inv (m n r : nat) :
  broadcast_dim m n = Ok r ->
  (m = n /\ r = m) \/ (m = 1%nat /\ r = n) \/ (n = 1%nat /\ r = m).
Proof.
  unfold broadcast_dim.
  destruct (Nat.eqb_spec m n); [intros H; apply Ok_inj in H; auto|].
  destruct (Nat.eqb_spec m 1); [intros H; apply Ok_inj in H; auto|].
  destruct (Nat.eqb_spec n 1); [intros H; apply Ok_inj in H; auto|].
  discriminate.
Qed.

Lemma tensor_add_shape (a b c : Tensor) :
  tensor_add a b = Ok c ->
  broadcast_dim (rows a) (rows b) = Ok (rows c)
  /\ broadcast_dim (cols a) (cols b) = Ok (cols c).
Proof.
  unfold tensor_add. intros H.
  apply bind_ok in H as (r & Hr & H). apply bind_ok in H as (k & Hk & H).
  apply Ok_inj in H. subst c. auto.
Qed.

(** With [max_len >= 1], position encoding keeps the shape of embeddings
    of width [d_model] whenever it returns. *)
Lemma PositionEncoding_forward_shape (pe x y : Tensor) :
  (1 <= rows pe)%nat -> cols x = cols pe ->
  PositionEncoding_forward pe x = Ok y ->
  rows y = rows x /\ cols y = cols x.
Proof.
  intros Hm Hc H. apply tensor_add_shape in H as [Hr Hk].
  cbn [slice_rows rows cols] in Hr, Hk.
  apply broadcast_dim_inv in Hr. apply broadcast_dim_inv in Hk. lia.
Qed.

Lemma EncoderOnly_init_inv (num_tokens d_model head max_len : nat)
  (w : EncoderOnlyTrans.Weights) (m : EncoderOnlyTrans.EncoderOnlyTransformer) :
  EncoderOnlyTrans.init num_tokens d_model head max_len w = Ok m ->
  exists pe,
    PositionEncoding_init d_model max_len = Ok pe
    /\ rows pe = max_len /\ cols pe = d_model
    /\ m = EncoderOnlyTrans.mkEncoderOnlyTransformer
             (mkEmbedding num_tokens d_model (EncoderOnlyTrans.we_w w)) pe
             (EncoderOnlyTrans.MultiHeadAttention_init d_model head
                (EncoderOnlyTrans.heads_w w) (EncoderOnlyTrans.fc_w w)
                (EncoderOnlyTrans.fc_b w))
             (mkLinear (max_len * d_model) 2 (EncoderOnlyTrans.cls_w w)
                (Some (EncoderOnlyTrans.cls_b w))).
Proof.
  unfold EncoderOnlyTrans.init. intros H.
  apply bind_ok in H as (pe & Hpe & H). apply Ok_inj in H. subst m.
  destruct (PositionEncoding_init_shape _ _ _ Hpe) as [Hr Hc].
  exists pe. auto.
Qed.

(** Whenever the residual connection of the encoder-only model is reached,
    it has one row of width [d_model] per token. *)
Lemma EncoderOnly_residual_shape (num_tokens d_model head max_len : nat)
  (w : EncoderOnlyTrans.Weights) (m : EncoderOnlyTrans.EncoderOnlyTransformer)
  (token_ids : list nat) (r : Tensor) :
  (1 <= max_len)%nat ->
  EncoderOnlyTrans.init num_tokens d_model head max_len w = Ok m ->
  EncoderOnlyTrans.residual m token_ids = Ok r ->
  rows r = length token_ids /\ cols r = d_model.
Proof.
  intros Hm Hinit H.
  apply EncoderOnly_init_inv in Hinit as (pe & _ & Hpr & Hpc & ->).
  unfold EncoderOnlyTrans.residual in H.
  cbn [EncoderOnlyTrans.we EncoderOnlyTrans.pe
       EncoderOnlyTrans.multi_head_attention] in H.
  apply bind_ok in H as (emb & He & H).
  apply bind_ok in H as (x & Hx & H).
  apply bind_ok in H as (sa & Hsa & H).
  unfold Embedding_forward in He. destruct (forallb _ _); [|discriminate].
  apply Ok_inj in He. subst emb.
  apply PositionEncoding_forward_shape in Hx as [Hxr Hxc];
    [| lia | cbn; congruence].
  cbn [rows cols embedding_dim] in Hxr, Hxc.
  destruct head as [|head].
  - rewrite MultiHeadAttention_forward_no_head in Hsa. discriminate.
  - destruct (MultiHeadAttention_forward_ok d_model (S head)
                (EncoderOnlyTrans.heads_w w) (EncoderOnlyTrans.fc_w w)
                (EncoderOnlyTrans.fc_b w) x) as (sa' & Hsa' & Hr' & Hc');
      [lia | exact Hxc |].
    rewrite Hsa' in Hsa. apply Ok_inj in Hsa. subst sa'.
    apply tensor_add_shape in H as [Hr Hk].
    apply broadcast_dim_inv in Hr. apply broadcast_dim_inv in Hk. lia.
Qed.

(** The residual connection is reached on valid tokens that the position
    table covers, when the model has a head. *)
Lemma EncoderOnly_residual_ok (num_tokens d_model head max_len : nat)
  (w : EncoderOnlyTrans.Weights) (m : EncoderOnlyTrans.EncoderOnlyTransformer)
  (token_ids : list nat) :
  EncoderOnlyTrans.init num_tokens d_model head max_len w = Ok m ->
  (1 <= head)%nat ->
  forallb (fun t => (t <? num_tokens)%nat) token_ids = true ->
  (length token_ids <= max_len)%nat ->
  exists r, EncoderOnlyTrans.residual m token_ids = Ok r
            /\ rows r = length token_ids /\ cols r = d_model.
Proof.
  intros Hinit Hh Hv Hl.
  apply EncoderOnly_init_inv in Hinit as (pe & _ & Hpr & Hpc & ->).
  destruct (embed_and_encode_ok (mkEmbedding num_tokens d_model
              (EncoderOnlyTrans.we_w w)) pe token_ids Hv)
    as (x & Hx & Hxr & Hxc & _); [cbn; lia | exact Hpc |].
  cbn [embedding_dim] in Hxc.
  destruct (MultiHeadAttention_forward_ok d_model head
              (EncoderOnlyTrans.heads_w w) (EncoderOnlyTrans.fc_w w)
              (EncoderOnlyTrans.fc_b w) x Hh Hxc) as (sa & Hsa & Hsr & Hsc).
  unfold EncoderOnlyTrans.residual.
  cbn [EncoderOnlyTrans.we EncoderOnlyTrans.pe
       EncoderOnlyTrans.multi_head_attention].
  apply bind_ok in Hx as (emb & He & Hp).
  rewrite He. cbn [bind]. rewrite Hp. cbn [bind]. rewrite Hsa. cbn [bind].
  rewrite tensor_add_ok by congruence.
  eexists. split; [reflexivity|]. cbn [rows cols]. split; congruence.
Qed.

(** C9.  [EncoderOnlyTransformer.forward] returns only on token sequences
    of length exactly [max_len]: the flattened residual output has
    [L * d_model] entries and the classification layer takes
    [max_len * d_model], so a sequence of fewer than [max_len] valid tokens
    reaches the final linear layer and fails there; a sequence of exactly
    [max_len] valid tokens is classified. *)
Theorem encoder_only_forward_needs_max_len
  (num_tokens d_model head max_len : nat) (w : EncoderOnlyTrans.Weights)
  (m : EncoderOnlyTrans.EncoderOnlyTransformer) (token_ids : list nat) :
  (1 <= d_model)%nat -> (1 <= max_len)%nat ->
  EncoderOnlyTrans.init num_tokens d_model head max_len w = Ok m ->
  (forall out, EncoderOnlyTrans.forward m token_ids = Ok out ->
     length token_ids = max_len)
  /\ ((1 <= head)%nat ->
      forallb (fun t => (t <? num_tokens)%nat) token_ids = true ->
      (length token_ids < max_len)%nat ->
      exists r,
        EncoderOnlyTrans.residual m token_ids = Ok r
        /\ rows r = length token_ids /\ cols r = d_model
        /\ Linear_forward1 (EncoderOnlyTrans.cls m) (flatten r)
           = Raise RuntimeError
        /\ EncoderOnlyTrans.forward m token_ids = Raise RuntimeError)
  /\ ((1 <= head)%nat ->
      forallb (fun t => (t <? num_tokens)%nat) token_ids = true ->
      length token_ids = max_len ->
      exists out, EncoderOnlyTrans.forward m token_ids = Ok out
                  /\ len out = 2%nat).
Proof.
  intros Hd Hm Hinit.
  assert (Hcls : EncoderOnlyTrans.cls m
                 = mkLinear (max_len * d_model) 2 (EncoderOnlyTrans.cls_w w)
                     (Some (EncoderOnlyTrans.cls_b w))).
  { apply EncoderOnly_init_inv in Hinit as (pe & _ & _ & _ & ->). reflexivity. }
  split; [|split].
  - intros out H. unfold EncoderOnlyTrans.forward in H.
    apply bind_ok in H as (r & Hr & H).
    destruct (EncoderOnly_residual_shape _ _ _ _ _ _ _ _ Hm Hinit Hr)
      as [Hrr Hrc].
    unfold Linear_forward1 in H. rewrite Hcls in H.
    cbn [flatten len in_features] in H.
    destruct (Nat.eqb_spec (rows r * cols r) (max_len * d_model)) as [E|E];
      [|discriminate].
    rewrite Hrr, Hrc in E. nia.
  - intros Hh Hv Hl.
    destruct (EncoderOnly_residual_ok _ _ _ _ _ _ token_ids Hinit Hh Hv)
      as (r & Hr & Hrr & Hrc); [lia|].
    assert (Hfail : Linear_forward1 (EncoderOnlyTrans.cls m) (flatten r)
                    = Raise RuntimeError).
    { unfold Linear_forward1. rewrite Hcls. cbn [flatten len in_features].
      destruct (Nat.eqb_spec (rows r * cols r) (max_len * d_model)) as [E|E];
        [|reflexivity].
      rewrite Hrr, Hrc in E. nia. }
    exists r. repeat (split; [assumption|]).
    unfold EncoderOnlyTrans.forward. rewrite Hr. cbn [bind]. exact Hfail.
  - intros Hh Hv Hl.
    destruct (EncoderOnly_residual_ok _ _ _ _ _ _ token_ids Hinit Hh Hv)
      as (r & Hr & Hrr & Hrc); [lia|].
    unfold EncoderOnlyTrans.forward. rewrite Hr. cbn [bind].
    unfold Linear_forward1. rewrite Hcls. cbn [flatten len in_features].
    rewrite Hrr, Hrc, Hl, Nat.eqb_refl. eexists. split; reflexivity.
Qed.

(* ================================================================== *)
(** * [DecoderOnlyTrans.ipynb]: forward pass and greedy prediction *)

Lemma argmax_upto_le (n : nat) (f : nat -> R) : (argmax_upto n f <= n)%nat.
Proof.
  induction n as [|n IH]; cbn [argmax_upto]; [lia|].
  destruct (Rlt_dec _ _); lia.
Qed.

(** A strict maximum is what [torch.argmax] returns. *)
Lemma argmax_upto_strict_max (n p : nat) (f : nat -> R) :
  (p <= n)%nat ->
  (forall j, (j <= n)%nat -> j <> p -> f j < f p) ->
  argmax_upto n f = p.
Proof.
  induction n as [|n IH]; intros Hp Hmax; cbn [argmax_upto]; [lia|].
  destruct (Nat.eq_dec p (S n)) as [->|Hne].
  - destruct (Rlt_dec _ _) as [_|Hn]; [reflexivity|].
    exfalso. apply Hn. apply Hmax.
    + pose proof (argmax_upto_le n f). lia.
    + pose proof (argmax_upto_le n f). lia.
  - rewrite IH by (try lia; intros; apply Hmax; lia).
    destruct (Rlt_dec _ _) as [Hlt|_]; [|reflexivity].
    assert (f (S n) < f p) by (apply Hmax; lia). lra.
Qed.

Lemma argmax_ok (v : Vector) :
  (1 <= len v)%nat ->
  argmax v = Ok (argmax_upto (len v - 1) (elt v))
  /\ (argmax_upto (len v - 1) (elt v) < len v)%nat.
Proof.
  intros H. unfold argmax. destruct (len v) as [|n] eqn:E; [lia|].
  cbn [Nat.sub]. rewrite Nat.sub_0_r. split; [reflexivity|].
  pose proof (argmax_upto_le n (elt v)). lia.
Qed.

Lemma DecoderOnly_init_inv (num_tokens d_model max_len : nat)
  (w : DecoderOnlyTrans.Weights) (m : DecoderOnlyTrans.DecoderOnlyTransformer) :
  DecoderOnlyTrans.init num_tokens d_model max_len w = Ok m ->
  exists pe,
    PositionEncoding_init d_model max_len = Ok pe
    /\ rows pe = max_len /\ cols pe = d_model
    /\ m = DecoderOnlyTrans.mkDecoderOnlyTransformer
             (mkEmbedding num_tokens d_model (DecoderOnlyTrans.we_w w)) pe
             (Attention_of d_model (DecoderOnlyTrans.att_w w))
             (mkLinear d_model num_tokens (DecoderOnlyTrans.fc_w w)
                (Some (DecoderOnlyTrans.fc_b w))).
Proof.
  unfold DecoderOnlyTrans.init. intros H.
  apply bind_ok in H as (pe & Hpe & H). apply Ok_inj in H. subst m.
  destruct (PositionEncoding_init_shape _ _ _ Hpe) as [Hr Hc].
  exists pe. auto.
Qed.

(** [DecoderOnlyTransformer.forward] on valid tokens that the position
    table covers: the logits, entry by entry. *)
Lemma DecoderOnly_forward_explicit (num_tokens d_model max_len : nat)
  (w : DecoderOnlyTrans.Weights) (m : DecoderOnlyTrans.DecoderOnlyTransformer)
  (token_ids : list nat) :
  DecoderOnlyTrans.init num_tokens d_model max_len w = Ok m ->
  forallb (fun t => (t <? num_tokens)%nat) token_ids = true ->
  (length token_ids <= max_len)%nat ->
  exists x sa out,
    DecoderOnlyTrans.Attention_forward (DecoderOnlyTrans.attention m) x x x
      (Some (causal_mask (length token_ids))) = Ok sa
    /\ DecoderOnlyTrans.forward m token_ids = Ok out
    /\ rows out = length token_ids /\ cols out = num_tokens
    /\ (forall i j, (i < length token_ids)%nat -> (j < d_model)%nat ->
          val x i j
          = DecoderOnlyTrans.we_w w (nth i token_ids O) j
            + val (DecoderOnlyTrans.pe m) i j)
    /\ (forall i c,
          val sa i c
          = Rsum (length token_ids) (fun j =>
              val (softmax (masked_scores
                     (project (wq (DecoderOnlyTrans.att_w w)) d_model x)
                     (project (wk (DecoderOnlyTrans.att_w w)) d_model x)
                     (Some (causal_mask (length token_ids))))) i j
              * val (project (wv (DecoderOnlyTrans.att_w w)) d_model x) j c))
    /\ (forall i t, (i < length token_ids)%nat ->
          val out i t
          = Rsum d_model (fun c =>
              (val x i c + val sa i c) * DecoderOnlyTrans.fc_w w t c)
            + DecoderOnlyTrans.fc_b w t).
Proof.
  intros Hinit Hv Hl.
  apply DecoderOnly_init_inv in Hinit as (pe & _ & Hr & Hc & ->).
  cbn [DecoderOnlyTrans.attention DecoderOnlyTrans.pe].
  destruct (embed_and_encode_ok (mkEmbedding num_tokens d_model
              (DecoderOnlyTrans.we_w w)) pe token_ids Hv)
    as (x & Hx & Hxr & Hxc & Hxv); [cbn; lia | exact Hc |].
  cbn [embedding_dim emb_weight] in Hxc, Hxv.
  pose proof (Attention_forward_explicit d_model (DecoderOnlyTrans.att_w w)
                x x x (Some (causal_mask (length token_ids)))
                Hxc Hxc Hxc eq_refl) as Hsa.
  rewrite Hxr in Hsa. specialize (Hsa (causal_mask_fits _)).
  match type of Hsa with _ = Ok ?t => set (sa := t) in * end.
  exists x, sa. eexists. split; [exact Hsa|]. split.
  { unfold DecoderOnlyTrans.forward.
    cbn [DecoderOnlyTrans.we DecoderOnlyTrans.pe DecoderOnlyTrans.attention
         DecoderOnlyTrans.fc].
    apply bind_ok in Hx as (emb & He & Hp).
    rewrite He. cbn [bind]. rewrite Hp. cbn [bind].
    change (DecoderOnlyTrans.Attention_forward
              (Attention_of d_model (DecoderOnlyTrans.att_w w)) x x x
              (Some (causal_mask (length token_ids))))
      with (Attention_forward
              (Attention_of d_model (DecoderOnlyTrans.att_w w)) x x x
              (Some (causal_mask (length token_ids)))).
    rewrite Hsa. cbn [bind].
    rewrite tensor_add_ok by (unfold sa; cbn [rows cols]; congruence).
    cbn [bind].
    rewrite Linear_forward_ok by (cbn [cols in_features]; exact Hxc).
    reflexivity. }
  cbn [rows cols val in_features out_features weight bias_at bias].
  split; [exact Hxr|]. split; [reflexivity|]. split; [exact Hxv|].
  split; [reflexivity|].
  intros i t Hi. f_equal. apply Rsum_ext. intros c Hcl.
  change (rows sa) with (length token_ids). change (cols sa) with d_model.
  rewrite Hxr, Hxc, !(bidx_lt _ i Hi), !(bidx_lt _ c Hcl). reflexivity.
Qed.

(** The greedy prediction of the model on a non-empty valid input. *)
Lemma DecoderOnly_predict_ok (num_tokens d_model max_len : nat)
  (w : DecoderOnlyTrans.Weights) (m : DecoderOnlyTrans.DecoderOnlyTransformer)
  (token_ids : list nat) :
  DecoderOnlyTrans.init num_tokens d_model max_len w = Ok m ->
  (1 <= num_tokens)%nat ->
  forallb (fun t => (t <? num_tokens)%nat) token_ids = true ->
  (1 <= length token_ids <= max_len)%nat ->
  exists out,
    DecoderOnlyTrans.forward m token_ids = Ok out
    /\ DecoderOnlyTrans.predict (DecoderOnlyTrans.forward m) token_ids
       = Ok (argmax_upto (num_tokens - 1)
               (fun t => val out (length token_ids - 1) t))
    /\ (argmax_upto (num_tokens - 1)
          (fun t => val out (length token_ids - 1) t) < num_tokens)%nat.
Proof.
  intros Hinit Hn Hv [Hl1 Hl2].
  destruct (DecoderOnly_forward_explicit _ _ _ _ _ token_ids Hinit Hv Hl2)
    as (x & sa & out & _ & Hout & Hr & Hc & _).
  exists out. split; [exact Hout|].
  unfold DecoderOnlyTrans.predict. rewrite Hout. cbn [bind].
  unfold select_last. rewrite Hr.
  destruct (length token_ids) as [|l] eqn:El; [lia|]. cbn [bind].
  replace (S l - 1)%nat with l by lia.
  match goal with |- argmax ?v = _ /\ _ =>
    destruct (argmax_ok v) as [Ha Hb]; [cbn [len]; lia|];
    cbn [len elt] in Ha, Hb; rewrite Hc in Ha, Hb end.
  rewrite Hc. split; assumption.
Qed.

(* ================================================================== *)
(** * The generation cells of [DecoderOnlyTrans.ipynb] *)

Lemma generation_order_shape (model : list nat -> result Tensor)
  (n : nat) (input : list nat) (p : nat) (order : list nat) :
  DecoderOnlyTrans.generation_order model n input p = Ok order ->
  exists rest, order = p :: rest /\ (length rest <= n)%nat.
Proof.
  revert input p order. induction n as [|n IH]; intros input p order H.
  - cbn in H. apply Ok_inj in H. subst. exists []. split; [reflexivity|cbn; lia].
  - cbn [DecoderOnlyTrans.generation_order] in H.
    destruct (p =? DecoderOnlyTrans.EOS)%nat.
    + apply Ok_inj in H. subst. exists []. split; [reflexivity|cbn; lia].
    + apply bind_ok in H as (p' & Hp & H). apply bind_ok in H as (rest & Hr & H).
      apply Ok_inj in H. subst. exists rest. split; [reflexivity|].
      apply IH in Hr as (rest' & -> & Hlen). cbn [length]. lia.
Qed.

Lemma last_cons_default (x : nat) (l : list nat) (d d' : nat) :
  last (x :: l) d = last (x :: l) d'.
Proof.
  revert x. induction l as [|y l IH]; intros x; [reflexivity|].
  change (last (y :: l) d = last (y :: l) d'). apply IH.
Qed.

(** The loop of the cells run after training appends the tokens in the
    order they are produced. *)
Lemma loop_after_training_order (model : list nat -> result Tensor)
  (n : nat) (input : list nat) (p : nat) (hist : list nat) :
  DecoderOnlyTrans.loop_after_training model n
    (DecoderOnlyTrans.mkGenState input p (hist ++ [p]))
  = (order <- DecoderOnlyTrans.generation_order model n input p ;;
     Ok (DecoderOnlyTrans.mkGenState (input ++ removelast order)
           (last order p) (hist ++ order))).
Proof.
  revert input p hist. induction n as [|n IH]; intros input p hist.
  - cbn. now rewrite app_nil_r.
  - cbn [DecoderOnlyTrans.loop_after_training
         DecoderOnlyTrans.generation_order
         DecoderOnlyTrans.predicted_id DecoderOnlyTrans.model_input
         DecoderOnlyTrans.predicted_ids].
    destruct (p =? DecoderOnlyTrans.EOS)%nat.
    + cbn. now rewrite app_nil_r.
    + destruct (DecoderOnlyTrans.predict model (input ++ [p])) as [p'|e];
        cbn [bind]; [|reflexivity].
      rewrite IH.
      destruct (DecoderOnlyTrans.generation_order model n (input ++ [p]) p')
        as [rest|e] eqn:Hrest; cbn [bind]; [|reflexivity].
      apply generation_order_shape in Hrest as (rest' & -> & _).
      rewrite (last_cons_default p' rest' p' p).
      change (removelast (p :: p' :: rest')) with (p :: removelast (p' :: rest')).
      change (last (p :: p' :: rest') p) with (last (p' :: rest') p).
      rewrite <- !app_assoc. reflexivity.
Qed.

(** The loop of the cell run before training prepends them. *)
Lemma loop_before_training_order (model : list nat -> result Tensor)
  (n : nat) (input : list nat) (p : nat) (hist : list nat) :
  DecoderOnlyTrans.loop_before_training model n
    (DecoderOnlyTrans.mkGenState input p (p :: rev hist))
  = (order <- DecoderOnlyTrans.generation_order model n input p ;;
     Ok (DecoderOnlyTrans.mkGenState (input ++ removelast order)
           (last order p) (rev (hist ++ order)))).
Proof.
  revert input p hist. induction n as [|n IH]; intros input p hist.
  - cbn. rewrite app_nil_r, rev_app_distr. reflexivity.
  - cbn [DecoderOnlyTrans.loop_before_training
         DecoderOnlyTrans.generation_order
         DecoderOnlyTrans.predicted_id DecoderOnlyTrans.model_input
         DecoderOnlyTrans.predicted_ids].
    destruct (p =? DecoderOnlyTrans.EOS)%nat.
    + cbn. rewrite app_nil_r, rev_app_distr. reflexivity.
    + destruct (DecoderOnlyTrans.predict model (input ++ [p])) as [p'|e];
        cbn [bind]; [|reflexivity].
      change ([p'] ++ p :: rev hist) with (p' :: rev (hist ++ [p]))
        || (cbn [app]; replace (p :: rev hist) with (rev (hist ++ [p]))
              by (rewrite rev_app_distr; reflexivity)).
      rewrite IH.
      destruct (DecoderOnlyTrans.generation_order model n (input ++ [p]) p')
        as [rest|e] eqn:Hrest; cbn [bind]; [|reflexivity].
      apply generation_order_shape in Hrest as (rest' & -> & _).
      rewrite (last_cons_default p' rest' p' p).
      change (removelast (p :: p' :: rest')) with (p :: removelast (p' :: rest')).
      change (last (p :: p' :: rest') p) with (last (p' :: rest') p).
      rewrite <- !app_assoc. reflexivity.
Qed.

(** What the cells of the notebook leave in their variables. *)
Lemma generate_after_training_order (model : list nat -> result Tensor)
  (max_len : nat) (prompt : list nat) :
  DecoderOnlyTrans.generate_after_training model max_len prompt
  = (p <- DecoderOnlyTrans.predict model prompt ;;
     order <- DecoderOnlyTrans.generation_order model
                (max_len - length prompt) prompt p ;;
     Ok (DecoderOnlyTrans.mkGenState (prompt ++ removelast order)
           (last order p) order)).
Proof.
  unfold DecoderOnlyTrans.generate_after_training, DecoderOnlyTrans.prompt_cell.
  destruct (DecoderOnlyTrans.predict model prompt) as [p|e]; cbn [bind];
    [|reflexivity].
  apply (loop_after_training_order model _ prompt p []).
Qed.

Lemma generate_before_training_order (model : list nat -> result Tensor)
  (max_len : nat) (prompt : list nat) :
  DecoderOnlyTrans.generate_before_training model max_len prompt
  = (p <- DecoderOnlyTrans.predict model prompt ;;
     order <- DecoderOnlyTrans.generation_order model
                (max_len - length prompt) prompt p ;;
     Ok (DecoderOnlyTrans.mkGenState (prompt ++ removelast order)
           (last order p) (rev order))).
Proof.
  unfold DecoderOnlyTrans.generate_before_training, DecoderOnlyTrans.prompt_cell.
  destruct (DecoderOnlyTrans.predict model prompt) as [p|e]; cbn [bind];
    [|reflexivity].
  apply (loop_before_training_order model _ prompt p []).
Qed.

(** The sample model predicts [awesome] after [<EOS>] and [is] after any
    other token. *)
Lemma sample_predict (m : DecoderOnlyTrans.DecoderOnlyTransformer)
  (token_ids : list nat) :
  DecoderOnlyTrans.init 5 2 6 sample_decoder_only_weights = Ok m ->
  forallb (fun t => (t <? 5)%nat) token_ids = true ->
  (1 <= length token_ids <= 6)%nat ->
  DecoderOnlyTrans.predict (DecoderOnlyTrans.forward m) token_ids
  = Ok (if (nth (length token_ids - 1) token_ids O =? 4)%nat
        then 3%nat else 1%nat).
Proof.
  intros Hinit Hv Hl.
  assert (H5 : (1 <= 5)%nat) by lia.
  destruct (DecoderOnly_predict_ok 5 2 6 _ m token_ids Hinit H5 Hv Hl)
    as (out & Hout & Hp & _).
  rewrite Hp. f_equal.
  destruct (DecoderOnly_forward_explicit 5 2 6 _ m token_ids Hinit Hv
              (proj2 Hl))
    as (x & sa & out' & _ & Hout' & _ & _ & Hx & Hsa & Hval).
  rewrite Hout in Hout'. apply Ok_inj in Hout'. subst out'.
  set (l := (length token_ids - 1)%nat) in *.
  assert (Hll : (l < length token_ids)%nat) by (unfold l; lia).
  destruct (DecoderOnly_init_inv _ _ _ _ _ Hinit) as (pe & Hpe & Hpr & Hpc & Hm).
  assert (Hs : -1 <= val (DecoderOnlyTrans.pe m) l 0 <= 1).
  { rewrite Hm. cbn [DecoderOnlyTrans.pe].
    destruct (PositionEncoding_table 1 6 pe (le_n 1) Hpe l 0%nat) as [E _];
      [lia | lia |].
    change (2 * 0)%nat with 0%nat in E. rewrite E. apply SIN_bound. }
  assert (Hsa0 : forall c, val sa l c = 0).
  { intros c. rewrite Hsa. apply Rsum_zero. intros j _.
    cbn [project val Rsum sample_decoder_only_weights DecoderOnlyTrans.att_w wv].
    ring. }
  assert (Hlog : forall t, val out l t
            = (val x l 0 + 0) * DecoderOnlyTrans.fc_w sample_decoder_only_weights t 0
              + DecoderOnlyTrans.fc_b sample_decoder_only_weights t).
  { intros t. rewrite (Hval l t Hll). cbn [Rsum]. rewrite !Hsa0.
    cbn [sample_decoder_only_weights DecoderOnlyTrans.fc_w Nat.eqb]. ring. }
  assert (Hx0 : val x l 0
            = (if (nth l token_ids O =? 4)%nat then 10 else -10)
              + val (DecoderOnlyTrans.pe m) l 0).
  { rewrite Hx by lia. reflexivity. }
  set (s := val (DecoderOnlyTrans.pe m) l 0) in *.
  apply argmax_upto_strict_max.
  - destruct (nth l token_ids O =? 4)%nat; lia.
  - intros j Hj Hne. rewrite !Hlog, Hx0.
    cbn [sample_decoder_only_weights DecoderOnlyTrans.fc_w
         DecoderOnlyTrans.fc_b].
    destruct (nth l token_ids O =? 4)%nat;
      destruct j as [|[|[|[|[|j]]]]]; try lia; try contradiction;
      cbn [Nat.eqb orb]; lra.
Qed.

(** The sample model on the sample prompt: it produces [awesome], then
    [is], then [is]. *)
Lemma sample_generation (m : DecoderOnlyTrans.DecoderOnlyTransformer) :
  DecoderOnlyTrans.init 5 2 6 sample_decoder_only_weights = Ok m ->
  DecoderOnlyTrans.predict (DecoderOnlyTrans.forward m) sample_prompt
  = Ok 3%nat
  /\ DecoderOnlyTrans.generation_order (DecoderOnlyTrans.forward m)
       (DecoderOnlyTrans.cell_max_len - length sample_prompt) sample_prompt 3
     = Ok [3; 1; 1]%nat.
Proof.
  intros Hinit.
  assert (H0 : DecoderOnlyTrans.predict (DecoderOnlyTrans.forward m)
                 sample_prompt = Ok 3%nat).
  { rewrite (sample_predict m sample_prompt Hinit eq_refl); [reflexivity|].
    cbn; lia. }
  split; [exact H0|].
  cbn [DecoderOnlyTrans.cell_max_len sample_prompt length Nat.sub
       DecoderOnlyTrans.generation_order Nat.eqb DecoderOnlyTrans.EOS app].
  rewrite (sample_predict m [0; 1; 2; 4; 3]%nat Hinit eq_refl) by (cbn; lia).
  cbn [length Nat.sub nth Nat.eqb bind app].
  rewrite (sample_predict m [0; 1; 2; 4; 3; 1]%nat Hinit eq_refl) by (cbn; lia).
  reflexivity.
Qed.

Lemma sample_decoder_only_init :
  exists m, DecoderOnlyTrans.init 5 2 6 sample_decoder_only_weights = Ok m.
Proof.
  unfold DecoderOnlyTrans.init.
  pose proof (PositionEncoding_init_even 1 6 (le_n 1)) as E.
  change (2 * 1)%nat with 2%nat in E. rewrite E. eexists. reflexivity.
Qed.

(** C4 on the cell run before training: the sample model produces
    [awesome; is; is] in that order -- the cell run after training emits
    exactly this -- and the cell run before training emits [is; is; awesome],
    the reverse. *)
Theorem generation_before_training_emits_reverse_order :
  exists m,
    DecoderOnlyTrans.init 5 2 6 sample_decoder_only_weights = Ok m
    /\ DecoderOnlyTrans.predict (DecoderOnlyTrans.forward m) sample_prompt
       = Ok 3%nat
    /\ DecoderOnlyTrans.generation_order (DecoderOnlyTrans.forward m)
         (DecoderOnlyTrans.cell_max_len - length sample_prompt) sample_prompt 3
       = Ok [3; 1; 1]%nat
    /\ DecoderOnlyTrans.generate_after_training (DecoderOnlyTrans.forward m)
         DecoderOnlyTrans.cell_max_len sample_prompt
       = Ok (DecoderOnlyTrans.mkGenState [0; 1; 2; 4; 3; 1]%nat 1%nat
               [3; 1; 1]%nat)
    /\ DecoderOnlyTrans.generate_before_training (DecoderOnlyTrans.forward m)
         DecoderOnlyTrans.cell_max_len sample_prompt
       = Ok (DecoderOnlyTrans.mkGenState [0; 1; 2; 4; 3; 1]%nat 1%nat
               [1; 1; 3]%nat).
Proof.
  destruct sample_decoder_only_init as [m Hinit]. exists m.
  destruct (sample_generation m Hinit) as [H0 Hord].
  split; [exact Hinit|]. split; [exact H0|]. split; [exact Hord|]. split.
  - rewrite generate_after_training_order, H0. cbn [bind].
    rewrite Hord. reflexivity.
  - rewrite generate_before_training_order, H0. cbn [bind].
    rewrite Hord. reflexivity.
Qed.

(* ================================================================== *)
(** * Termination and length of the generation loops *)

Lemma forallb_snoc (f : nat -> bool) (l : list nat) (x : nat) :
  forallb f l = true -> f x = true -> forallb f (l ++ [x]) = true.
Proof. intros Hl Hx. rewrite forallb_app, Hl. cbn. now rewrite Hx. Qed.

(** With the model of the notebook every prediction of the loop succeeds. *)
Lemma DecoderOnly_generation_order_ok (num_tokens d_model max_len : nat)
  (w : DecoderOnlyTrans.Weights) (m : DecoderOnlyTrans.DecoderOnlyTransformer) :
  DecoderOnlyTrans.init num_tokens d_model max_len w = Ok m ->
  (1 <= num_tokens)%nat ->
  forall n input p,
    forallb (fun t => (t <? num_tokens)%nat) input = true ->
    (p < num_tokens)%nat ->
    (length input + n <= max_len)%nat ->
    exists order,
      DecoderOnlyTrans.generation_order (DecoderOnlyTrans.forward m) n input p
      = Ok order.
Proof.
  intros Hinit Hn. induction n as [|n IH]; intros input p Hv Hp Hl.
  - eexists. reflexivity.
  - cbn [DecoderOnlyTrans.generation_order].
    destruct (p =? DecoderOnlyTrans.EOS)%nat; [eexists; reflexivity|].
    assert (Hv' : forallb (fun t => (t <? num_tokens)%nat) (input ++ [p]) = true).
    { apply forallb_snoc; [exact Hv | now apply Nat.ltb_lt]. }
    destruct (DecoderOnly_predict_ok _ _ _ _ _ (input ++ [p]) Hinit Hn Hv')
      as (out & _ & Hpred & Hlt).
    { rewrite length_app. cbn [length]. lia. }
    rewrite Hpred. cbn [bind].
    destruct (IH (input ++ [p]) _ Hv' Hlt) as (rest & Hrest).
    { rewrite length_app. cbn [length]. lia. }
    rewrite Hrest. eexists. reflexivity.
Qed.

Lemma Transformer_init_inv (num_tokens d_model max_len : nat)
  (w : Transformer.Weights) (m : Transformer.t) :
  Transformer.init num_tokens d_model max_len w = Ok m ->
  exists enc dec,
    Transformer.Encoder.init num_tokens d_model max_len
      (Transformer.enc_we_w w) (Transformer.enc_att_w w) = Ok enc
    /\ Transformer.Decoder.init num_tokens d_model max_len
         (Transformer.dec_we_w w) (Transformer.dec_self_w w)
         (Transformer.dec_cross_w w) = Ok dec
    /\ m = Transformer.mk enc dec
             (mkLinear d_model num_tokens (Transformer.fc_w w)
                (Some (Transformer.fc_b w))) max_len.
Proof.
  unfold Transformer.init. intros H.
  apply bind_ok in H as (enc & Henc & H). apply bind_ok in H as (dec & Hdec & H).
  apply Ok_inj in H. exists enc, dec. auto.
Qed.

(** One decoding step of [Transformer.generate]: the decoder runs on the
    target so far and the argmax of the last position is a token id. *)
Lemma Transformer_decode_step_ok (num_tokens d_model max_len : nat)
  (w : Transformer.Weights) (m : Transformer.t) (ctx : Tensor)
  (target : list nat) :
  Transformer.init num_tokens d_model max_len w = Ok m ->
  (1 <= num_tokens)%nat -> cols ctx = d_model ->
  forallb (fun t => (t <? num_tokens)%nat) target = true ->
  (1 <= length target <= max_len)%nat ->
  exists r,
    Transformer.Decoder.forward (Transformer.decoder m) target ctx ctx = Ok r
    /\ rows r = length target /\ cols r = d_model
    /\ (exists p,
          (fc_layer_out <- Linear_forward (Transformer.fc m) (last_row r) ;;
           argmax (flatten fc_layer_out)) = Ok p /\ (p < num_tokens)%nat)
    /\ (length target = 1%nat ->
        exists p,
          (fc_layer_out <- Linear_forward (Transformer.fc m) r ;;
           argmax (flatten fc_layer_out)) = Ok p /\ (p < num_tokens)%nat).
Proof.
  intros Hinit Hn Hc Hv [Hl1 Hl2].
  apply Transformer_init_inv in Hinit as (enc & dec & _ & Hdec & ->).
  cbn [Transformer.decoder Transformer.fc].
  destruct (Decoder_forward_explicit _ _ _ _ _ _ dec target ctx ctx Hdec Hv Hl2
              Hc Hc eq_refl)
    as (x & sa & r0 & ca & r & _ & _ & _ & _ & _ & Hr & Hrr & Hrc & _).
  exists r. split; [exact Hr|]. split; [exact Hrr|]. split; [exact Hrc|]. split.
  - rewrite Linear_forward_ok by (cbn [last_row cols in_features]; exact Hrc).
    cbn [bind].
    match goal with |- exists p, argmax ?v = _ /\ _ =>
      destruct (argmax_ok v) as [Ha Hb] end.
    { cbn [flatten len last_row rows cols out_features]. rewrite Hrr.
      rewrite Nat.min_l by lia. lia. }
    eexists. split; [exact Ha|].
    cbn [flatten len last_row rows cols out_features] in Hb |- *.
    rewrite Hrr, Nat.min_l in Hb |- * by lia. lia.
  - intros H1.
    rewrite Linear_forward_ok by (cbn [cols in_features]; exact Hrc).
    cbn [bind].
    match goal with |- exists p, argmax ?v = _ /\ _ =>
      destruct (argmax_ok v) as [Ha Hb] end.
    { cbn [flatten len rows cols out_features]. rewrite Hrr, H1. lia. }
    eexists. split; [exact Ha|].
    cbn [flatten len rows cols out_features] in Hb |- *.
    rewrite Hrr, H1 in Hb |- *. lia.
Qed.

(** The loop of [Transformer.generate] returns, and what it returns
    extends the target by at most one token per iteration. *)
Lemma Transformer_generate_loop_ok (num_tokens d_model max_len : nat)
  (w : Transformer.Weights) (m : Transformer.t) (ctx : Tensor) :
  Transformer.init num_tokens d_model max_len w = Ok m ->
  (1 <= num_tokens)%nat -> cols ctx = d_model ->
  forall n target p,
    forallb (fun t => (t <? num_tokens)%nat) target = true ->
    (p < num_tokens)%nat ->
    (1 <= length target)%nat -> (length target + n <= max_len)%nat ->
    exists out rest,
      Transformer.generate_loop m ctx n target p = Ok out
      /\ out = target ++ rest /\ (length rest <= n)%nat.
Proof.
  intros Hinit Hn Hc. induction n as [|n IH]; intros target p Hv Hp Hl1 Hl.
  - exists target, []. cbn. now rewrite app_nil_r.
  - cbn [Transformer.generate_loop].
    destruct (p =? Transformer.EOS)%nat.
    + exists (target ++ [p]), [p]. cbn [length]. repeat split; lia.
    + assert (Hv' : forallb (fun t => (t <? num_tokens)%nat) (target ++ [p])
                    = true).
      { apply forallb_snoc; [exact Hv | now apply Nat.ltb_lt]. }
      assert (Hlen : length (target ++ [p]) = S (length target)).
      { rewrite length_app. cbn [length]. lia. }
      destruct (Transformer_decode_step_ok _ _ _ _ _ ctx (target ++ [p])
                  Hinit Hn Hc Hv')
        as (r & Hr & _ & _ & (p' & Hp' & Hlt) & _); [lia|].
      rewrite Hr. cbn [bind].
      apply bind_ok in Hp' as (o & Ho & Ha). rewrite Ho. cbn [bind].
      rewrite Ha. cbn [bind].
      destruct (IH (target ++ [p]) p' Hv' Hlt) as (out & rest & Hout & -> & Hrl);
        [lia | lia |].
      exists ((target ++ [p]) ++ rest), (p :: rest).
      split; [exact Hout|]. split; [now rewrite <- app_assoc|].
      cbn [length]. lia.
Qed.

(** C8 as stated fails in the decoder-only cells: with the 4-token sample
    prompt and [max_len = 6] the sample model never produces [<EOS>], the
    model input stops at 6 tokens, and 3 tokens are generated: prompt plus
    generated tokens are 7. *)
Lemma generated_tokens_exceed_max_len :
  exists m s,
    DecoderOnlyTrans.init 5 2 6 sample_decoder_only_weights = Ok m
    /\ DecoderOnlyTrans.generate_after_training (DecoderOnlyTrans.forward m)
         DecoderOnlyTrans.cell_max_len sample_prompt = Ok s
    /\ length (DecoderOnlyTrans.model_input s) = DecoderOnlyTrans.cell_max_len
    /\ (DecoderOnlyTrans.cell_max_len
        < length sample_prompt + length (DecoderOnlyTrans.predicted_ids s))%nat.
Proof.
  destruct sample_decoder_only_init as [m Hinit]. exists m.
  destruct (sample_generation m Hinit) as [H0 Hord].
  eexists. split; [exact Hinit|]. split.
  - rewrite generate_after_training_order, H0. cbn [bind].
    rewrite Hord. reflexivity.
  - unfold DecoderOnlyTrans.cell_max_len. cbn. split; [reflexivity | lia].
Qed.

(** What both generation cells leave behind on the notebook's model. *)
Lemma DecoderOnly_generate_ok (num_tokens d_model max_len : nat)
  (w : DecoderOnlyTrans.Weights) (m : DecoderOnlyTrans.DecoderOnlyTransformer)
  (prompt : list nat) :
  DecoderOnlyTrans.init num_tokens d_model max_len w = Ok m ->
  (1 <= num_tokens)%nat ->
  forallb (fun t => (t <? num_tokens)%nat) prompt = true ->
  (1 <= length prompt <= max_len)%nat ->
  exists p order,
    DecoderOnlyTrans.generation_order (DecoderOnlyTrans.forward m)
      (max_len - length prompt) prompt p = Ok order
    /\ (length order <= max_len - length prompt + 1)%nat
    /\ DecoderOnlyTrans.generate_after_training (DecoderOnlyTrans.forward m)
         max_len prompt
       = Ok (DecoderOnlyTrans.mkGenState (prompt ++ removelast order)
               (last order p) order)
    /\ DecoderOnlyTrans.generate_before_training (DecoderOnlyTrans.forward m)
         max_len prompt
       = Ok (DecoderOnlyTrans.mkGenState (prompt ++ removelast order)
               (last order p) (rev order))
    /\ (length (prompt ++ removelast order) <= max_len)%nat.
Proof.
  intros Hinit Hn Hv Hl.
  destruct (DecoderOnly_predict_ok _ _ _ _ _ prompt Hinit Hn Hv Hl)
    as (out & _ & Hp & Hlt).
  destruct (DecoderOnly_generation_order_ok _ _ _ _ _ Hinit Hn
              (max_len - length prompt) prompt _ Hv Hlt) as (order & Hord);
    [lia|].
  destruct (generation_order_shape _ _ _ _ _ Hord) as (rest & Erest & Hrest).
  eexists. exists order. split; [exact Hord|]. split.
  { rewrite Erest. cbn [length]. lia. }
  split.
  { rewrite generate_after_training_order, Hp. cbn [bind].
    rewrite Hord. reflexivity. }
  split.
  { rewrite generate_before_training_order, Hp. cbn [bind].
    rewrite Hord. reflexivity. }
  rewrite length_app.
  assert (length (removelast order) <= length rest)%nat.
  { rewrite Erest. clear. revert rest.
    intros rest. generalize (argmax_upto (num_tokens - 1)
      (fun t : nat => val out (length prompt - 1) t)) as a.
    induction rest as [|y rest IH]; intros a; [cbn; lia|].
    change (removelast (a :: y :: rest)) with (a :: removelast (y :: rest)).
    cbn [length]. specialize (IH y). lia. }
  lia.
Qed.

(** [Transformer.generate] returns a target that starts with [<SOS>] and
    has at most [max_len] tokens. *)
Lemma Transformer_generate_ok (num_tokens d_model max_len : nat)
  (w : Transformer.Weights) (m : Transformer.t) (src_token_ids : list nat) :
  Transformer.init num_tokens d_model max_len w = Ok m ->
  (1 <= num_tokens)%nat -> (1 <= max_len)%nat ->
  forallb (fun t => (t <? num_tokens)%nat) src_token_ids = true ->
  (length src_token_ids <= max_len)%nat ->
  exists rest,
    Transformer.generate m src_token_ids = Ok (Transformer.SOS :: rest)
    /\ (length (Transformer.SOS :: rest) <= max_len)%nat.
Proof.
  intros Hinit Hn Hm Hv Hl.
  destruct (Transformer_init_inv _ _ _ _ _ Hinit) as (enc & dec & Henc & Hdec & E).
  destruct (Encoder_forward_ok _ _ _ _ _ enc src_token_ids Henc Hv Hl)
    as (ctx & Hctx & _ & Hcc).
  assert (Hsos : forallb (fun t => (t <? num_tokens)%nat) [Transformer.SOS]
                 = true).
  { cbn [forallb]. rewrite andb_true_r. apply Nat.ltb_lt.
    unfold Transformer.SOS. lia. }
  destruct (Transformer_decode_step_ok _ _ _ _ _ ctx [Transformer.SOS]
              Hinit Hn Hcc Hsos) as (r & Hr & _ & _ & _ & Hfirst);
    [cbn; lia|].
  destruct (Hfirst eq_refl) as (p & Hp & Hlt).
  apply bind_ok in Hp as (o & Ho & Ha).
  destruct (Transformer_generate_loop_ok _ _ _ _ _ ctx Hinit Hn Hcc
              (max_len - 1) [Transformer.SOS] p Hsos Hlt)
    as (out & rest & Hout & -> & Hrl); [cbn; lia | cbn; lia |].
  exists rest. split.
  - unfold Transformer.generate.
    replace (Transformer.encoder m) with enc by (rewrite E; reflexivity).
    rewrite Hctx. cbn [bind]. rewrite Hr. cbn [bind]. rewrite Ho. cbn [bind].
    rewrite Ha. cbn [bind].
    replace (Transformer.max_len m) with max_len by (rewrite E; reflexivity).
    exact Hout.
  - cbn [length]. lia.
Qed.

(** On an empty prompt the first cell raises: the logits have no row. *)
Lemma DecoderOnly_empty_prompt_raises (num_tokens d_model max_len : nat)
  (w : DecoderOnlyTrans.Weights) (m : DecoderOnlyTrans.DecoderOnlyTransformer) :
  DecoderOnlyTrans.init num_tokens d_model max_len w = Ok m ->
  DecoderOnlyTrans.prompt_cell (DecoderOnlyTrans.forward m) []
  = Raise IndexError.
Proof.
  intros Hinit.
  destruct (DecoderOnly_forward_explicit _ _ _ _ _ [] Hinit eq_refl
              (Nat.le_0_l _)) as (x & sa & out & _ & Hout & Hr & _).
  unfold DecoderOnlyTrans.prompt_cell, DecoderOnlyTrans.predict.
  rewrite Hout. cbn [bind]. unfold select_last. rewrite Hr. reflexivity.
Qed.

(** C8, amended.  Every generation loop is a bounded [for] loop and, on a
    model built by its constructor with at least one token id and a valid
    prompt that the position table covers, every step of it succeeds: the
    loop returns.  The sequence fed to the model never exceeds [max_len]
    tokens, whether or not [<EOS>] is produced.  In the decoder-only cells
    the last prediction is emitted without being fed back, so prompt plus
    generated tokens are at most [max_len + 1]; in [Transformer.generate]
    the printed target, [<SOS>] included, has at most [max_len] tokens. *)
Theorem generation_loops_terminate_within_max_len :
  (forall (num_tokens d_model max_len : nat) (w : DecoderOnlyTrans.Weights)
          (m : DecoderOnlyTrans.DecoderOnlyTransformer) (prompt : list nat),
     DecoderOnlyTrans.init num_tokens d_model max_len w = Ok m ->
     forallb (fun t => (t <? num_tokens)%nat) prompt = true ->
     (1 <= length prompt <= max_len)%nat ->
     exists s_after s_before,
       DecoderOnlyTrans.generate_after_training (DecoderOnlyTrans.forward m)
         max_len prompt = Ok s_after
       /\ DecoderOnlyTrans.generate_before_training (DecoderOnlyTrans.forward m)
            max_len prompt = Ok s_before
       /\ DecoderOnlyTrans.model_input s_before
          = DecoderOnlyTrans.model_input s_after
       /\ (length (DecoderOnlyTrans.model_input s_after) <= max_len)%nat
       /\ (length prompt + length (DecoderOnlyTrans.predicted_ids s_after)
           <= max_len + 1)%nat
       /\ length (DecoderOnlyTrans.predicted_ids s_before)
          = length (DecoderOnlyTrans.predicted_ids s_after))
  /\ (forall (num_tokens d_model max_len : nat) (w : Transformer.Weights)
             (m : Transformer.t) (src_token_ids : list nat),
        Transformer.init num_tokens d_model max_len w = Ok m ->
        (1 <= num_tokens)%nat -> (1 <= max_len)%nat ->
        forallb (fun t => (t <? num_tokens)%nat) src_token_ids = true ->
        (length src_token_ids <= max_len)%nat ->
        exists rest,
          Transformer.generate m src_token_ids = Ok (Transformer.SOS :: rest)
          /\ (length (Transformer.SOS :: rest) <= max_len)%nat).
Proof.
  split.
  - intros num_tokens d_model max_len w m prompt Hinit Hv Hl.
    assert (Hn : (1 <= num_tokens)%nat).
    { destruct prompt as [|t prompt]; [cbn in Hl; lia|].
      cbn [forallb] in Hv. apply andb_prop in Hv as [Ht _].
      apply Nat.ltb_lt in Ht. lia. }
    destruct (DecoderOnly_generate_ok _ _ _ _ _ prompt Hinit Hn Hv Hl)
      as (p & order & _ & Hlen & Ha & Hb & Hin).
    do 2 eexists. split; [exact Ha|]. split; [exact Hb|].
    cbn [DecoderOnlyTrans.model_input DecoderOnlyTrans.predicted_ids].
    split; [reflexivity|]. split; [exact Hin|]. split; [lia|].
    apply length_rev.
  - intros. now apply (Transformer_generate_ok num_tokens d_model max_len w).
Qed.

Lemma sample_transformer_init :
  exists m, Transformer.init 6 2 5 sample_transformer_weights = Ok m.
Proof.
  unfold Transformer.init, Transformer.Encoder.init, Transformer.Decoder.init.
  pose proof (PositionEncoding_init_even 1 5 (le_n 1)) as E.
  change (2 * 1)%nat with 2%nat in E. rewrite E. eexists. reflexivity.
Qed.

Lemma generation_loops_terminate_within_max_len_witness :
  (exists m s,
     DecoderOnlyTrans.init 5 2 6 sample_decoder_only_weights = Ok m
     /\ DecoderOnlyTrans.generate_after_training (DecoderOnlyTrans.forward m)
          6 sample_prompt = Ok s
     /\ (length (DecoderOnlyTrans.model_input s) <= 6)%nat)
  /\ (exists m rest,
        Transformer.init 6 2 5 sample_transformer_weights = Ok m
        /\ Transformer.generate m [1; 2]%nat = Ok (Transformer.SOS :: rest)
        /\ (length (Transformer.SOS :: rest) <= 5)%nat).
Proof.
  split.
  - destruct sample_decoder_only_init as [m Hinit].
    destruct (proj1 generation_loops_terminate_within_max_len 5%nat 2%nat
                6%nat sample_decoder_only_weights m sample_prompt Hinit)
      as (sa & sb & Ha & _ & _ & Hl & _).
    + reflexivity.
    + cbn; lia.
    + exists m, sa. auto.
  - destruct sample_transformer_init as [m Hinit].
    destruct (proj2 generation_loops_terminate_within_max_len 6%nat 2%nat
                5%nat sample_transformer_weights m [1; 2]%nat Hinit)
      as (rest & Hg & Hl).
    + lia.
    + lia.
    + reflexivity.
    + cbn; lia.
    + exists m, rest. auto.
Defined.

Lemma sample_encoder_only_init :
  exists m, EncoderOnlyTrans.init 12 2 2 6 sample_encoder_only_weights = Ok m.
Proof.
  unfold EncoderOnlyTrans.init.
  pose proof (PositionEncoding_init_even 1 6 (le_n 1)) as E.
  change (2 * 1)%nat with 2%nat in E. rewrite E. eexists. reflexivity.
Qed.

Lemma encoder_only_forward_needs_max_len_witness :
  exists m,
    EncoderOnlyTrans.init 12 2 2 6 sample_encoder_only_weights = Ok m
    /\ EncoderOnlyTrans.forward m [10; 8; 9]%nat = Raise RuntimeError
    /\ is_ok (EncoderOnlyTrans.forward m [10; 8; 9; 11; 11; 11]%nat).
Proof.
  destruct sample_encoder_only_init as [m Hinit]. exists m.
  split; [exact Hinit|]. split.
  - destruct (encoder_only_forward_needs_max_len 12 2 2 6
                sample_encoder_only_weights m [10; 8; 9]%nat)
      as (_ & Hshort & _); [lia | lia | exact Hinit |].
    destruct Hshort as (r & _ & _ & _ & _ & Hf);
      [lia | reflexivity | cbn; lia | exact Hf].
  - destruct (encoder_only_forward_needs_max_len 12 2 2 6
                sample_encoder_only_weights m [10; 8; 9; 11; 11; 11]%nat)
      as (_ & _ & Hfull); [lia | lia | exact Hinit |].
    destruct Hfull as (out & Hout & _); [lia | reflexivity | reflexivity |].
    exists out. exact Hout.
Defined.

Lemma transformer_forward_splits_at_sos_witness :
  exists m,
    Transformer.init 6 2 5 sample_transformer_weights = Ok m
    /\ Transformer.forward m [1; 2]%nat = Raise RuntimeError
    /\ Transformer.forward m [1; 0; 2; 0]%nat = Raise RuntimeError
    /\ Transformer.forward m [1; 2; 5; 0; 1; 2]%nat
       = (contextualised_embeddings <-
            Transformer.Encoder.forward (Transformer.encoder m) [1; 2; 5]%nat ;;
          residual_connection_values <-
            Transformer.Decoder.forward (Transformer.decoder m)
              [0; 1; 2]%nat
              contextualised_embeddings contextualised_embeddings ;;
          Linear_forward (Transformer.fc m) residual_connection_values).
Proof.
  destruct sample_transformer_init as [m Hinit]. exists m.
  split; [exact Hinit|]. split; [|split].
  - apply (proj1 (transformer_forward_splits_at_sos m [1; 2]%nat)).
    cbn. lia.
  - apply (proj1 (transformer_forward_splits_at_sos m [1; 0; 2; 0]%nat)).
    cbn. lia.
  - apply (proj2 (proj2 (transformer_forward_splits_at_sos m
                           [1; 2; 5; 0; 1; 2]%nat)) [1; 2; 5]%nat [1; 2]%nat).
    + reflexivity.
    + cbn. unfold Transformer.SOS. lia.
    + cbn. unfold Transformer.SOS. lia.
Defined.

(* ================================================================== *)
(** * Further properties of the masks, the attention head and the
      position table *)

(** X1.  The mask built by [torch.tril(torch.ones(n, n)) == 0] is an
    [n x n] matrix that is true exactly strictly above the diagonal: a
    position may look at itself and at earlier positions only. *)
Theorem causal_mask_lower_triangular (n i j : nat) :
  (i < n)%nat -> (j < n)%nat ->
  brows (causal_mask n) = n /\ bcols (causal_mask n) = n
  /\ (bval (causal_mask n) i j = true <-> (i < j)%nat)
  /\ (bval (causal_mask n) i j = false <-> (j <= i)%nat).
Proof.
  intros _ _. destruct (causal_mask_shape n) as [Hr Hc].
  split; [exact Hr|]. split; [exact Hc|]. split.
  - apply causal_mask_spec.
  - rewrite causal_mask_ltb. apply Nat.ltb_ge.
Qed.

Lemma causal_mask_lower_triangular_witness :
  bval (causal_mask 3) 0 2 = true /\ bval (causal_mask 3) 2 1 = false.
Proof.
  split.
  - apply (proj1 (proj2 (proj2 (causal_mask_lower_triangular 3 0 2
                                  ltac:(lia) ltac:(lia))))).
    lia.
  - apply (proj2 (proj2 (proj2 (causal_mask_lower_triangular 3 2 1
                                  ltac:(lia) ltac:(lia))))).
    lia.
Defined.

(** X2.  With a single value row, whenever [Attention.forward] returns,
    every output row is the projected value row, with any mask or none:
    the one weight of each row is exactly 1.  The output has one row per
    query, unless a mask with more rows broadcasts a single query. *)
Theorem attention_single_value_row_is_returned (a : Attention)
  (eq ek ev : Tensor) (mask : option BoolTensor) (out : Tensor) :
  rows ev = 1%nat ->
  Attention_forward a eq ek ev mask = Ok out ->
  exists v,
    Linear_forward (W_v a) ev = Ok v
    /\ match mask with
       | None => rows out = rows eq
       | Some m => broadcast_dim (rows eq) (brows m) = Ok (rows out)
       end
    /\ forall i c, (i < rows out)%nat -> (c < cols out)%nat ->
         val out i c = val v 0 c.
Proof.
  intros H1 H.
  destruct (Attention_forward_convex a eq ek ev mask out H) as
    (q & k & v & P & _ & _ & Hv & _ & _ & _ & Hor & _ & Hsh & _ & Hsum & Hval);
    [lia|].
  exists v. split; [exact Hv|]. split.
  - rewrite Hor. destruct mask as [m|]; [exact (proj1 Hsh) | exact (proj1 Hsh)].
  - intros i c _ _. rewrite (Hval i c), H1.
    assert (Hp : val P i 0 = 1).
    { specialize (Hsum i). rewrite H1 in Hsum. cbn [Rsum] in Hsum.
      rewrite <- Hsum. ring. }
    cbn [Rsum]. rewrite Hp. ring.
Qed.

Lemma attention_single_value_row_is_returned_witness :
  exists out v,
    Attention_forward unit_attention one_embedding one_embedding
      one_embedding (Some tall_mask) = Ok out
    /\ Linear_forward (W_v unit_attention) one_embedding = Ok v
    /\ rows out = 3%nat
    /\ val out 2 1 = val v 0 1.
Proof.
  eexists.
  destruct (attention_single_value_row_is_returned unit_attention
              one_embedding one_embedding one_embedding (Some tall_mask) _
              eq_refl eq_refl) as (v & Hv & _ & Hval).
  exists v. split; [reflexivity|]. split; [exact Hv|].
  split; [reflexivity|]. apply Hval; cbn; lia.
Defined.

Lemma Rsum_const (n : nat) (c : R) : Rsum n (fun _ => c) = INR n * c.
Proof.
  induction n as [|n IH]; [cbn; ring|].
  cbn [Rsum]. rewrite IH, S_INR. ring.
Qed.

(** X3.  A row of scores whose mask is true in every column gets the
    uniform weights [1/n] over its [n] columns: the fill value is a finite
    number, so the softmax of a fully masked row is still defined.  The
    columns are those of the scores after the mask is broadcast. *)
Theorem fully_masked_row_is_uniform (q k : Tensor) (m : BoolTensor)
  (P : Tensor) (i : nat) :
  Attention_percents q k (Some m) = Ok P ->
  (1 <= cols P)%nat ->
  (forall j, (j < cols P)%nat ->
     bval m (bidx (brows m) i) (bidx (bcols m) j) = true) ->
  forall j, (j < cols P)%nat -> val P i j = / INR (cols P).
Proof.
  intros H Hk Hall j Hj.
  apply Attention_percents_softmax in H as (sc & -> & _ & _ & _ & Hval).
  cbn [softmax val cols] in *. rewrite Hval, (Hall j Hj).
  rewrite (Rsum_ext (cols sc) _ (fun _ => exp minus_1e9)).
  - rewrite Rsum_const. field.
    split; first [apply not_0_INR; lia | apply Rgt_not_eq, exp_pos].
  - intros c Hc. now rewrite Hval, (Hall c Hc).
Qed.

Lemma fully_masked_row_is_uniform_witness :
  exists P,
    Attention_percents one_embedding one_embedding (Some wide_mask) = Ok P
    /\ cols P = 3%nat
    /\ val P 0 1 = / INR 3.
Proof.
  eexists. split; [reflexivity|]. split; [reflexivity|].
  apply (fully_masked_row_is_uniform one_embedding one_embedding
           wide_mask _ 0 eq_refl).
  - cbn; lia.
  - intros j _. reflexivity.
  - cbn; lia.
Defined.

(** X4.  Every entry of the position table is a sine or a cosine, so it
    lies in [[-1, 1]], and [PositionEncoding.forward] moves each coordinate
    of the embeddings by at most 1. *)
Theorem position_table_entries_bounded (d_model max_len : nat) (pe : Tensor) :
  Nat.Even d_model ->
  PositionEncoding_init d_model max_len = Ok pe ->
  (forall pos j, (pos < max_len)%nat -> (j < d_model)%nat ->
     -1 <= val pe pos j <= 1)
  /\ (forall x out,
        cols x = d_model -> (rows x <= max_len)%nat ->
        PositionEncoding_forward pe x = Ok out ->
        forall i j, (i < rows x)%nat -> (j < d_model)%nat ->
          Rabs (val out i j - val x i j) <= 1).
Proof.
  intros [h ->] Hinit.
  assert (Hb : forall pos j, (pos < max_len)%nat -> (j < 2 * h)%nat ->
                 -1 <= val pe pos j <= 1).
  { intros pos j Hpos Hj.
    assert (Hh : (1 <= h)%nat) by lia.
    destruct (Nat.Even_or_Odd j) as [[i ->]|[i ->]].
    - destruct (PositionEncoding_table h max_len pe Hh Hinit pos i) as [E _];
        [lia | lia |].
      rewrite E. apply SIN_bound.
    - destruct (PositionEncoding_table h max_len pe Hh Hinit pos i) as [_ E];
        [lia | lia |].
      rewrite E. apply COS_bound. }
  split; [exact Hb|].
  intros x out Hc Hr Hout i j Hi Hj.
  destruct (PositionEncoding_init_shape _ _ _ Hinit) as [Hpr Hpc].
  rewrite PositionEncoding_forward_ok in Hout by congruence.
  apply Ok_inj in Hout. subst out. cbn [val].
  rewrite Hc, !(bidx_lt _ i Hi), !(bidx_lt _ j Hj).
  replace (val x i j + val pe i j - val x i j) with (val pe i j) by ring.
  apply Rabs_le. apply Hb; lia.
Qed.

Lemma position_table_entries_bounded_witness :
  exists pe,
    PositionEncoding_init 2 6 = Ok pe /\ -1 <= val pe 3 1 <= 1.
Proof.
  eexists. split; [apply (PositionEncoding_init_even 1 6); lia|].
  refine (proj1 (position_table_entries_bounded 2 6 _ _ _) 3%nat 1%nat _ _).
  - exists 1%nat. reflexivity.
  - apply (PositionEncoding_init_even 1 6); lia.
  - lia.
  - lia.
Defined.

(** X5.  For [d_model >= 2] the constructor of the position table returns
    exactly when [d_model] is even; an odd [d_model] raises the shape
    mismatch that the notebook's comment announces. *)
Theorem position_encoding_init_needs_even_width (d_model max_len : nat) :
  (2 <= d_model)%nat ->
  (Nat.Even d_model ->
   exists pe, PositionEncoding_init d_model max_len = Ok pe
              /\ rows pe = max_len /\ cols pe = d_model)
  /\ (Nat.Odd d_model ->
      PositionEncoding_init d_model max_len = Raise RuntimeError)
  /\ (is_ok (PositionEncoding_init d_model max_len) <-> Nat.Even d_model).
Proof.
  intros Hd.
  assert (Heven : Nat.Even d_model ->
            exists pe, PositionEncoding_init d_model max_len = Ok pe
                       /\ rows pe = max_len /\ cols pe = d_model).
  { intros [h ->]. eexists. split; [apply PositionEncoding_init_even; lia|].
    split; reflexivity. }
  assert (Hodd : Nat.Odd d_model ->
            PositionEncoding_init d_model max_len = Raise RuntimeError).
  { intros [h ->]. assert (Hh : (1 <= h)%nat) by lia.
    unfold PositionEncoding_init, div_row, assign_cols.
    cbn [arange_column arange_step2 pow_div zeros tensor_map rows cols len].
    replace ((2 * h + 1 + 1) / 2)%nat with (S h)
      by (replace (2 * h + 1 + 1)%nat with (2 * S h)%nat by lia;
          now rewrite half_double).
    rewrite broadcast_dim_one_l. cbn [bind rows cols].
    rewrite expandable_refl.
    replace (strided_count 0 2 (2 * h + 1)) with (S h).
    2:{ unfold strided_count. destruct (Nat.ltb_spec 0 (2 * h + 1)); [|lia].
        replace (2 * h + 1 - 0 + 2 - 1)%nat with (2 * S h)%nat by lia.
        now rewrite half_double. }
    rewrite expandable_refl. cbn [andb bind rows cols].
    rewrite expandable_refl.
    replace (strided_count 1 2 (2 * h + 1)) with h.
    2:{ unfold strided_count. destruct (Nat.ltb_spec 1 (2 * h + 1)); [|lia].
        replace (2 * h + 1 - 1 + 2 - 1)%nat with (2 * h + 1)%nat by lia.
        now rewrite half_succ_double. }
    unfold expandable.
    destruct (Nat.eqb_spec (S h) h); [lia|].
    destruct (Nat.eqb_spec (S h) 1); [lia|]. reflexivity. }
  split; [exact Heven|]. split; [exact Hodd|]. split.
  - intros [pe Hpe]. destruct (Nat.Even_or_Odd d_model) as [E|O]; [exact E|].
    rewrite (Hodd O) in Hpe. discriminate.
  - intros E. destruct (Heven E) as (pe & Hpe & _). now exists pe.
Qed.

Lemma position_encoding_init_needs_even_width_witness :
  PositionEncoding_init 3 6 = Raise RuntimeError
  /\ is_ok (PositionEncoding_init 2 6).
Proof.
  destruct (position_encoding_init_needs_even_width 3 6) as (_ & Hodd & _);
    [lia|].
  destruct (position_encoding_init_needs_even_width 2 6) as (_ & _ & Hiff);
    [lia|].
  split.
  - apply Hodd. exists 1%nat. reflexivity.
  - apply Hiff. exists 1%nat. reflexivity.
Defined.

(** The first two columns of the table: [sin pos] and [cos pos]. *)
Lemma PositionEncoding_first_columns (h max_len : nat) (pe : Tensor) (pos : nat) :
  (1 <= h)%nat -> PositionEncoding_init (2 * h) max_len = Ok pe ->
  (pos < max_len)%nat ->
  val pe pos 0 = sin (INR pos) /\ val pe pos 1 = cos (INR pos).
Proof.
  intros Hh Hinit Hpos.
  destruct (PositionEncoding_table h max_len pe Hh Hinit pos 0%nat) as [E0 E1];
    [lia | lia |].
  change (2 * 0)%nat with 0%nat in E0, E1. change (0 + 1)%nat with 1%nat in E1.
  assert (Hone : Rpower 10000 (INR 0 / INR (2 * h)) = 1).
  { change (INR 0) with 0. unfold Rdiv. rewrite Rmult_0_l.
    apply Rpower_O. lra. }
  rewrite Hone in E0, E1. unfold Rdiv in E0, E1.
  rewrite Rinv_1, Rmult_1_r in E0, E1. split; assumption.
Qed.

(** No number between 1 and 6 is a period of the cosine. *)
Lemma cos_one_not_between_1_and_6 (x : R) : 1 <= x <= 6 -> cos x <> 1.
Proof.
  intros [H1 H6] Hc.
  assert (Hs : sin x = 0).
  { pose proof (sin2_cos2 x) as H. rewrite Hc in H. unfold Rsqr in H.
    apply Rsqr_0_uniq. unfold Rsqr. lra. }
  apply sin_eq_0_0 in Hs as [k Hk].
  pose proof PI2_3_2 as Hpi. pose proof PI_4 as Hpi4.
  assert (Hpi3 : 3 < PI) by lra.
  destruct (Z.le_gt_cases k 0) as [Hk0|Hk0].
  - apply IZR_le in Hk0. nra.
  - destruct (Z.eq_dec k 1) as [->|Hk1].
    + rewrite Rmult_1_l in Hk. rewrite Hk, cos_PI in Hc. lra.
    + assert (Hk2 : (2 <= k)%Z) by lia. apply IZR_le in Hk2. nra.
Qed.

(** X6.  In a table of at most 7 rows (the notebooks build 5 and 6) the
    first two columns already tell the positions apart: two different
    positions never have both the same sine entry and the same cosine
    entry, so no two rows of the table are equal. *)
Theorem position_rows_distinct (d_model max_len : nat) (pe : Tensor)
  (pos pos' : nat) :
  Nat.Even d_model -> (2 <= d_model)%nat -> (max_len <= 7)%nat ->
  PositionEncoding_init d_model max_len = Ok pe ->
  (pos < max_len)%nat -> (pos' < max_len)%nat ->
  pos <> pos' ->
  ~ (val pe pos 0 = val pe pos' 0 /\ val pe pos 1 = val pe pos' 1).
Proof.
  intros [h ->] Hd Hm Hinit Hp Hp' Hne [E0 E1]. apply Hne.
  assert (Hh : (1 <= h)%nat) by lia.
  destruct (PositionEncoding_first_columns h max_len pe pos Hh Hinit Hp)
    as [S C].
  destruct (PositionEncoding_first_columns h max_len pe pos' Hh Hinit Hp')
    as [S' C'].
  rewrite S, S' in E0. rewrite C, C' in E1.
  assert (Hgap : forall a b : nat, (b < a)%nat -> (a < 7)%nat ->
            sin (INR a) = sin (INR b) -> cos (INR a) = cos (INR b) -> False).
  { intros a b Hba Ha Es Ec.
    apply (cos_one_not_between_1_and_6 (INR a - INR b)).
    - rewrite <- minus_INR by lia.
      assert (H1 : INR 1 <= INR (a - b)) by (apply le_INR; lia).
      assert (H6 : INR (a - b) <= INR 6) by (apply le_INR; lia).
      replace (INR 1) with 1 in H1 by (simpl; lra).
      replace (INR 6) with 6 in H6 by (simpl; lra). lra.
    - rewrite cos_minus, Es, Ec.
      pose proof (sin2_cos2 (INR b)) as H. unfold Rsqr in H. lra. }
  destruct (Nat.lt_trichotomy pos pos') as [Hlt|[Heq|Hgt]]; [|exact Heq|].
  - exfalso. apply (Hgap pos' pos Hlt); [lia | now symmetry | now symmetry].
  - exfalso. apply (Hgap pos pos' Hgt); [lia | assumption | assumption].
Qed.

Lemma position_rows_distinct_witness :
  exists pe,
    PositionEncoding_init 2 6 = Ok pe
    /\ ~ (val pe 2 0 = val pe 5 0 /\ val pe 2 1 = val pe 5 1).
Proof.
  eexists. split; [apply (PositionEncoding_init_even 1 6); lia|].
  apply (position_rows_distinct 2 6).
  - exists 1%nat. reflexivity.
  - lia.
  - lia.
  - apply (PositionEncoding_init_even 1 6); lia.
  - lia.
  - lia.
  - lia.
Defined.

(* ================================================================== *)
(** * Outcomes of the forward passes *)

(** X7.  The outcome of [DecoderOnlyTransformer.forward] on a model with
    [max_len >= 2]: a token id outside the vocabulary raises [IndexError];
    valid tokens beyond the position table raise [RuntimeError]; at most
    [max_len] valid tokens give one row of [num_tokens] logits each. *)
Theorem decoder_only_forward_outcomes (num_tokens d_model max_len : nat)
  (w : DecoderOnlyTrans.Weights) (m : DecoderOnlyTrans.DecoderOnlyTransformer)
  (token_ids : list nat) :
  (2 <= max_len)%nat ->
  DecoderOnlyTrans.init num_tokens d_model max_len w = Ok m ->
  (forallb (fun t => (t <? num_tokens)%nat) token_ids = false ->
   DecoderOnlyTrans.forward m token_ids = Raise IndexError)
  /\ (forallb (fun t => (t <? num_tokens)%nat) token_ids = true ->
      (max_len < length token_ids)%nat ->
      DecoderOnlyTrans.forward m token_ids = Raise RuntimeError)
  /\ (forallb (fun t => (t <? num_tokens)%nat) token_ids = true ->
      (length token_ids <= max_len)%nat ->
      exists out, DecoderOnlyTrans.forward m token_ids = Ok out
                  /\ rows out = length token_ids /\ cols out = num_tokens).
Proof.
  intros Hm Hinit.
  destruct (DecoderOnly_init_inv _ _ _ _ _ Hinit) as (pe & _ & Hr & Hc & E).
  split; [|split].
  - intros Hv. subst m. unfold DecoderOnlyTrans.forward, Embedding_forward.
    cbn [DecoderOnlyTrans.we num_embeddings]. rewrite Hv. reflexivity.
  - intros Hv Hl. subst m. unfold DecoderOnlyTrans.forward.
    cbn [DecoderOnlyTrans.we DecoderOnlyTrans.pe].
    rewrite Embedding_forward_ok by exact Hv. cbn [bind].
    match goal with |- context [PositionEncoding_forward pe ?x] =>
      destruct (PositionEncoding_forward_cases pe x)
        as [(y & _ & Hrows & _) | (-> & _)] end.
    + cbn [rows cols embedding_dim] in Hrows. lia.
    + reflexivity.
  - intros Hv Hl.
    destruct (DecoderOnly_forward_explicit _ _ _ _ _ token_ids Hinit Hv Hl)
      as (x & sa & out & _ & Hout & Hor & Hoc & _).
    exists out. auto.
Qed.

Lemma decoder_only_forward_outcomes_witness :
  exists m,
    DecoderOnlyTrans.init 5 2 6 sample_decoder_only_weights = Ok m
    /\ DecoderOnlyTrans.forward m [0; 7]%nat = Raise IndexError
    /\ DecoderOnlyTrans.forward m [0; 1; 2; 4; 3; 1; 1]%nat
       = Raise RuntimeError
    /\ is_ok (DecoderOnlyTrans.forward m [0; 1; 2; 4]%nat).
Proof.
  destruct sample_decoder_only_init as [m Hinit]. exists m.
  split; [exact Hinit|].
  assert (H2 : (2 <= 6)%nat) by lia.
  split; [|split].
  - apply (proj1 (decoder_only_forward_outcomes 5 2 6 _ m [0; 7]%nat H2 Hinit)).
    reflexivity.
  - apply (proj1 (proj2 (decoder_only_forward_outcomes 5 2 6 _ m
                           [0; 1; 2; 4; 3; 1; 1]%nat H2 Hinit)));
      [reflexivity | cbn; lia].
  - destruct (proj2 (proj2 (decoder_only_forward_outcomes 5 2 6 _ m
                              [0; 1; 2; 4]%nat H2 Hinit)))
      as (out & Hout & _); [reflexivity | cbn; lia |].
    exists out. exact Hout.
Defined.

(** X8.  [Encoder.forward], the first thing [Transformer.generate] runs,
    on a model with [max_len >= 2]: a source token outside the vocabulary
    raises [IndexError]; a valid source longer than [max_len] raises
    [RuntimeError]; and [generate] raises the same exceptions. *)
Theorem encoder_forward_errors (num_tokens d_model max_len : nat)
  (w : Transformer.Weights) (m : Transformer.t) (src_token_ids : list nat) :
  (2 <= max_len)%nat ->
  Transformer.init num_tokens d_model max_len w = Ok m ->
  (forallb (fun t => (t <? num_tokens)%nat) src_token_ids = false ->
   Transformer.Encoder.forward (Transformer.encoder m) src_token_ids
   = Raise IndexError
   /\ Transformer.generate m src_token_ids = Raise IndexError)
  /\ (forallb (fun t => (t <? num_tokens)%nat) src_token_ids = true ->
      (max_len < length src_token_ids)%nat ->
      Transformer.Encoder.forward (Transformer.encoder m) src_token_ids
      = Raise RuntimeError
      /\ Transformer.generate m src_token_ids = Raise RuntimeError).
Proof.
  intros Hm Hinit.
  destruct (Transformer_init_inv _ _ _ _ _ Hinit) as (enc & dec & Henc & _ & E).
  destruct (Encoder_init_inv _ _ _ _ _ _ Henc) as (pe & _ & Hr & Hc & Eenc).
  assert (Hgen : forall e,
            Transformer.Encoder.forward (Transformer.encoder m) src_token_ids
            = Raise e ->
            Transformer.generate m src_token_ids = Raise e).
  { intros e He. unfold Transformer.generate. rewrite He. reflexivity. }
  assert (Eenc' : Transformer.encoder m = enc) by (rewrite E; reflexivity).
  split.
  - intros Hv.
    assert (H : Transformer.Encoder.forward (Transformer.encoder m)
                  src_token_ids = Raise IndexError).
    { rewrite Eenc', Eenc. unfold Transformer.Encoder.forward, Embedding_forward.
      cbn [Transformer.Encoder.we num_embeddings]. rewrite Hv. reflexivity. }
    split; [exact H | exact (Hgen _ H)].
  - intros Hv Hl.
    assert (H : Transformer.Encoder.forward (Transformer.encoder m)
                  src_token_ids = Raise RuntimeError).
    { rewrite Eenc', Eenc. unfold Transformer.Encoder.forward.
      cbn [Transformer.Encoder.we Transformer.Encoder.pe].
      rewrite Embedding_forward_ok by exact Hv. cbn [bind].
      match goal with |- context [PositionEncoding_forward pe ?x] =>
        destruct (PositionEncoding_forward_cases pe x)
          as [(y & _ & Hrows & _) | (-> & _)] end.
      + cbn [rows cols embedding_dim] in Hrows. lia.
      + reflexivity. }
    split; [exact H | exact (Hgen _ H)].
Qed.

Lemma encoder_forward_errors_witness :
  exists m,
    Transformer.init 6 2 5 sample_transformer_weights = Ok m
    /\ Transformer.generate m [1; 9]%nat = Raise IndexError
    /\ Transformer.generate m [1; 2; 3; 4; 1; 2]%nat = Raise RuntimeError.
Proof.
  destruct sample_transformer_init as [m Hinit]. exists m.
  split; [exact Hinit|].
  assert (H2 : (2 <= 5)%nat) by lia.
  split.
  - apply (proj1 (encoder_forward_errors 6 2 5 _ m [1; 9]%nat H2 Hinit)).
    reflexivity.
  - apply (proj2 (encoder_forward_errors 6 2 5 _ m [1; 2; 3; 4; 1; 2]%nat
                    H2 Hinit)); [reflexivity | cbn; lia].
Defined.

(** [Transformer.forward] on a sequence with one [<SOS>]. *)
Lemma Transformer_forward_at_sos (m : Transformer.t) (pre post : list nat) :
  ~ In Transformer.SOS pre -> ~ In Transformer.SOS post ->
  Transformer.forward m (pre ++ Transformer.SOS :: post)
  = (contextualised_embeddings <-
       Transformer.Encoder.forward (Transformer.encoder m) pre ;;
     residual_connection_values <-
       Transformer.Decoder.forward (Transformer.decoder m)
         (Transformer.SOS :: post)
         contextualised_embeddings contextualised_embeddings ;;
     Linear_forward (Transformer.fc m) residual_connection_values).
Proof.
  intros Hpre Hpost. unfold Transformer.forward.
  rewrite where_eq_single by assumption. cbn [Transformer.item bind].
  rewrite Nat.add_0_l.
  rewrite firstn_app, Nat.sub_diag, firstn_all, firstn_O, app_nil_r.
  rewrite skipn_app, Nat.sub_diag, skipn_all, skipn_O. reflexivity.
Qed.

(** [Transformer.forward] on source, [<SOS>], target. *)
Lemma Transformer_forward_ok (num_tokens d_model max_len : nat)
  (w : Transformer.Weights) (m : Transformer.t) (pre post : list nat) :
  Transformer.init num_tokens d_model max_len w = Ok m ->
  (1 <= num_tokens)%nat ->
  forallb (fun t => (t <? num_tokens)%nat) pre = true ->
  forallb (fun t => (t <? num_tokens)%nat) post = true ->
  ~ In Transformer.SOS pre -> ~ In Transformer.SOS post ->
  (length pre <= max_len)%nat -> (length post + 1 <= max_len)%nat ->
  exists out,
    Transformer.forward m (pre ++ Transformer.SOS :: post) = Ok out
    /\ rows out = (length post + 1)%nat /\ cols out = num_tokens.
Proof.
  intros Hinit Hn Hvpre Hvpost Hpre Hpost Hlpre Hlpost.
  rewrite Transformer_forward_at_sos by assumption.
  destruct (Transformer_init_inv _ _ _ _ _ Hinit) as (enc & dec & Henc & Hdec & E).
  replace (Transformer.encoder m) with enc by (rewrite E; reflexivity).
  replace (Transformer.decoder m) with dec by (rewrite E; reflexivity).
  replace (Transformer.fc m)
    with (mkLinear d_model num_tokens (Transformer.fc_w w)
            (Some (Transformer.fc_b w))) by (rewrite E; reflexivity).
  destruct (Encoder_forward_ok _ _ _ _ _ enc pre Henc Hvpre Hlpre)
    as (ctx & Hctx & _ & Hcc).
  rewrite Hctx. cbn [bind].
  assert (Hv : forallb (fun t => (t <? num_tokens)%nat)
                 (Transformer.SOS :: post) = true).
  { cbn [forallb]. rewrite Hvpost, andb_true_r. apply Nat.ltb_lt.
    unfold Transformer.SOS. lia. }
  destruct (Decoder_forward_explicit _ _ _ _ _ _ dec (Transformer.SOS :: post)
              ctx ctx Hdec Hv)
    as (x & sa & r0 & ca & r & _ & _ & _ & _ & _ & Hr & Hrr & Hrc & _);
    [cbn [length]; lia | exact Hcc | exact Hcc | reflexivity |].
  rewrite Hr. cbn [bind].
  rewrite Linear_forward_ok by (cbn [in_features]; exact Hrc).
  eexists. split; [reflexivity|]. cbn [rows cols out_features length] in *.
  split; [lia | reflexivity].
Qed.

(** X9.  Teacher forcing: on a source of at most [max_len] valid tokens
    followed by [<SOS>] and a target of valid tokens, [<SOS>] included at
    most [max_len] long, [Transformer.forward] returns one row of
    [num_tokens] logits for [<SOS>] and for each target token -- nothing
    for the source tokens. *)
Theorem transformer_forward_logits_per_target_token
  (num_tokens d_model max_len : nat) (w : Transformer.Weights)
  (m : Transformer.t) (pre post : list nat) :
  Transformer.init num_tokens d_model max_len w = Ok m ->
  (1 <= num_tokens)%nat ->
  forallb (fun t => (t <? num_tokens)%nat) pre = true ->
  forallb (fun t => (t <? num_tokens)%nat) post = true ->
  ~ In Transformer.SOS pre -> ~ In Transformer.SOS post ->
  (length pre <= max_len)%nat -> (length post + 1 <= max_len)%nat ->
  exists out,
    Transformer.forward m (pre ++ Transformer.SOS :: post) = Ok out
    /\ rows out = (length post + 1)%nat /\ cols out = num_tokens.
Proof. apply Transformer_forward_ok. Qed.

Lemma transformer_forward_logits_per_target_token_witness :
  exists m out,
    Transformer.init 6 2 5 sample_transformer_weights = Ok m
    /\ Transformer.forward m [1; 2; 5; 0; 1; 2]%nat = Ok out
    /\ rows out = 3%nat /\ cols out = 6%nat.
Proof.
  destruct sample_transformer_init as [m Hinit]. exists m.
  destruct (transformer_forward_logits_per_target_token 6 2 5 _ m
              [1; 2; 5]%nat [1; 2]%nat Hinit)
    as (out & Hout & Hr & Hc).
  - lia.
  - reflexivity.
  - reflexivity.
  - cbn. unfold Transformer.SOS. lia.
  - cbn. unfold Transformer.SOS. lia.
  - cbn; lia.
  - cbn; lia.
  - exists out. split; [exact Hinit|]. split; [exact Hout|]. split; assumption.
Defined.

(* ================================================================== *)
(** * Multi-head attention and the classifier *)

(** Column [h * d + k] of the concatenation is column [k] of the tensor
    number [h]. *)
Lemma cat_cols_val (ts : list Tensor) (r d : nat) :
  ts <> [] -> Forall (fun t => rows t = r /\ cols t = d) ts ->
  exists c,
    cat_cols ts = Ok c /\ rows c = r /\ cols c = (length ts * d)%nat
    /\ forall i h k, (h < length ts)%nat -> (k < d)%nat ->
         val c i (h * d + k) = val (nth h ts (zeros 0 0)) i k.
Proof.
  induction ts as [|t ts IH]; intros Hne Hall; [contradiction|].
  inversion Hall as [|? ? [Hr Hc] Hrest]; subst.
  destruct ts as [|t' ts].
  - exists t. cbn [cat_cols length]. split; [reflexivity|].
    split; [reflexivity|]. split; [lia|].
    intros i h k Hh Hk. assert (h = 0%nat) by (cbn in Hh; lia). subst h.
    reflexivity.
  - destruct IH as (c & Hcat & Hcr & Hcc & Hval); [discriminate | exact Hrest |].
    cbn [cat_cols] in *. rewrite Hcat. cbn [bind].
    rewrite Hcr, Nat.eqb_refl. eexists. split; [reflexivity|].
    cbn [rows cols]. split; [reflexivity|].
    split; [cbn [length] in *; lia|].
    intros i h k Hh Hk. cbn [val].
    destruct h as [|h].
    + cbn [Nat.mul Nat.add nth]. destruct (Nat.ltb_spec k (cols t)); [|lia].
      reflexivity.
    + destruct (Nat.ltb_spec (S h * cols t + k) (cols t)); [nia|].
      replace (S h * cols t + k - cols t)%nat with (h * cols t + k)%nat by nia.
      rewrite Hval by (cbn [length] in *; lia). reflexivity.
Qed.

(** The loop over the heads returns the outputs of the heads in order. *)
Lemma heads_loop_outputs (d_model head : nat)
  (heads_w : nat -> AttentionWeights) (fc_w : nat -> nat -> R)
  (fc_b : nat -> R) (x : Tensor) (hs : list nat) :
  cols x = d_model -> Forall (fun h => (h < head)%nat) hs ->
  forall acc,
    exists outs,
      EncoderOnlyTrans.heads_loop
        (EncoderOnlyTrans.MultiHeadAttention_init d_model head heads_w fc_w fc_b)
        hs x x x None acc = Ok (acc ++ outs)
      /\ length outs = length hs
      /\ Forall (fun t => rows t = rows x /\ cols t = d_model) outs
      /\ forall n, (n < length hs)%nat ->
           Attention_forward (Attention_of d_model (heads_w (nth n hs O)))
             x x x None = Ok (nth n outs (zeros 0 0)).
Proof.
  intros Hc. induction hs as [|h hs IH]; intros Hall acc.
  - exists []. cbn. rewrite app_nil_r. repeat split; try constructor.
    intros n Hn. lia.
  - inversion Hall as [|? ? Hh Hrest]; subst.
    cbn [EncoderOnlyTrans.heads_loop EncoderOnlyTrans.MultiHeadAttention_init
         EncoderOnlyTrans.attention_heads].
    rewrite (nth_error_nth' _ (Attention_of (cols x) (heads_w 0%nat)))
      by (rewrite length_map, length_seq; exact Hh).
    rewrite (map_nth (fun h => Attention_of (cols x) (heads_w h)) (seq 0 head)
               0%nat h), seq_nth by exact Hh.
    cbn [Nat.add].
    destruct (Attention_forward_ok (cols x) (heads_w h) x x x None)
      as (a & Ha & Har & Hac); try reflexivity.
    rewrite Ha. cbn [bind].
    destruct (IH Hrest (acc ++ [a])) as (outs & Hout & Hlen & Hshape & Hnth).
    exists (a :: outs). split; [rewrite Hout, <- app_assoc; reflexivity|].
    split; [cbn [length]; lia|]. split; [constructor; auto|].
    intros n Hn. destruct n as [|n]; cbn [nth]; [exact Ha|].
    apply Hnth. cbn [length] in Hn. lia.
Qed.

(** X10.  [MultiHeadAttention.forward] on a sequence of width [d_model]
    returns exactly when the module has at least one head (with none,
    [torch.cat] has nothing to concatenate), and then gives one row of
    width [d_model] per input row. *)
Theorem multi_head_attention_needs_a_head (d_model head : nat)
  (heads_w : nat -> AttentionWeights) (fc_w : nat -> nat -> R)
  (fc_b : nat -> R) (x : Tensor) :
  cols x = d_model ->
  (is_ok (EncoderOnlyTrans.MultiHeadAttention_forward
            (EncoderOnlyTrans.MultiHeadAttention_init d_model head heads_w
               fc_w fc_b) x x x None)
   <-> (1 <= head)%nat)
  /\ (head = 0%nat ->
      EncoderOnlyTrans.MultiHeadAttention_forward
        (EncoderOnlyTrans.MultiHeadAttention_init d_model head heads_w
           fc_w fc_b) x x x None = Raise RuntimeError)
  /\ (forall out,
        EncoderOnlyTrans.MultiHeadAttention_forward
          (EncoderOnlyTrans.MultiHeadAttention_init d_model head heads_w
             fc_w fc_b) x x x None = Ok out ->
        rows out = rows x /\ cols out = d_model).
Proof.
  intros Hc.
  assert (Hzero : head = 0%nat ->
      EncoderOnlyTrans.MultiHeadAttention_forward
        (EncoderOnlyTrans.MultiHeadAttention_init d_model head heads_w
           fc_w fc_b) x x x None = Raise RuntimeError).
  { intros ->. apply MultiHeadAttention_forward_no_head. }
  split; [|split].
  - split.
    + intros [out Hout]. destruct head as [|head]; [|lia].
      rewrite (Hzero eq_refl) in Hout. discriminate.
    + intros Hh.
      destruct (MultiHeadAttention_forward_ok d_model head heads_w fc_w fc_b
                  x Hh Hc) as (out & Hout & _).
      now exists out.
  - exact Hzero.
  - intros out Hout. destruct head as [|head].
    + rewrite (Hzero eq_refl) in Hout. discriminate.
    + destruct (MultiHeadAttention_forward_ok d_model (S head) heads_w fc_w
                  fc_b x) as (out' & Hout' & Hr & Hcc); [lia | exact Hc |].
      rewrite Hout in Hout'. apply Ok_inj in Hout'. subst out'. auto.
Qed.

Lemma multi_head_attention_needs_a_head_witness :
  is_ok (EncoderOnlyTrans.MultiHeadAttention_forward
           (EncoderOnlyTrans.MultiHeadAttention_init 2 2
              (fun _ => zero_attention_weights) (fun _ _ => 0) (fun _ => 0))
           one_embedding one_embedding one_embedding None).
Proof.
  apply (proj1 (multi_head_attention_needs_a_head 2 2
                  (fun _ => zero_attention_weights) (fun _ _ => 0)
                  (fun _ => 0) one_embedding eq_refl)).
  lia.
Defined.

(** X11.  How the heads are aggregated: every head attends over the full
    width [d_model]; the [head] outputs are laid side by side, head [h] in
    columns [h * d_model .. h * d_model + d_model - 1], and one linear
    layer over these [head * d_model] features gives the output. *)
Theorem multi_head_attention_aggregates_full_width_heads (d_model head : nat)
  (heads_w : nat -> AttentionWeights) (fc_w : nat -> nat -> R)
  (fc_b : nat -> R) (x : Tensor) :
  (1 <= d_model)%nat -> (1 <= head)%nat -> cols x = d_model ->
  exists (heads_out : nat -> Tensor) (out : Tensor),
    (forall h, (h < head)%nat ->
       Attention_forward (Attention_of d_model (heads_w h)) x x x None
       = Ok (heads_out h)
       /\ rows (heads_out h) = rows x /\ cols (heads_out h) = d_model)
    /\ EncoderOnlyTrans.MultiHeadAttention_forward
         (EncoderOnlyTrans.MultiHeadAttention_init d_model head heads_w
            fc_w fc_b) x x x None = Ok out
    /\ rows out = rows x /\ cols out = d_model
    /\ forall i j, (i < rows x)%nat -> (j < d_model)%nat ->
         val out i j
         = Rsum (head * d_model) (fun n =>
             val (heads_out (n / d_model)%nat) i (n mod d_model)%nat * fc_w j n)
           + fc_b j.
Proof.
  intros Hd Hh Hc.
  destruct (heads_loop_outputs d_model head heads_w fc_w fc_b x (seq 0 head) Hc)
    with (acc := @nil Tensor) as (outs & Hloop & Hlen & Hshape & Hnth).
  { apply Forall_forall. intros h Hin. apply in_seq in Hin. lia. }
  rewrite length_seq in Hlen, Hnth. cbn [app] in Hloop.
  destruct (cat_cols_val outs (rows x) d_model) as (c & Hcat & Hcr & Hcc & Hval).
  { intros ->. cbn in Hlen. lia. }
  { exact Hshape. }
  exists (fun h => nth h outs (zeros 0 0)). eexists. split; [|split].
  - intros h Hlt. split.
    + specialize (Hnth h Hlt). rewrite seq_nth in Hnth by exact Hlt.
      exact Hnth.
    + assert (Hin : In (nth h outs (zeros 0 0)) outs)
        by (apply nth_In; lia).
      rewrite Forall_forall in Hshape. exact (Hshape _ Hin).
  - unfold EncoderOnlyTrans.MultiHeadAttention_forward.
    cbn [EncoderOnlyTrans.head EncoderOnlyTrans.MultiHeadAttention_init]
      in Hloop |- *.
    rewrite Hloop. cbn [bind]. rewrite Hcat. cbn [bind EncoderOnlyTrans.fc].
    apply Linear_forward_ok. cbn [in_features]. rewrite Hcc, Hlen. reflexivity.
  - cbn [rows cols val in_features out_features weight bias_at bias].
    split; [exact Hcr|]. split; [reflexivity|].
    intros i j _ _. f_equal. apply Rsum_ext. intros n Hn.
    f_equal.
    assert (Hdm : d_model <> 0%nat) by lia.
    rewrite (Nat.div_mod_eq n d_model) at 1.
    rewrite (Nat.mul_comm d_model (n / d_model)).
    apply Hval.
    + rewrite Hlen. apply Nat.Div0.div_lt_upper_bound. nia.
    + apply Nat.mod_upper_bound. exact Hdm.
Qed.

Lemma multi_head_attention_aggregates_full_width_heads_witness :
  exists out,
    EncoderOnlyTrans.MultiHeadAttention_forward
      (EncoderOnlyTrans.MultiHeadAttention_init 2 2
         (fun _ => zero_attention_weights) (fun _ _ => 0) (fun _ => 0))
      one_embedding one_embedding one_embedding None = Ok out
    /\ rows out = 1%nat /\ cols out = 2%nat.
Proof.
  destruct (multi_head_attention_aggregates_full_width_heads 2 2
              (fun _ => zero_attention_weights) (fun _ _ => 0) (fun _ => 0)
              one_embedding) as (ho & out & _ & Hout & Hr & Hc & _).
  - lia.
  - lia.
  - reflexivity.
  - exists out. auto.
Defined.

(** On exactly [max_len] valid tokens the classifier returns two logits. *)
Lemma EncoderOnly_forward_ok (num_tokens d_model head max_len : nat)
  (w : EncoderOnlyTrans.Weights) (m : EncoderOnlyTrans.EncoderOnlyTransformer)
  (token_ids : list nat) :
  EncoderOnlyTrans.init num_tokens d_model head max_len w = Ok m ->
  (1 <= head)%nat ->
  forallb (fun t => (t <? num_tokens)%nat) token_ids = true ->
  length token_ids = max_len ->
  exists out, EncoderOnlyTrans.forward m token_ids = Ok out
              /\ len out = 2%nat.
Proof.
  intros Hinit Hh Hv Hl.
  destruct (EncoderOnly_residual_ok _ _ _ _ _ _ token_ids Hinit Hh Hv)
    as (r & Hr & Hrr & Hrc); [lia|].
  assert (Hcls : EncoderOnlyTrans.cls m
                 = mkLinear (max_len * d_model) 2 (EncoderOnlyTrans.cls_w w)
                     (Some (EncoderOnlyTrans.cls_b w))).
  { apply EncoderOnly_init_inv in Hinit as (pe & _ & _ & _ & ->). reflexivity. }
  unfold EncoderOnlyTrans.forward. rewrite Hr. cbn [bind].
  unfold Linear_forward1. rewrite Hcls. cbn [flatten len in_features].
  rewrite Hrr, Hrc, Hl, Nat.eqb_refl. eexists. split; reflexivity.
Qed.

(** X12.  The label that the encoder-only notebook reads off the model:
    on [max_len] valid tokens [torch.argmax] of the two logits is 0 or 1,
    and it is 1 exactly when the second logit is strictly larger (a tie
    goes to 0). *)
Theorem predicted_label_is_binary (num_tokens d_model head max_len : nat)
  (w : EncoderOnlyTrans.Weights) (m : EncoderOnlyTrans.EncoderOnlyTransformer)
  (model_input : list nat) :
  EncoderOnlyTrans.init num_tokens d_model head max_len w = Ok m ->
  (1 <= head)%nat ->
  forallb (fun t => (t <? num_tokens)%nat) model_input = true ->
  length model_input = max_len ->
  exists predictions label,
    EncoderOnlyTrans.forward m model_input = Ok predictions
    /\ len predictions = 2%nat
    /\ EncoderOnlyRun.predicted_label m model_input = Ok label
    /\ (label < 2)%nat
    /\ (label = 1%nat <-> elt predictions 0 < elt predictions 1).
Proof.
  intros Hinit Hh Hv Hl.
  destruct (EncoderOnly_forward_ok _ _ _ _ _ _ model_input Hinit Hh Hv Hl)
    as (out & Hout & Hlen).
  exists out. eexists. split; [exact Hout|]. split; [exact Hlen|].
  unfold EncoderOnlyRun.predicted_label. rewrite Hout. cbn [bind].
  unfold argmax. rewrite Hlen. cbn [argmax_upto].
  split; [reflexivity|].
  destruct (Rlt_dec (elt out 0) (elt out 1)) as [Hlt|Hge].
  - split; [lia|]. split; [intros _; exact Hlt | reflexivity].
  - split; [lia|]. split; [discriminate | intros H; contradiction].
Qed.

Lemma predicted_label_is_binary_witness :
  exists m label,
    EncoderOnlyTrans.init 12 2 2 6 sample_encoder_only_weights = Ok m
    /\ EncoderOnlyRun.predicted_label m [10; 8; 9; 11; 11; 11]%nat = Ok label
    /\ (label < 2)%nat.
Proof.
  destruct sample_encoder_only_init as [m Hinit]. exists m.
  destruct (predicted_label_is_binary 12 2 2 6 _ m [10; 8; 9; 11; 11; 11]%nat
              Hinit) as (p & label & _ & _ & Hl & Hlt & _).
  - lia.
  - reflexivity.
  - reflexivity.
  - exists label. auto.
Defined.

(* ================================================================== *)
(** * What the generation loops leave behind *)

(** Tokens produced before the last are never [<EOS>], and a sequence
    shorter than the bound ends with [<EOS>]. *)
Lemma generation_order_eos (model : list nat -> result Tensor)
  (n : nat) (input : list nat) (p : nat) (order : list nat) :
  DecoderOnlyTrans.generation_order model n input p = Ok order ->
  ~ In DecoderOnlyTrans.EOS (removelast order)
  /\ (length order <= n + 1)%nat
  /\ ((length order < n + 1)%nat -> last order p = DecoderOnlyTrans.EOS).
Proof.
  revert input p order. induction n as [|n IH]; intros input p order H.
  - cbn in H. apply Ok_inj in H. subst. cbn. repeat split; auto; lia.
  - cbn [DecoderOnlyTrans.generation_order] in H.
    destruct (Nat.eqb_spec p DecoderOnlyTrans.EOS) as [E|E].
    + apply Ok_inj in H. subst order. cbn [removelast last length].
      repeat split; auto; lia.
    + apply bind_ok in H as (p' & Hp & H). apply bind_ok in H as (rest & Hr & H).
      apply Ok_inj in H. subst order.
      destruct (generation_order_shape _ _ _ _ _ Hr) as (rest' & -> & _).
      destruct (IH _ _ _ Hr) as (Hno & Hlen & Hlast).
      change (removelast (p :: p' :: rest'))
        with (p :: removelast (p' :: rest')).
      change (last (p :: p' :: rest') p) with (last (p' :: rest') p).
      rewrite (last_cons_default p' rest' p p').
      split; [|split].
      * intros [Hin|Hin]; [congruence | contradiction].
      * cbn [length] in *. lia.
      * intros Hlt. apply Hlast. cbn [length] in *. lia.
Qed.

(** X13.  Whatever the model, when a generation cell of the decoder-only
    notebook returns, its variables are tied together: [model_input] is the
    prompt followed by every generated token but the last, [predicted_id]
    is the last generated token, no generated token fed back to the model
    is [<EOS>], at most [max_len - input_length + 1] tokens are generated, and
    generation stops short of that only on [<EOS>]. *)
Theorem generation_cell_invariants (model : list nat -> result Tensor)
  (max_len : nat) (prompt : list nat) (s : DecoderOnlyTrans.GenState) :
  DecoderOnlyTrans.generate_after_training model max_len prompt = Ok s ->
  DecoderOnlyTrans.predicted_ids s <> []
  /\ DecoderOnlyTrans.model_input s
     = prompt ++ removelast (DecoderOnlyTrans.predicted_ids s)
  /\ DecoderOnlyTrans.predicted_id s
     = last (DecoderOnlyTrans.predicted_ids s) O
  /\ ~ In DecoderOnlyTrans.EOS (removelast (DecoderOnlyTrans.predicted_ids s))
  /\ (length (DecoderOnlyTrans.predicted_ids s)
      <= max_len - length prompt + 1)%nat
  /\ ((length (DecoderOnlyTrans.predicted_ids s)
       < max_len - length prompt + 1)%nat ->
      DecoderOnlyTrans.predicted_id s = DecoderOnlyTrans.EOS).
Proof.
  intros H. rewrite generate_after_training_order in H.
  apply bind_ok in H as (p & Hp & H). apply bind_ok in H as (order & Hord & H).
  apply Ok_inj in H. subst s.
  cbn [DecoderOnlyTrans.model_input DecoderOnlyTrans.predicted_id
       DecoderOnlyTrans.predicted_ids].
  destruct (generation_order_shape _ _ _ _ _ Hord) as (rest & Erest & _).
  destruct (generation_order_eos _ _ _ _ _ Hord) as (Hno & Hlen & Hlast).
  split; [rewrite Erest; discriminate|]. split; [reflexivity|].
  split; [rewrite Erest; apply last_cons_default|].
  split; [exact Hno|]. split; [exact Hlen | exact Hlast].
Qed.

Lemma generation_cell_invariants_witness :
  exists m s,
    DecoderOnlyTrans.init 5 2 6 sample_decoder_only_weights = Ok m
    /\ DecoderOnlyTrans.generate_after_training (DecoderOnlyTrans.forward m)
         6 sample_prompt = Ok s
    /\ DecoderOnlyTrans.model_input s
       = sample_prompt ++ removelast (DecoderOnlyTrans.predicted_ids s).
Proof.
  destruct sample_decoder_only_init as [m Hinit]. exists m.
  destruct (sample_generation m Hinit) as [H0 Hord].
  assert (Hgen : DecoderOnlyTrans.generate_after_training
                   (DecoderOnlyTrans.forward m) 6 sample_prompt
                 = Ok (DecoderOnlyTrans.mkGenState [0; 1; 2; 4; 3; 1]%nat 1%nat
                         [3; 1; 1]%nat)).
  { rewrite generate_after_training_order, H0. cbn [bind].
    change (6 - length sample_prompt)%nat
      with (DecoderOnlyTrans.cell_max_len - length sample_prompt)%nat.
    rewrite Hord. reflexivity. }
  eexists. split; [exact Hinit|]. split; [exact Hgen|].
  exact (proj1 (proj2 (generation_cell_invariants _ _ _ _ Hgen))).
Defined.

(** X14.  Whatever the model and the prompt, the generation cell run
    before training and the cells run after training do the same work:
    one returns exactly when the other does, with the same [model_input]
    and [predicted_id]; only [predicted_ids] differs, one list being the
    reverse of the other. *)
Theorem generation_cells_differ_by_reversal (model : list nat -> result Tensor)
  (max_len : nat) (prompt : list nat) :
  (forall s_before,
     DecoderOnlyTrans.generate_before_training model max_len prompt
     = Ok s_before ->
     DecoderOnlyTrans.generate_after_training model max_len prompt
     = Ok (DecoderOnlyTrans.mkGenState
             (DecoderOnlyTrans.model_input s_before)
             (DecoderOnlyTrans.predicted_id s_before)
             (rev (DecoderOnlyTrans.predicted_ids s_before))))
  /\ (forall s_after,
        DecoderOnlyTrans.generate_after_training model max_len prompt
        = Ok s_after ->
        DecoderOnlyTrans.generate_before_training model max_len prompt
        = Ok (DecoderOnlyTrans.mkGenState
                (DecoderOnlyTrans.model_input s_after)
                (DecoderOnlyTrans.predicted_id s_after)
                (rev (DecoderOnlyTrans.predicted_ids s_after))))
  /\ (forall e,
        DecoderOnlyTrans.generate_before_training model max_len prompt
        = Raise e <->
        DecoderOnlyTrans.generate_after_training model max_len prompt
        = Raise e).
Proof.
  rewrite generate_after_training_order, generate_before_training_order.
  destruct (DecoderOnlyTrans.predict model prompt) as [p|e]; cbn [bind].
  - destruct (DecoderOnlyTrans.generation_order model
                (max_len - length prompt) prompt p) as [order|e]; cbn [bind].
    + split; [|split].
      * intros s H. apply Ok_inj in H. subst s.
        cbn [DecoderOnlyTrans.model_input DecoderOnlyTrans.predicted_id
             DecoderOnlyTrans.predicted_ids].
        now rewrite rev_involutive.
      * intros s H. apply Ok_inj in H. subst s. reflexivity.
      * intros e. split; discriminate.
    + split; [|split]; try discriminate. intros e'. reflexivity.
  - split; [|split]; try discriminate. intros e'. reflexivity.
Qed.

Lemma generation_cells_differ_by_reversal_witness :
  exists m,
    DecoderOnlyTrans.init 5 2 6 sample_decoder_only_weights = Ok m
    /\ DecoderOnlyTrans.generate_before_training (DecoderOnlyTrans.forward m)
         6 sample_prompt
       = Ok (DecoderOnlyTrans.mkGenState [0; 1; 2; 4; 3; 1]%nat 1%nat
               (rev [3; 1; 1]%nat)).
Proof.
  destruct sample_decoder_only_init as [m Hinit]. exists m.
  destruct (sample_generation m Hinit) as [H0 Hord].
  split; [exact Hinit|].
  apply (proj1 (proj2 (generation_cells_differ_by_reversal
                         (DecoderOnlyTrans.forward m) 6 sample_prompt))
           (DecoderOnlyTrans.mkGenState [0; 1; 2; 4; 3; 1]%nat 1%nat
              [3; 1; 1]%nat)).
  rewrite generate_after_training_order, H0. cbn [bind].
  change (6 - length sample_prompt)%nat
    with (DecoderOnlyTrans.cell_max_len - length sample_prompt)%nat.
  rewrite Hord. reflexivity.
Defined.

(** What the loop of [Transformer.generate] appends, whatever the model:
    at most one token per iteration, the pending prediction first, no
    [<EOS>] before the last token, and [<EOS>] last when the loop stops
    early. *)
Lemma Transformer_generate_loop_shape (m : Transformer.t) (ctx : Tensor)
  (n : nat) (target : list nat) (p : nat) (out : list nat) :
  Transformer.generate_loop m ctx n target p = Ok out ->
  exists rest,
    out = target ++ rest
    /\ (length rest <= n)%nat
    /\ ~ In Transformer.EOS (removelast rest)
    /\ ((length rest < n)%nat -> rest <> [] /\ last rest O = Transformer.EOS)
    /\ ((1 <= n)%nat -> exists rest', rest = p :: rest').
Proof.
  revert target p out. induction n as [|n IH]; intros target p out H.
  - cbn in H. apply Ok_inj in H. subst out. exists [].
    rewrite app_nil_r. cbn. repeat split; auto; lia.
  - cbn [Transformer.generate_loop] in H.
    destruct (Nat.eqb_spec p Transformer.EOS) as [E|E].
    + apply Ok_inj in H. subst out. exists [p].
      cbn [length removelast last]. split; [reflexivity|].
      split; [lia|]. split; [auto|]. split.
      * intros _. split; [discriminate | exact E].
      * intros _. exists []. reflexivity.
    + apply bind_ok in H as (r & Hr & H). apply bind_ok in H as (o & Ho & H).
      apply bind_ok in H as (p' & Hp' & H).
      destruct (IH _ _ _ H) as (rest & -> & Hlen & Hno & Hlast & Hhd).
      exists (p :: rest). split; [now rewrite <- app_assoc|].
      split; [cbn [length]; lia|]. split; [|split].
      * destruct rest as [|y rest]; [cbn; auto|].
        change (removelast (p :: y :: rest))
          with (p :: removelast (y :: rest)).
        intros [Hin|Hin]; [congruence | contradiction].
      * intros Hlt. split; [discriminate|].
        destruct Hlast as (Hne & Hl); [cbn [length] in Hlt; lia|].
        destruct rest as [|y rest]; [congruence|]. exact Hl.
      * intros _. exists rest. reflexivity.
Qed.

(** X15.  Whatever the model, a target that [Transformer.generate] returns
    starts with [<SOS>], holds at most [max_len - 1] tokens after it, has
    no [<EOS>] before its last token, and ends with [<EOS>] whenever it is
    shorter than that bound. *)
Theorem generate_target_structure (m : Transformer.t)
  (src_token_ids target : list nat) :
  Transformer.generate m src_token_ids = Ok target ->
  exists rest,
    target = Transformer.SOS :: rest
    /\ (length rest <= Transformer.max_len m - 1)%nat
    /\ ~ In Transformer.EOS (removelast rest)
    /\ ((length rest < Transformer.max_len m - 1)%nat ->
        rest <> [] /\ last rest O = Transformer.EOS).
Proof.
  unfold Transformer.generate. intros H.
  apply bind_ok in H as (ctx & _ & H). apply bind_ok in H as (r & _ & H).
  apply bind_ok in H as (o & _ & H). apply bind_ok in H as (p & _ & H).
  destruct (Transformer_generate_loop_shape _ _ _ _ _ _ H)
    as (rest & -> & Hlen & Hno & Hlast & _).
  exists rest. split; [reflexivity|]. auto.
Qed.

Lemma generate_target_structure_witness :
  exists m rest,
    Transformer.init 6 2 5 sample_transformer_weights = Ok m
    /\ Transformer.generate m [1; 2; 5]%nat = Ok (Transformer.SOS :: rest)
    /\ ~ In Transformer.EOS (removelast rest).
Proof.
  destruct sample_transformer_init as [m Hinit]. exists m.
  destruct (Transformer_generate_ok 6 2 5 _ m [1; 2; 5]%nat Hinit)
    as (rest & Hgen & _); [lia | lia | reflexivity | cbn; lia |].
  exists rest. split; [exact Hinit|]. split; [exact Hgen|].
  destruct (generate_target_structure m _ _ Hgen) as (rest' & E & _ & Hno & _).
  injection E as ->. exact Hno.
Defined.

Lemma snoc_split {A : Type} (l : list A) (x : A) (pre : list A) (q : A)
  (post : list A) :
  l ++ [x] = pre ++ q :: post ->
  (post = [] /\ pre = l /\ q = x)
  \/ (exists post', post = post' ++ [x] /\ l = pre ++ q :: post').
Proof.
  intros H. induction post as [|y post' _] using rev_ind.
  - left. apply app_inj_tail in H as [-> ->]. auto.
  - right. change (pre ++ q :: post' ++ [y]) with (pre ++ (q :: post') ++ [y]) in H.
    rewrite app_assoc in H. apply app_inj_tail in H as [-> ->].
    exists post'. auto.
Qed.

Lemma argmax_upto_ext (n : nat) (f g : nat -> R) :
  (forall k, (k <= n)%nat -> f k = g k) -> argmax_upto n f = argmax_upto n g.
Proof.
  induction n as [|n IH]; intros H; [reflexivity|].
  cbn [argmax_upto].
  rewrite <- IH by (intros k Hk; apply H; lia).
  rewrite <- (H (S n)) by lia.
  rewrite <- (H (argmax_upto n f)) by (pose proof (argmax_upto_le n f); lia).
  reflexivity.
Qed.

(** Each token of the decoder-only generation is the model's greedy
    prediction on what precedes it. *)
Lemma generation_order_greedy (model : list nat -> result Tensor)
  (n : nat) (input : list nat) (p : nat) (order : list nat) :
  DecoderOnlyTrans.generation_order model n input p = Ok order ->
  forall pre q post, order = pre ++ q :: post -> pre <> [] ->
    DecoderOnlyTrans.predict model (input ++ pre) = Ok q.
Proof.
  revert input p order. induction n as [|n IH]; intros input p order H.
  - cbn in H. apply Ok_inj in H. subst order. intros pre q post E Hne.
    destruct pre as [|a [|b pre]]; [congruence | discriminate | discriminate].
  - cbn [DecoderOnlyTrans.generation_order] in H.
    destruct (p =? DecoderOnlyTrans.EOS)%nat.
    + apply Ok_inj in H. subst order. intros pre q post E Hne.
      destruct pre as [|a [|b pre]]; [congruence | discriminate | discriminate].
    + apply bind_ok in H as (p' & Hp & H). apply bind_ok in H as (rest & Hr & H).
      apply Ok_inj in H. subst order.
      intros pre q post E Hne.
      destruct pre as [|a pre]; [congruence|].
      injection E as <- E.
      destruct (generation_order_shape _ _ _ _ _ Hr) as (rest' & Er & _).
      destruct pre as [|b pre].
      * rewrite Er in E. injection E as <- _. exact Hp.
      * change (input ++ p :: b :: pre) with (input ++ [p] ++ b :: pre).
        rewrite app_assoc. apply (IH _ _ _ Hr (b :: pre) q post E).
        discriminate.
Qed.

(** X17.  Whatever the model, the generation cells of the decoder-only
    notebook decode greedily: every token of [predicted_ids] is the argmax
    of the last row of the model's output on the prompt followed by the
    tokens generated before it. *)
Theorem generation_cells_decode_greedily (model : list nat -> result Tensor)
  (max_len : nat) (prompt : list nat) (s : DecoderOnlyTrans.GenState) :
  DecoderOnlyTrans.generate_after_training model max_len prompt = Ok s ->
  forall pre q post,
    DecoderOnlyTrans.predicted_ids s = pre ++ q :: post ->
    DecoderOnlyTrans.predict model (prompt ++ pre) = Ok q.
Proof.
  intros H. rewrite generate_after_training_order in H.
  apply bind_ok in H as (p & Hp & H). apply bind_ok in H as (order & Hord & H).
  apply Ok_inj in H. subst s. cbn [DecoderOnlyTrans.predicted_ids].
  intros pre q post E. destruct pre as [|a pre].
  - destruct (generation_order_shape _ _ _ _ _ Hord) as (rest & Er & _).
    rewrite Er in E. injection E as <- _. now rewrite app_nil_r.
  - apply (generation_order_greedy _ _ _ _ _ Hord _ _ _ E). discriminate.
Qed.

Lemma generation_cells_decode_greedily_witness :
  exists m,
    DecoderOnlyTrans.init 5 2 6 sample_decoder_only_weights = Ok m
    /\ DecoderOnlyTrans.predict (DecoderOnlyTrans.forward m)
         (sample_prompt ++ [3; 1]%nat) = Ok 1%nat.
Proof.
  destruct sample_decoder_only_init as [m Hinit]. exists m.
  destruct (sample_generation m Hinit) as [H0 Hord].
  split; [exact Hinit|].
  apply (generation_cells_decode_greedily (DecoderOnlyTrans.forward m) 6
           sample_prompt
           (DecoderOnlyTrans.mkGenState [0; 1; 2; 4; 3; 1]%nat 1%nat
              [3; 1; 1]%nat)
        ) with (post := []).
  - rewrite generate_after_training_order, H0. cbn [bind].
    change (6 - length sample_prompt)%nat
      with (DecoderOnlyTrans.cell_max_len - length sample_prompt)%nat.
    rewrite Hord. reflexivity.
  - reflexivity.
Defined.

(** The loop of [Transformer.generate] keeps every emitted token equal to
    the argmax of the last row of [Transformer.forward] on the source
    followed by the target so far. *)
Lemma Transformer_generate_loop_greedy (m : Transformer.t)
  (src : list nat) (ctx : Tensor) :
  Transformer.Encoder.forward (Transformer.encoder m) src = Ok ctx ->
  ~ In Transformer.SOS src ->
  forall n mid p out,
    Transformer.generate_loop m ctx n (Transformer.SOS :: mid) p = Ok out ->
    (forall pre q post,
       (Transformer.SOS :: mid) ++ [p] = pre ++ q :: post -> pre <> [] ->
       ~ In Transformer.SOS (tl pre) ->
       exists logits,
         Transformer.forward m (src ++ pre) = Ok logits
         /\ argmax (flatten (last_row logits)) = Ok q) ->
    forall pre q post,
      out = pre ++ q :: post -> pre <> [] ->
      ~ In Transformer.SOS (tl pre) ->
      exists logits,
        Transformer.forward m (src ++ pre) = Ok logits
        /\ argmax (flatten (last_row logits)) = Ok q.
Proof.
  intros Hctx Hsrc. induction n as [|n IH]; intros mid p out H Hinv.
  - cbn in H. apply Ok_inj in H. subst out.
    intros pre q post E. apply (Hinv pre q (post ++ [p])).
    rewrite E, <- app_assoc. reflexivity.
  - cbn [Transformer.generate_loop] in H.
    destruct (p =? Transformer.EOS)%nat.
    + apply Ok_inj in H. subst out. exact Hinv.
    + apply bind_ok in H as (r & Hr & H). apply bind_ok in H as (o & Ho & H).
      apply bind_ok in H as (p' & Hp' & H).
      change ((Transformer.SOS :: mid) ++ [p])
        with (Transformer.SOS :: (mid ++ [p])) in H, Hr.
      apply (IH _ _ _ H).
      intros pre q post E Hne Hno.
      apply snoc_split in E as [(-> & -> & ->)|(post' & -> & E)].
      * cbn [tl] in Hno.
        rewrite Transformer_forward_at_sos by assumption.
        rewrite Hctx. cbn [bind]. rewrite Hr. cbn [bind].
        destruct (Linear_forward_shape _ _ _ Ho) as (Hc & _).
        cbn [last_row cols] in Hc.
        rewrite (Linear_forward_ok _ (last_row r)) in Ho
          by (cbn [last_row cols]; exact Hc).
        apply Ok_inj in Ho. subst o.
        rewrite Linear_forward_ok by exact Hc.
        eexists. split; [reflexivity|]. exact Hp'.
      * apply (Hinv pre q post'); assumption.
Qed.

(** Every token that the loop of [Transformer.generate] emits is a token
    id of the model. *)
Lemma Transformer_generate_loop_valid (num_tokens d_model max_len : nat)
  (w : Transformer.Weights) (m : Transformer.t) (ctx : Tensor) :
  Transformer.init num_tokens d_model max_len w = Ok m ->
  (1 <= num_tokens)%nat -> cols ctx = d_model ->
  forall n target p out,
    forallb (fun t => (t <? num_tokens)%nat) target = true ->
    (p < num_tokens)%nat ->
    (1 <= length target)%nat -> (length target + n <= max_len)%nat ->
    Transformer.generate_loop m ctx n target p = Ok out ->
    forallb (fun t => (t <? num_tokens)%nat) out = true.
Proof.
  intros Hinit Hn Hc. induction n as [|n IH]; intros target p out Hv Hp Hl1 Hl H.
  - cbn in H. apply Ok_inj in H. now subst out.
  - cbn [Transformer.generate_loop] in H.
    assert (Hv' : forallb (fun t => (t <? num_tokens)%nat) (target ++ [p])
                  = true).
    { apply forallb_snoc; [exact Hv | now apply Nat.ltb_lt]. }
    destruct (p =? Transformer.EOS)%nat.
    + apply Ok_inj in H. now subst out.
    + assert (Hlen : length (target ++ [p]) = S (length target)).
      { rewrite length_app. cbn [length]. lia. }
      destruct (Transformer_decode_step_ok _ _ _ _ _ ctx (target ++ [p])
                  Hinit Hn Hc Hv')
        as (r & Hr & _ & _ & (p' & Hp' & Hlt) & _); [lia|].
      rewrite Hr in H. cbn [bind] in H.
      apply bind_ok in Hp' as (o & Ho & Ha). rewrite Ho in H. cbn [bind] in H.
      rewrite Ha in H. cbn [bind] in H.
      apply (IH (target ++ [p]) p' out Hv' Hlt); [lia | lia | exact H].
Qed.

(** Every token of a target that [Transformer.generate] returns is a
    token id of the model. *)
Lemma Transformer_generate_valid (num_tokens d_model max_len : nat)
  (w : Transformer.Weights) (m : Transformer.t)
  (src_token_ids target : list nat) :
  Transformer.init num_tokens d_model max_len w = Ok m ->
  (1 <= num_tokens)%nat -> (1 <= max_len)%nat ->
  forallb (fun t => (t <? num_tokens)%nat) src_token_ids = true ->
  (length src_token_ids <= max_len)%nat ->
  Transformer.generate m src_token_ids = Ok target ->
  forallb (fun t => (t <? num_tokens)%nat) target = true.
Proof.
  intros Hinit Hn Hm Hv Hl Hgen.
  destruct (Transformer_init_inv _ _ _ _ _ Hinit)
    as (enc & dec & Henc & Hdec & Em).
  destruct (Encoder_forward_ok _ _ _ _ _ enc src_token_ids Henc Hv Hl)
    as (ctx & Hctx & _ & Hcc).
  unfold Transformer.generate in Hgen.
  replace (Transformer.encoder m) with enc in Hgen
    by (rewrite Em; reflexivity).
  rewrite Hctx in Hgen. cbn [bind] in Hgen.
  assert (Hsos : forallb (fun t => (t <? num_tokens)%nat) [Transformer.SOS]
                 = true).
  { cbn [forallb]. rewrite andb_true_r. apply Nat.ltb_lt.
    unfold Transformer.SOS. lia. }
  destruct (Transformer_decode_step_ok _ _ _ _ _ ctx [Transformer.SOS]
              Hinit Hn Hcc Hsos) as (r & Hr & _ & _ & _ & Hfirst);
    [cbn; lia|].
  destruct (Hfirst eq_refl) as (p & Hp & Hlt).
  apply bind_ok in Hp as (o & Ho & Hp).
  rewrite Hr in Hgen. cbn [bind] in Hgen. rewrite Ho in Hgen.
  cbn [bind] in Hgen. rewrite Hp in Hgen. cbn [bind] in Hgen.
  replace (Transformer.max_len m) with max_len in Hgen
    by (rewrite Em; reflexivity).
  apply (Transformer_generate_loop_valid _ _ _ _ _ ctx Hinit Hn Hcc
           (max_len - 1) [Transformer.SOS] p _ Hsos Hlt);
    [cbn; lia | cbn; lia | exact Hgen].
Qed.

(** X16.  [Transformer.generate] is greedy decoding with respect to
    [Transformer.forward]: on a valid source without [<SOS>] that the
    position table covers, generation returns a target, and each token [q]
    of it that follows a prefix [pre] free of a second [<SOS>] is the
    argmax of the last row of logits of [forward] on the source followed by
    [pre]. *)
Theorem generate_is_greedy_decoding (num_tokens d_model max_len : nat)
  (w : Transformer.Weights) (m : Transformer.t) (src_token_ids : list nat) :
  Transformer.init num_tokens d_model max_len w = Ok m ->
  (1 <= num_tokens)%nat -> (1 <= max_len)%nat ->
  forallb (fun t => (t <? num_tokens)%nat) src_token_ids = true ->
  (length src_token_ids <= max_len)%nat ->
  ~ In Transformer.SOS src_token_ids ->
  exists target,
    Transformer.generate m src_token_ids = Ok target
    /\ forall pre q post,
         target = pre ++ q :: post -> pre <> [] ->
         ~ In Transformer.SOS (tl pre) ->
         exists logits,
           Transformer.forward m (src_token_ids ++ pre) = Ok logits
           /\ rows logits = length pre
           /\ argmax (flatten (last_row logits)) = Ok q.
Proof.
  intros Hinit Hn Hm Hv Hl Hsrc.
  destruct (Transformer_generate_ok _ _ _ _ _ src_token_ids Hinit Hn Hm Hv Hl)
    as (rest & Hgen & Hlen).
  exists (Transformer.SOS :: rest). split; [exact Hgen|].
  assert (Hgreedy : forall pre q post,
            Transformer.SOS :: rest = pre ++ q :: post -> pre <> [] ->
            ~ In Transformer.SOS (tl pre) ->
            exists logits,
              Transformer.forward m (src_token_ids ++ pre) = Ok logits
              /\ argmax (flatten (last_row logits)) = Ok q).
  { unfold Transformer.generate in Hgen.
    apply bind_ok in Hgen as (ctx & Hctx & H).
    apply bind_ok in H as (r & Hr & H). apply bind_ok in H as (o & Ho & H).
    apply bind_ok in H as (p & Hp & H).
    apply (Transformer_generate_loop_greedy m src_token_ids ctx Hctx Hsrc
             _ [] p _ H).
    intros pre q post E Hne Hno.
    destruct pre as [|a [|b pre]]; [congruence| |].
    2:{ destruct pre; discriminate. }
    injection E as <- <- _.
    rewrite Transformer_forward_at_sos by (auto; intros []).
    rewrite Hctx. cbn [bind]. rewrite Hr. cbn [bind].
    exists o. split; [exact Ho|].
    destruct (Transformer_init_inv _ _ _ _ _ Hinit)
      as (enc & dec & Henc & Hdec & E).
    destruct (Encoder_forward_ok _ _ _ _ _ enc src_token_ids Henc Hv Hl)
      as (ctx' & Hctx' & _ & Hcc).
    replace (Transformer.encoder m) with enc in Hctx by (rewrite E; reflexivity).
    rewrite Hctx in Hctx'. apply Ok_inj in Hctx'. subst ctx'.
    assert (Hsos : forallb (fun t => (t <? num_tokens)%nat) [Transformer.SOS]
                   = true).
    { cbn [forallb]. rewrite andb_true_r. apply Nat.ltb_lt.
      unfold Transformer.SOS. lia. }
    destruct (Transformer_decode_step_ok _ _ _ _ _ ctx [Transformer.SOS]
                Hinit Hn Hcc Hsos) as (r' & Hr' & Hrr & _);
      [cbn; lia|].
    rewrite Hr in Hr'. apply Ok_inj in Hr'. subst r'.
    destruct (Linear_forward_shape _ _ _ Ho) as (_ & Hor & Hoc).
    cbn [length] in Hrr.
    assert (Hoc' : cols o = num_tokens).
    { rewrite Hoc, E. reflexivity. }
    unfold argmax in Hp |- *.
    cbn [flatten len last_row rows cols elt val] in Hp |- *.
    rewrite Hor, Hrr, Hoc' in *. cbn [Nat.min].
    destruct (1 * num_tokens)%nat as [|k] eqn:Ek; [discriminate|].
    apply Ok_inj in Hp. subst p. f_equal.
    apply argmax_upto_ext. intros j Hj.
    rewrite Nat.div_small by lia. reflexivity. }
  intros pre q post E Hne Hno.
  destruct (Hgreedy pre q post E Hne Hno) as (logits & Hf & Ha).
  exists logits. split; [exact Hf|]. split; [|exact Ha].
  destruct (Transformer_init_inv _ _ _ _ _ Hinit)
    as (enc & dec & Henc & Hdec & Em).
  destruct (Encoder_forward_ok _ _ _ _ _ enc src_token_ids Henc Hv Hl)
    as (ctx & Hctx & _ & Hcc).
  pose proof (Transformer_generate_valid _ _ _ _ _ _ _ Hinit Hn Hm Hv Hl Hgen)
    as Hvalid.
  destruct pre as [|a pre]; [congruence|].
  pose proof E as E'. injection E' as <- _.
  cbn [tl] in Hno.
  rewrite Transformer_forward_at_sos in Hf by assumption.
  replace (Transformer.encoder m) with enc in Hf by (rewrite Em; reflexivity).
  rewrite Hctx in Hf. cbn [bind] in Hf.
  apply bind_ok in Hf as (r & Hr & Hf).
  destruct (Linear_forward_shape _ _ _ Hf) as (_ & Hor & _).
  rewrite E in Hvalid, Hlen.
  rewrite forallb_app in Hvalid. apply andb_true_iff in Hvalid as [Hvpre _].
  rewrite length_app in Hlen. cbn [length] in Hlen.
  destruct (Transformer_decode_step_ok _ _ _ _ _ ctx (Transformer.SOS :: pre)
              Hinit Hn Hcc Hvpre) as (r' & Hr' & Hrr & _);
    [cbn [length]; lia|].
  rewrite Hr in Hr'. apply Ok_inj in Hr'. subst r'.
  rewrite Hor. exact Hrr.
Qed.

Lemma generate_is_greedy_decoding_witness :
  exists m target,
    Transformer.init 6 2 5 sample_transformer_weights = Ok m
    /\ Transformer.generate m [1; 2; 5]%nat = Ok target
    /\ forall q post, target = [Transformer.SOS] ++ q :: post ->
         exists logits,
           Transformer.forward m ([1; 2; 5]%nat ++ [Transformer.SOS])
           = Ok logits
           /\ argmax (flatten (last_row logits)) = Ok q.
Proof.
  destruct sample_transformer_init as [m Hinit]. exists m.
  destruct (generate_is_greedy_decoding 6 2 5 _ m [1; 2; 5]%nat Hinit)
    as (target & Hgen & Hgreedy).
  - lia.
  - lia.
  - reflexivity.
  - cbn; lia.
  - cbn. unfold Transformer.SOS. lia.
  - exists target. split; [exact Hinit|]. split; [exact Hgen|].
    intros q post E.
    destruct (Hgreedy [Transformer.SOS] q post E) as (logits & Hf & _ & Ha).
    + discriminate.
    + intros [].
    + exists logits. split; assumption.
Defined.

(* ================================================================== *)
(** * Cross-entropy loss and the training steps *)

Lemma Rsum_gt_term (n : nat) (f : nat -> R) (j : nat) :
  (forall k, (k < n)%nat -> 0 < f k) -> (2 <= n)%nat -> (j < n)%nat ->
  f j < Rsum n f.
Proof.
  intros H Hn Hj. destruct n as [|n]; [lia|]. cbn [Rsum].
  assert (Hpos : 0 < f n) by (apply H; lia).
  destruct (Nat.eq_dec j n) as [->|Hne].
  - assert (0 < Rsum n f) by (apply Rsum_pos; [intros; apply H|]; lia). lra.
  - assert (f j <= Rsum n f).
    { apply Rsum_ge_term; [|lia]. intros k Hk. left. apply H. lia. }
    lra.
Qed.

(** With two classes or more every softmax entry is below 1. *)
Lemma softmax_lt_1 (t : Tensor) (i y : nat) :
  (2 <= cols t)%nat -> (y < cols t)%nat -> val (softmax t) i y < 1.
Proof.
  intros Hc Hy. cbn [softmax val].
  assert (Hs : exp (val t i y) < Rsum (cols t) (fun k => exp (val t i k))).
  { apply (Rsum_gt_term (cols t) (fun k => exp (val t i k)) y);
      [intros; apply exp_pos | exact Hc | exact Hy]. }
  pose proof (exp_pos (val t i y)) as He.
  apply (Rmult_lt_reg_r (Rsum (cols t) (fun k => exp (val t i k)))); [lra|].
  unfold Rdiv. rewrite Rmult_assoc, Rinv_l by lra. lra.
Qed.

Lemma nll_pos (t : Tensor) (i y : nat) :
  (2 <= cols t)%nat -> (y < cols t)%nat -> 0 < nll t i y.
Proof.
  intros Hc Hy. unfold nll.
  pose proof (softmax_pos t i y Hy) as Hp.
  pose proof (softmax_lt_1 t i y Hc Hy) as Hl.
  pose proof (ln_increasing _ _ Hp Hl) as Hln. rewrite ln_1 in Hln. lra.
Qed.

(** The three outcomes of [nn.CrossEntropyLoss] on [N x C] logits. *)
Lemma CrossEntropyLoss_cases (outputs : Tensor) (labels : list nat) :
  (1 <= rows outputs)%nat -> (2 <= cols outputs)%nat ->
  (length labels <> rows outputs ->
   CrossEntropyLoss outputs labels = ValueError)
  /\ (length labels = rows outputs ->
      forallb (fun y => (y <? cols outputs)%nat) labels = false ->
      CrossEntropyLoss outputs labels = TargetOutOfBounds)
  /\ (length labels = rows outputs ->
      forallb (fun y => (y <? cols outputs)%nat) labels = true ->
      exists l, CrossEntropyLoss outputs labels = LossValue l /\ 0 < l).
Proof.
  intros Hr Hc. unfold CrossEntropyLoss. split; [|split].
  - intros Hne. destruct (Nat.eqb_spec (rows outputs) (length labels));
      [congruence | reflexivity].
  - intros He Hv. rewrite <- He, Nat.eqb_refl, Hv. reflexivity.
  - intros He Hv. rewrite <- He, Nat.eqb_refl, Hv. cbn [negb].
    eexists. split; [reflexivity|].
    apply Rdiv_lt_0_compat.
    + apply Rsum_pos; [|lia]. intros k Hk. apply nll_pos; [exact Hc|].
      rewrite forallb_forall in Hv. apply Nat.ltb_lt, Hv, nth_In. lia.
    + apply lt_0_INR. lia.
Qed.

(** X18.  [DecoderOnlyTransformer.training_step] on a batch whose first
    row holds between 1 and [max_len] valid tokens, for a vocabulary of at
    least two tokens: the loss is defined exactly when the first row of
    labels has one valid class per input token, and it is then strictly
    positive; a different number of labels is a ValueError, a label that
    is no token id an IndexError of the loss; an empty batch raises
    IndexError before the model runs. *)
Theorem decoder_only_training_step_outcomes (num_tokens d_model max_len : nat)
  (w : DecoderOnlyTrans.Weights) (m : DecoderOnlyTrans.DecoderOnlyTransformer)
  (tokens : list nat) (more_tokens : list (list nat))
  (labels0 : list nat) (more_labels : list (list nat)) :
  DecoderOnlyTrans.init num_tokens d_model max_len w = Ok m ->
  (2 <= num_tokens)%nat ->
  forallb (fun t => (t <? num_tokens)%nat) tokens = true ->
  (1 <= length tokens <= max_len)%nat ->
  (length labels0 <> length tokens ->
   DecoderOnlyRun.training_step m (tokens :: more_tokens)
     (labels0 :: more_labels) = Ok ValueError)
  /\ (length labels0 = length tokens ->
      forallb (fun y => (y <? num_tokens)%nat) labels0 = false ->
      DecoderOnlyRun.training_step m (tokens :: more_tokens)
        (labels0 :: more_labels) = Ok TargetOutOfBounds)
  /\ (length labels0 = length tokens ->
      forallb (fun y => (y <? num_tokens)%nat) labels0 = true ->
      exists loss,
        DecoderOnlyRun.training_step m (tokens :: more_tokens)
          (labels0 :: more_labels) = Ok (LossValue loss)
        /\ 0 < loss)
  /\ DecoderOnlyRun.training_step m [] (labels0 :: more_labels)
     = Raise IndexError
  /\ DecoderOnlyRun.training_step m (tokens :: more_tokens) []
     = Raise IndexError.
Proof.
  intros Hinit Hn Hv [Hl1 Hl2].
  destruct (DecoderOnly_forward_explicit _ _ _ _ _ tokens Hinit Hv Hl2)
    as (x & sa & out & _ & Hout & Hr & Hc & _).
  unfold DecoderOnlyRun.training_step. cbn [first_of bind].
  rewrite Hout. cbn [bind].
  destruct (CrossEntropyLoss_cases out labels0) as (H1 & H2 & H3);
    [lia | lia |].
  rewrite Hr, Hc in *.
  split; [|split; [|split; [|split]]]; try reflexivity.
  - intros H. now rewrite H1.
  - intros Ha Hb. now rewrite H2.
  - intros Ha Hb. destruct (H3 Ha Hb) as (l & -> & Hpos). eauto.
Qed.

Lemma decoder_only_training_step_outcomes_witness :
  exists m loss,
    DecoderOnlyTrans.init 5 2 6 sample_decoder_only_weights = Ok m
    /\ DecoderOnlyRun.training_step m [[0; 1; 2; 4; 3]%nat]
         [[1; 2; 4; 3; 4]%nat] = Ok (LossValue loss)
    /\ 0 < loss
    /\ DecoderOnlyRun.training_step m [[0; 1; 2; 4; 3]%nat]
         [[1; 2; 4; 3]%nat] = Ok ValueError.
Proof.
  destruct sample_decoder_only_init as [m Hinit]. exists m.
  destruct (decoder_only_training_step_outcomes 5 2 6 _ m
              [0; 1; 2; 4; 3]%nat [] [1; 2; 4; 3; 4]%nat [] Hinit)
    as (_ & _ & H3 & _); [lia | reflexivity | cbn; lia |].
  destruct (H3 eq_refl eq_refl) as (loss & Hl & Hpos).
  destruct (decoder_only_training_step_outcomes 5 2 6 _ m
              [0; 1; 2; 4; 3]%nat [] [1; 2; 4; 3]%nat [] Hinit)
    as (H1 & _); [lia | reflexivity | cbn; lia |].
  exists loss. split; [exact Hinit|]. split; [exact Hl|].
  split; [exact Hpos|]. apply H1. cbn. lia.
Defined.

(** X19.  [Transformer.training_step] with teacher forcing: the first row
    of the batch is a source, [<SOS>] and a target; for a vocabulary of at
    least two tokens and sequences the position table covers, the loss is
    defined exactly when the first row of labels has one valid class for
    [<SOS>] and for each target token -- none for the source -- and it is
    then strictly positive; any other number of labels is a ValueError. *)
Theorem transformer_training_step_outcomes (num_tokens d_model max_len : nat)
  (w : Transformer.Weights) (m : Transformer.t)
  (pre post : list nat) (more_tokens : list (list nat))
  (labels0 : list nat) (more_labels : list (list nat)) :
  Transformer.init num_tokens d_model max_len w = Ok m ->
  (2 <= num_tokens)%nat ->
  forallb (fun t => (t <? num_tokens)%nat) pre = true ->
  forallb (fun t => (t <? num_tokens)%nat) post = true ->
  ~ In Transformer.SOS pre -> ~ In Transformer.SOS post ->
  (length pre <= max_len)%nat -> (length post + 1 <= max_len)%nat ->
  (length labels0 <> (length post + 1)%nat ->
   TransformerRun.training_step m
     ((pre ++ Transformer.SOS :: post) :: more_tokens)
     (labels0 :: more_labels) = Ok ValueError)
  /\ (length labels0 = (length post + 1)%nat ->
      forallb (fun y => (y <? num_tokens)%nat) labels0 = false ->
      TransformerRun.training_step m
        ((pre ++ Transformer.SOS :: post) :: more_tokens)
        (labels0 :: more_labels) = Ok TargetOutOfBounds)
  /\ (length labels0 = (length post + 1)%nat ->
      forallb (fun y => (y <? num_tokens)%nat) labels0 = true ->
      exists loss,
        TransformerRun.training_step m
          ((pre ++ Transformer.SOS :: post) :: more_tokens)
          (labels0 :: more_labels) = Ok (LossValue loss)
        /\ 0 < loss).
Proof.
  intros Hinit Hn Hvpre Hvpost Hpre Hpost Hlpre Hlpost.
  destruct (Transformer_forward_ok _ _ _ _ _ pre post Hinit)
    as (out & Hout & Hr & Hc); try assumption; [lia|].
  unfold TransformerRun.training_step. cbn [first_of bind].
  rewrite Hout. cbn [bind].
  destruct (CrossEntropyLoss_cases out labels0) as (H1 & H2 & H3);
    [lia | lia |].
  rewrite Hr, Hc in *.
  split; [|split].
  - intros H. now rewrite H1.
  - intros Ha Hb. now rewrite H2.
  - intros Ha Hb. destruct (H3 Ha Hb) as (l & -> & Hpos). eauto.
Qed.

Lemma transformer_training_step_outcomes_witness :
  exists m loss,
    Transformer.init 6 2 5 sample_transformer_weights = Ok m
    /\ TransformerRun.training_step m [[1; 2; 5; 0; 2]%nat] [[2; 5]%nat]
       = Ok (LossValue loss)
    /\ 0 < loss
    /\ TransformerRun.training_step m [[1; 2; 5; 0; 2]%nat]
         [[1; 2; 5; 2; 5]%nat] = Ok ValueError.
Proof.
  destruct sample_transformer_init as [m Hinit]. exists m.
  assert (Hsos1 : ~ In Transformer.SOS [1; 2; 5]%nat).
  { cbn. unfold Transformer.SOS. lia. }
  assert (Hsos2 : ~ In Transformer.SOS [2]%nat).
  { cbn. unfold Transformer.SOS. lia. }
  destruct (transformer_training_step_outcomes 6 2 5 _ m
              [1; 2; 5]%nat [2]%nat [] [2; 5]%nat [] Hinit)
    as (_ & _ & H3); [lia | reflexivity | reflexivity | exact Hsos1
                      | exact Hsos2 | cbn; lia | cbn; lia |].
  destruct (H3 eq_refl eq_refl) as (loss & Hl & Hpos).
  destruct (transformer_training_step_outcomes 6 2 5 _ m
              [1; 2; 5]%nat [2]%nat [] [1; 2; 5; 2; 5]%nat [] Hinit)
    as (H1 & _); [lia | reflexivity | reflexivity | exact Hsos1
                  | exact Hsos2 | cbn; lia | cbn; lia |].
  exists loss. split; [exact Hinit|]. split; [exact Hl|].
  split; [exact Hpos|]. apply H1. cbn. lia.
Defined.

(** X20.  [EncoderOnlyTransformer.training_step] on a first row of exactly
    [max_len] valid tokens: the two logits give a strictly positive loss
    for the labels 0 and 1, and any other label is an IndexError of the
    loss. *)
Theorem encoder_only_training_step_outcomes
  (num_tokens d_model head max_len : nat)
  (w : EncoderOnlyTrans.Weights) (m : EncoderOnlyTrans.EncoderOnlyTransformer)
  (tokens : list nat) (more_tokens : list (list nat))
  (label : nat) (more_labels : list nat) :
  EncoderOnlyTrans.init num_tokens d_model head max_len w = Ok m ->
  (1 <= head)%nat ->
  forallb (fun t => (t <? num_tokens)%nat) tokens = true ->
  length tokens = max_len ->
  ((label < 2)%nat ->
   exists loss,
     EncoderOnlyRun.training_step m (tokens :: more_tokens)
       (label :: more_labels) = Ok (LossValue loss)
     /\ 0 < loss)
  /\ ((2 <= label)%nat ->
      EncoderOnlyRun.training_step m (tokens :: more_tokens)
        (label :: more_labels) = Ok TargetOutOfBounds).
Proof.
  intros Hinit Hh Hv Hl.
  destruct (EncoderOnly_forward_ok _ _ _ _ _ _ tokens Hinit Hh Hv Hl)
    as (out & Hout & Hlen).
  unfold EncoderOnlyRun.training_step. cbn [first_of bind].
  rewrite Hout. cbn [bind]. unfold CrossEntropyLoss1. rewrite Hlen.
  split.
  - intros Hlt. apply Nat.ltb_lt in Hlt as Hb. rewrite Hb. cbn [negb].
    eexists. split; [reflexivity|]. apply nll_pos; cbn [cols]; lia.
  - intros Hge. apply Nat.ltb_ge in Hge as Hb. rewrite Hb. reflexivity.
Qed.

Lemma encoder_only_training_step_outcomes_witness :
  exists m loss,
    EncoderOnlyTrans.init 12 2 2 6 sample_encoder_only_weights = Ok m
    /\ EncoderOnlyRun.training_step m [[10; 8; 9; 11; 11; 11]%nat] [1%nat]
       = Ok (LossValue loss)
    /\ 0 < loss.
Proof.
  destruct sample_encoder_only_init as [m Hinit]. exists m.
  destruct (encoder_only_training_step_outcomes 12 2 2 6 _ m
              [10; 8; 9; 11; 11; 11]%nat [] 1%nat [] Hinit)
    as (H1 & _); [lia | reflexivity | reflexivity |].
  destruct H1 as (loss & Hl & Hpos); [lia|].
  exists loss. split; [exact Hinit|]. split; assumption.
Defined.

(* ================================================================== *)
(** * Vocabularies *)

Lemma dict_set_fresh {K V : Type} (eqb : K -> K -> bool)
  (eqb_spec : forall a b, eqb a b = true <-> a = b)
  (d : dict K V) (k : K) (v : V) :
  ~ In k (map fst d) -> dict_set eqb d k v = d ++ [(k, v)].
Proof.
  induction d as [|[k' v'] d IH]; intros Hk; [reflexivity|].
  cbn [dict_set]. destruct (eqb k' k) eqn:E.
  - apply eqb_spec in E. subst. exfalso. apply Hk. now left.
  - rewrite IH; [reflexivity|]. intros Hin. apply Hk. now right.
Qed.

Lemma dict_of_acc {K V : Type} (eqb : K -> K -> bool)
  (eqb_spec : forall a b, eqb a b = true <-> a = b)
  (pairs acc : list (K * V)) :
  NoDup (map fst (acc ++ pairs)) ->
  fold_left (fun d kv => dict_set eqb d (fst kv) (snd kv)) pairs acc
  = acc ++ pairs.
Proof.
  revert acc. induction pairs as [|[k v] pairs IH]; intros acc Hnd.
  - now rewrite app_nil_r.
  - cbn [fold_left fst snd]. rewrite (dict_set_fresh eqb eqb_spec).
    + rewrite IH; rewrite <- app_assoc; [reflexivity | exact Hnd].
    + rewrite map_app in Hnd. cbn [map fst] in Hnd.
      apply NoDup_remove_2 in Hnd. intros Hin. apply Hnd.
      apply in_or_app. now left.
Qed.

(** A literal with distinct keys is stored as written. *)
Lemma dict_of_nodup {K V : Type} (eqb : K -> K -> bool)
  (eqb_spec : forall a b, eqb a b = true <-> a = b)
  (pairs : list (K * V)) :
  NoDup (map fst pairs) -> dict_of eqb pairs = pairs.
Proof. intros H. unfold dict_of. now rewrite (dict_of_acc eqb eqb_spec). Qed.

Lemma dict_get_In {K V : Type} (eqb : K -> K -> bool)
  (eqb_spec : forall a b, eqb a b = true <-> a = b)
  (d : dict K V) (k : K) (v : V) :
  NoDup (map fst d) -> (dict_get eqb d k = Some v <-> In (k, v) d).
Proof.
  induction d as [|[k' v'] d IH]; intros Hnd.
  - cbn. split; [discriminate | tauto].
  - cbn [dict_get]. cbn [map fst] in Hnd. inversion Hnd as [|? ? Hnot Hnd'].
    subst. destruct (eqb k' k) eqn:E.
    + apply eqb_spec in E. subst k'. split.
      * intros H. injection H as ->. now left.
      * intros [H|H]; [congruence|].
        exfalso. apply Hnot. apply (in_map fst) in H. exact H.
    + rewrite (IH Hnd'). split; [now right|].
      intros [H|H]; [|exact H]. injection H as -> ->.
      assert (eqb k k = true) by now apply eqb_spec. congruence.
Qed.

Lemma string_eqb_spec (a b : string) : String.eqb a b = true <-> a = b.
Proof. apply String.eqb_eq. Qed.

Lemma nat_eqb_spec (a b : nat) : Nat.eqb a b = true <-> a = b.
Proof. apply Nat.eqb_eq. Qed.

Lemma map_fst_reversed {K V : Type} (d : list (K * V)) :
  map fst (map reversed d) = map snd d.
Proof. rewrite map_map. reflexivity. Qed.

Lemma In_reversed {K V : Type} (d : list (K * V)) (k : K) (v : V) :
  In (v, k) (map reversed d) <-> In (k, v) d.
Proof.
  rewrite in_map_iff. split.
  - intros ([k' v'] & E & H). unfold reversed in E. cbn in E.
    injection E as -> ->. exact H.
  - intros H. exists (k, v). auto.
Qed.

(** X21.  The id-to-token dictionaries invert the vocabularies: for a
    vocabulary literal whose words are distinct and whose ids are distinct,
    [dict(map(reversed, token_to_id.items()))] maps an id to a word exactly
    when [token_to_id] maps that word to that id, so looking a word up and
    back (or an id up and back) returns it, and an id outside the
    vocabulary is a KeyError. *)
Theorem id_to_token_inverts_token_to_id (pairs : list (string * nat)) :
  NoDup (map fst pairs) -> NoDup (map snd pairs) ->
  forall word id,
    dict_get Nat.eqb (inverse_dict Nat.eqb (dict_of String.eqb pairs)) id
    = Some word
    <-> dict_get String.eqb (dict_of String.eqb pairs) word = Some id.
Proof.
  intros Hk Hv word id.
  rewrite (dict_of_nodup String.eqb string_eqb_spec pairs Hk).
  unfold inverse_dict, items.
  assert (Hv' : NoDup (map fst (map reversed pairs))).
  { now rewrite map_fst_reversed. }
  rewrite (dict_of_nodup Nat.eqb nat_eqb_spec _ Hv').
  rewrite (dict_get_In Nat.eqb nat_eqb_spec _ _ _ Hv').
  rewrite (dict_get_In String.eqb string_eqb_spec _ _ _ Hk).
  apply In_reversed.
Qed.

Lemma id_to_token_inverts_token_to_id_witness :
  dict_get Nat.eqb DecoderOnlyRun.id_to_token 2%nat = Some "statquest"%string
  <-> dict_get String.eqb DecoderOnlyRun.token_to_id "statquest"%string
      = Some 2%nat.
Proof.
  apply (id_to_token_inverts_token_to_id
           [("what"%string, 0%nat); ("is"%string, 1%nat);
            ("statquest"%string, 2%nat); ("awesome"%string, 3%nat);
            ("<EOS>"%string, 4%nat)]).
  - cbn [map fst].
    repeat (constructor; [cbn [In]; intros H;
                          repeat (destruct H as [H|H]; [discriminate|]);
                          exact H|]).
    constructor.
  - cbn [map snd].
    repeat (constructor; [cbn [In]; lia|]). constructor.
Defined.

(* ================================================================== *)
(** * Printing the generated tokens *)

Lemma print_tokens_ok (id_to_token : dict nat string) (ids : list nat) :
  (forall id, In id ids -> dict_get Nat.eqb id_to_token id <> None) ->
  exists words,
    print_tokens id_to_token ids = Some words /\ length words = length ids.
Proof.
  induction ids as [|id ids IH]; intros H.
  - exists []. split; reflexivity.
  - cbn [print_tokens].
    destruct (dict_get Nat.eqb id_to_token id) as [w|] eqn:E.
    + destruct IH as (ws & -> & Hl); [intros; apply H; now right|].
      exists (w :: ws). split; [reflexivity|]. cbn [length]. now rewrite Hl.
    + exfalso. apply (H id); [now left | exact E].
Qed.

Lemma id_to_token_spa_total (id : nat) :
  (id < length TransformerRun.token_to_id_eng)%nat ->
  dict_get Nat.eqb TransformerRun.id_to_token_spa id <> None.
Proof.
  intros H. change (length TransformerRun.token_to_id_eng) with 6%nat in H.
  do 6 (destruct id as [|id]; [vm_compute; discriminate|]). lia.
Qed.

Lemma DecoderOnly_id_to_token_total (id : nat) :
  (id < length DecoderOnlyRun.token_to_id)%nat ->
  dict_get Nat.eqb DecoderOnlyRun.id_to_token id <> None.
Proof.
  intros H. change (length DecoderOnlyRun.token_to_id) with 5%nat in H.
  do 5 (destruct id as [|id]; [vm_compute; discriminate|]). lia.
Qed.

(** Every token of the decoder-only generation is a token id of the
    model. *)
Lemma DecoderOnly_generation_order_valid (num_tokens d_model max_len : nat)
  (w : DecoderOnlyTrans.Weights) (m : DecoderOnlyTrans.DecoderOnlyTransformer) :
  DecoderOnlyTrans.init num_tokens d_model max_len w = Ok m ->
  (1 <= num_tokens)%nat ->
  forall n input p order,
    forallb (fun t => (t <? num_tokens)%nat) input = true ->
    (p < num_tokens)%nat ->
    (length input + n <= max_len)%nat ->
    DecoderOnlyTrans.generation_order (DecoderOnlyTrans.forward m) n input p
    = Ok order ->
    forall id, In id order -> (id < num_tokens)%nat.
Proof.
  intros Hinit Hn. induction n as [|n IH]; intros input p order Hv Hp Hl H.
  - cbn in H. apply Ok_inj in H. subst order. intros id [<-|[]]. exact Hp.
  - cbn [DecoderOnlyTrans.generation_order] in H.
    destruct (p =? DecoderOnlyTrans.EOS)%nat.
    + apply Ok_inj in H. subst order. intros id [<-|[]]. exact Hp.
    + assert (Hv' : forallb (fun t => (t <? num_tokens)%nat) (input ++ [p])
                    = true).
      { apply forallb_snoc; [exact Hv | now apply Nat.ltb_lt]. }
      destruct (DecoderOnly_predict_ok _ _ _ _ _ (input ++ [p]) Hinit Hn Hv')
        as (out & _ & Hpred & Hlt).
      { rewrite length_app. cbn [length]. lia. }
      rewrite Hpred in H. cbn [bind] in H.
      apply bind_ok in H as (rest & Hrest & H). apply Ok_inj in H. subst order.
      intros id [<-|Hin]; [exact Hp|].
      apply (IH (input ++ [p]) _ rest Hv' Hlt); [|exact Hrest | exact Hin].
      rewrite length_app. cbn [length]. lia.
Qed.

(** X22.  [Transformer.generate] on the notebook's model, built with
    [num_tokens = len(token_to_id_eng)]: for every source of valid tokens
    that the position table covers, generation returns and the closing
    loop [print(id_to_token_spa[id.item()])] finds a word for every token of
    the target -- no KeyError -- the first being [<SOS>]. *)
Theorem generate_prints_every_token (d_model max_len : nat)
  (w : Transformer.Weights) (m : Transformer.t) (src_token_ids : list nat) :
  Transformer.init (length TransformerRun.token_to_id_eng) d_model max_len w
  = Ok m ->
  (1 <= max_len)%nat ->
  forallb (fun t => (t <? length TransformerRun.token_to_id_eng)%nat)
    src_token_ids = true ->
  (length src_token_ids <= max_len)%nat ->
  exists target words,
    Transformer.generate m src_token_ids = Ok target
    /\ print_tokens TransformerRun.id_to_token_spa target
       = Some ("<SOS>"%string :: words)
    /\ length ("<SOS>"%string :: words) = length target
    /\ (length target <= max_len)%nat.
Proof.
  intros Hinit Hm Hv Hl.
  assert (Hn : (1 <= length TransformerRun.token_to_id_eng)%nat).
  { change (length TransformerRun.token_to_id_eng) with 6%nat. lia. }
  destruct (Transformer_generate_ok _ _ _ _ _ src_token_ids Hinit Hn Hm Hv Hl)
    as (rest & Hgen & Hlen).
  pose proof (Transformer_generate_valid _ _ _ _ _ _ _ Hinit Hn Hm Hv Hl Hgen)
    as Hvalid.
  destruct (print_tokens_ok TransformerRun.id_to_token_spa
              (Transformer.SOS :: rest)) as (words & Hw & Hwl).
  { intros id Hin. apply id_to_token_spa_total.
    rewrite forallb_forall in Hvalid. apply Nat.ltb_lt, Hvalid, Hin. }
  exists (Transformer.SOS :: rest).
  cbn [print_tokens] in Hw.
  change (dict_get Nat.eqb TransformerRun.id_to_token_spa Transformer.SOS)
    with (Some "<SOS>"%string) in Hw.
  destruct (print_tokens TransformerRun.id_to_token_spa rest) as [ws|] eqn:E;
    [|discriminate].
  injection Hw as <-. exists ws.
  split; [exact Hgen|]. split.
  - cbn [print_tokens].
    change (dict_get Nat.eqb TransformerRun.id_to_token_spa Transformer.SOS)
      with (Some "<SOS>"%string).
    now rewrite E.
  - split; [exact Hwl | exact Hlen].
Qed.

Lemma generate_prints_every_token_witness :
  exists m target words,
    Transformer.init 6 2 5 sample_transformer_weights = Ok m
    /\ Transformer.generate m [1; 2; 5]%nat = Ok target
    /\ print_tokens TransformerRun.id_to_token_spa target
       = Some ("<SOS>"%string :: words).
Proof.
  destruct sample_transformer_init as [m Hinit]. exists m.
  destruct (generate_prints_every_token 2 5 _ m [1; 2; 5]%nat Hinit)
    as (target & words & Hgen & Hp & _).
  - lia.
  - reflexivity.
  - cbn; lia.
  - exists target, words. split; [exact Hinit|]. split; assumption.
Defined.

(** X23.  The generation cells of the decoder-only notebook on its model,
    built with [num_tokens = len(token_to_id)]: for every prompt of 1 to
    [max_len] valid tokens both cells return, and their closing loop
    [print(id_to_token[id.item()])] finds a word for every generated
    token -- no KeyError. *)
Theorem generation_cells_print_every_token (d_model max_len : nat)
  (w : DecoderOnlyTrans.Weights) (m : DecoderOnlyTrans.DecoderOnlyTransformer)
  (prompt : list nat) :
  DecoderOnlyTrans.init (length DecoderOnlyRun.token_to_id) d_model max_len w
  = Ok m ->
  forallb (fun t => (t <? length DecoderOnlyRun.token_to_id)%nat) prompt
  = true ->
  (1 <= length prompt <= max_len)%nat ->
  exists s_after s_before words_after words_before,
    DecoderOnlyTrans.generate_after_training (DecoderOnlyTrans.forward m)
      max_len prompt = Ok s_after
    /\ DecoderOnlyTrans.generate_before_training (DecoderOnlyTrans.forward m)
         max_len prompt = Ok s_before
    /\ print_tokens DecoderOnlyRun.id_to_token
         (DecoderOnlyTrans.predicted_ids s_after) = Some words_after
    /\ print_tokens DecoderOnlyRun.id_to_token
         (DecoderOnlyTrans.predicted_ids s_before) = Some words_before
    /\ length words_after = length (DecoderOnlyTrans.predicted_ids s_after)
    /\ length words_before = length words_after.
Proof.
  intros Hinit Hv Hl.
  assert (Hn : (1 <= length DecoderOnlyRun.token_to_id)%nat).
  { change (length DecoderOnlyRun.token_to_id) with 5%nat. lia. }
  destruct (DecoderOnly_generate_ok _ _ _ _ _ prompt Hinit Hn Hv Hl)
    as (p & order & Hord & _ & Ha & Hb & _).
  assert (Hp : (p < length DecoderOnlyRun.token_to_id)%nat).
  { destruct (DecoderOnly_predict_ok _ _ _ _ _ prompt Hinit Hn Hv Hl)
      as (out & _ & Hpred & Hlt).
    rewrite generate_after_training_order, Hpred in Ha. cbn [bind] in Ha.
    destruct (DecoderOnlyTrans.generation_order _ _ _ _) as [o1|] eqn:E1
      in Ha; [|discriminate].
    cbn [bind] in Ha. apply Ok_inj in Ha.
    destruct (generation_order_shape _ _ _ _ _ E1) as (r1 & -> & _).
    destruct (generation_order_shape _ _ _ _ _ Hord) as (r2 & -> & _).
    apply (f_equal DecoderOnlyTrans.predicted_ids) in Ha.
    cbn [DecoderOnlyTrans.predicted_ids] in Ha. injection Ha as Ha _.
    rewrite <- Ha. exact Hlt. }
  pose proof (DecoderOnly_generation_order_valid _ _ _ _ _ Hinit Hn
                (max_len - length prompt) prompt p order Hv Hp
                ltac:(lia) Hord) as Hvalid.
  destruct (print_tokens_ok DecoderOnlyRun.id_to_token order)
    as (wa & Hwa & Hla).
  { intros id Hin. apply DecoderOnly_id_to_token_total, Hvalid, Hin. }
  destruct (print_tokens_ok DecoderOnlyRun.id_to_token (rev order))
    as (wb & Hwb & Hlb).
  { intros id Hin. apply DecoderOnly_id_to_token_total, Hvalid.
    now apply in_rev. }
  do 4 eexists. split; [exact Ha|]. split; [exact Hb|].
  cbn [DecoderOnlyTrans.predicted_ids].
  split; [exact Hwa|]. split; [exact Hwb|]. split; [exact Hla|].
  rewrite Hlb, Hla. apply length_rev.
Qed.

Lemma generation_cells_print_every_token_witness :
  exists m s words,
    DecoderOnlyTrans.init 5 2 6 sample_decoder_only_weights = Ok m
    /\ DecoderOnlyTrans.generate_after_training (DecoderOnlyTrans.forward m)
         6 sample_prompt = Ok s
    /\ print_tokens DecoderOnlyRun.id_to_token
         (DecoderOnlyTrans.predicted_ids s) = Some words.
Proof.
  destruct sample_decoder_only_init as [m Hinit]. exists m.
  destruct (generation_cells_print_every_token 2 6 _ m sample_prompt Hinit)
    as (sa & sb & wa & wb & Ha & _ & Hp & _).
  - reflexivity.
  - cbn; lia.
  - exists sa, wa. split; [exact Hinit|]. split; assumption.
Defined.
